(** * Workflow chaining: the stream decoder and the chain orchestrator

    A shallow embedding of [service/workflow-chain.ts]: the function
    [executeCustomWorkflow], which decodes the line-delimited event stream
    of one remote workflow run, and the class [WorkflowChainManager], which
    keeps the chains and advances them one step per call.

    The repository holds two revisions of that file.  They share
    [executeCustomWorkflow], [createChain], [resetChain] and the queries
    word for word, and differ inside [executeNextStep], in the mapping of
    the previous step's outputs onto the inputs and in the collection of
    the outputs, and in [deleteChain], which returns whether a chain was
    deleted in the annotated revision and nothing in the other; the
    annotated revision alone has [getAllChains].  Both are embedded;
    [revision] selects one.

    The handler [POST] of [app/api/workflow-chain-test/route.ts], which
    creates the example chains and runs their steps on the manager, is
    embedded after them. *)

From Stdlib Require Import ZArith String Ascii List Strings.Byte DecimalString
  DecimalNat.
From stdpp Require Import base option list gmap strings.

Set Warnings "-register-all".
Local Open Scope string_scope.
Local Open Scope Z_scope.

(** ** JavaScript values that cross the wire

    Everything the code reads comes out of [JSON.parse], so a value is a
    JSON value.  A JavaScript string is represented by the bytes of its
    UTF-8 encoding.  A number is the decimal [mantissa * 10 ^ exponent]
    written in the text. *)

Inductive json : Type :=
  | JNull
  | JBool (b : bool)
  | JNum (mantissa exponent : Z)
  | JStr (s : string)
  | JArr (items : list json)
  | JObj (fields : list (string * json)).

(** [Record<string, any>]: an object used as a dictionary. *)
Abbreviation dict := (gmap string json).

(** A decimal literal denotes the double nearest to it; that double is zero
    when the mantissa is zero, and also when the magnitude is at most
    2^-1075, half the least positive double. *)
Definition number_is_zero (m e : Z) : bool :=
  if m =? 0 then true
  else if 0 <=? e then false
  else Z.abs m * 2 ^ 1075 <=? 10 ^ (- e).

(** ToBoolean. *)
Definition truthy (v : json) : bool :=
  match v with
  | JNull => false
  | JBool b => b
  | JNum m e => negb (number_is_zero m e)
  | JStr s => negb (String.eqb s "")
  | JArr _ => true
  | JObj _ => true
  end.

(** A property that may be [undefined]. *)
Definition truthy_opt (v : option json) : bool :=
  match v with
  | Some j => truthy j
  | None => false
  end.

(** The own properties of a parsed object: a key written twice keeps the
    value written last. *)
Definition fields_dict (fields : list (string * json)) : dict :=
  fold_left (fun m kv => <[kv.1 := kv.2]> m) fields ∅.

(** [nat] to its decimal numeral, as in a template literal. *)
Definition decimal (n : nat) : string :=
  NilZero.string_of_uint (Nat.to_uint n).

Fixpoint index_fields_from (i : nat) (items : list json) : list (string * json) :=
  match items with
  | [] => []
  | x :: rest => (decimal i, x) :: index_fields_from (S i) rest
  end.

(** [v.name] for a name that no prototype defines ([event], [data],
    [outputs], [error], [message], [workflow_run_id]): [None] stands for
    [undefined].  Reading a property of [null] throws a TypeError, which
    is the outer [None]. *)
Definition prop (v : json) (name : string) : option (option json) :=
  match v with
  | JNull => None
  | JObj fields => Some (fields_dict fields !! name)
  | _ => Some None
  end.

(** [a && a.name] as a condition, for [a] that may be [undefined]. *)
Definition guarded_prop (a : option json) (name : string) : option json :=
  match a with
  | Some v => if truthy v then mjoin (prop v name) else None
  | None => None
  end.

(** [{ ...a, ...b }]: the keys of [b] win. *)
Definition spread2 (a b : dict) : dict := b ∪ a.

(** ** Strings

    [String.prototype.trim] removes white space and line terminators from
    both ends.  Here they are by their UTF-8 bytes: U+0009 to U+000D,
    U+0020, U+00A0, U+1680, U+2000 to U+200A, U+2028, U+2029, U+202F,
    U+205F, U+3000 and U+FEFF. *)

Definition white_space : list (list ascii) :=
  map (map ascii_of_nat)
    [ [9]; [10]; [11]; [12]; [13]; [32]; [194; 160]; [225; 154; 128];
      [226; 128; 128]; [226; 128; 129]; [226; 128; 130]; [226; 128; 131];
      [226; 128; 132]; [226; 128; 133]; [226; 128; 134]; [226; 128; 135];
      [226; 128; 136]; [226; 128; 137]; [226; 128; 138];
      [226; 128; 168]; [226; 128; 169]; [226; 128; 175]; [226; 129; 159];
      [227; 128; 128]; [239; 187; 191] ]%nat.

Fixpoint strip_prefix (p l : list ascii) : option (list ascii) :=
  match p, l with
  | [], _ => Some l
  | a :: p', b :: l' => if Ascii.eqb a b then strip_prefix p' l' else None
  | _ :: _, [] => None
  end.

Fixpoint strip_first (pats : list (list ascii)) (l : list ascii) : option (list ascii) :=
  match pats with
  | [] => None
  | p :: rest =>
      match strip_prefix p l with
      | Some l' => Some l'
      | None => strip_first rest l
      end
  end.

Fixpoint strip_while (fuel : nat) (pats : list (list ascii)) (l : list ascii) : list ascii :=
  match fuel with
  | O => l
  | S fuel' =>
      match strip_first pats l with
      | Some l' => strip_while fuel' pats l'
      | None => l
      end
  end.

Definition trim (s : string) : string :=
  let l := list_ascii_of_string s in
  let l1 := strip_while (length l) white_space l in
  let l2 := strip_while (length l1) (map (@rev ascii) white_space) (rev l1) in
  string_of_list_ascii (rev l2).

Definition newline : ascii := ascii_of_nat 10.

(** [s.split('\n')]: never empty; the last item is what follows the last
    line feed. *)
Fixpoint split_lines (s : string) : list string :=
  match s with
  | EmptyString => [EmptyString]
  | String c rest =>
      if Ascii.eqb c newline then EmptyString :: split_lines rest
      else
        match split_lines rest with
        | [] => [String c EmptyString]
        | first :: others => String c first :: others
        end
  end.

(** [line.startsWith(p)] *)
Definition startsWith (p line : string) : bool := String.prefix p line.

(** [line.substring(n)] for [n] within an ASCII prefix of [line]. *)
Fixpoint substring_from (n : nat) (s : string) : string :=
  match n, s with
  | O, _ => s
  | S n', String _ rest => substring_from n' rest
  | S _, EmptyString => EmptyString
  end.

(** ** Errors

    What a [throw] or a rejection carries: the runtime's own errors, and
    [new Error(v)] as [Error v]. *)

Inductive js_error : Type :=
  | SyntaxError
  | TypeError
  | Error (arg : json)
  | Failure (reason : string).

(** ** Chains and steps *)

Inductive run_status : Type :=
  | pending
  | running
  | completed
  | failed.

(** Modelled from the spec: the type declarations of [types/app.ts]
    ([WorkflowChainStep], [WorkflowChain], [ChainStepResult]) are not among
    the sources; the fields are those the code reads and writes and the
    data model lists.  The two optional maps are [None] when the property
    is [undefined]. *)
Record WorkflowChainStep : Type := {
  step_id : string;
  step_name : string;
  workflowId : string;
  apiKey : string;
  inputs : dict;
  userModifications : option dict;
  outputs : option dict;
  step_status : run_status;
  allowUserEdit : bool
}.

Record WorkflowChain : Type := {
  chain_id : string;
  chain_name : string;
  steps : list WorkflowChainStep;
  currentStepIndex : Z;
  chain_status : run_status
}.

Record ChainStepResult : Type := {
  stepId : string;
  result_outputs : dict;
  success : bool
}.

(** [Omit<WorkflowChainStep, 'id' | 'status'>], the argument of
    [createChain]. *)
Record StepDefinition : Type := {
  def_name : string;
  def_workflowId : string;
  def_apiKey : string;
  def_inputs : dict;
  def_userModifications : option dict;
  def_outputs : option dict;
  def_allowUserEdit : bool
}.

(** [private chains: Map<string, WorkflowChain>] *)
Abbreviation chains := (gmap string WorkflowChain).

(** Assignments to one property. *)
Definition set_step_status (v : run_status) (st : WorkflowChainStep) : WorkflowChainStep :=
  {| step_id := step_id st; step_name := step_name st; workflowId := workflowId st;
     apiKey := apiKey st; inputs := inputs st;
     userModifications := userModifications st; outputs := outputs st;
     step_status := v; allowUserEdit := allowUserEdit st |}.

Definition set_outputs (v : option dict) (st : WorkflowChainStep) : WorkflowChainStep :=
  {| step_id := step_id st; step_name := step_name st; workflowId := workflowId st;
     apiKey := apiKey st; inputs := inputs st;
     userModifications := userModifications st; outputs := v;
     step_status := step_status st; allowUserEdit := allowUserEdit st |}.

Definition set_userModifications (v : option dict) (st : WorkflowChainStep)
    : WorkflowChainStep :=
  {| step_id := step_id st; step_name := step_name st; workflowId := workflowId st;
     apiKey := apiKey st; inputs := inputs st;
     userModifications := v; outputs := outputs st;
     step_status := step_status st; allowUserEdit := allowUserEdit st |}.

Definition set_steps (v : list WorkflowChainStep) (c : WorkflowChain) : WorkflowChain :=
  {| chain_id := chain_id c; chain_name := chain_name c; steps := v;
     currentStepIndex := currentStepIndex c; chain_status := chain_status c |}.

Definition set_currentStepIndex (v : Z) (c : WorkflowChain) : WorkflowChain :=
  {| chain_id := chain_id c; chain_name := chain_name c; steps := steps c;
     currentStepIndex := v; chain_status := chain_status c |}.

Definition set_chain_status (v : run_status) (c : WorkflowChain) : WorkflowChain :=
  {| chain_id := chain_id c; chain_name := chain_name c; steps := steps c;
     currentStepIndex := currentStepIndex c; chain_status := v |}.

(** [chain.steps[i]]: [undefined] outside the array. *)
Definition step_at (c : WorkflowChain) (i : Z) : option WorkflowChainStep :=
  if i <? 0 then None else steps c !! Z.to_nat i.

(** A write through the reference [currentStep], which is the element
    [i] of [chain.steps]. *)
Definition update_step (i : nat) (f : WorkflowChainStep -> WorkflowChainStep)
    (c : WorkflowChain) : WorkflowChain :=
  set_steps (alter f i (steps c)) c.

(** *** createChain *)

Definition new_step (id : string) (index : nat) (step : StepDefinition)
    : WorkflowChainStep :=
  {| step_id := id +:+ "-step-" +:+ decimal index;
     step_name := def_name step;
     workflowId := def_workflowId step;
     apiKey := def_apiKey step;
     inputs := def_inputs step;
     userModifications := def_userModifications step;
     outputs := def_outputs step;
     step_status := pending;
     allowUserEdit := def_allowUserEdit step |}.

Definition createChain (m : chains) (id name : string) (defs : list StepDefinition)
    : chains * WorkflowChain :=
  let chain :=
    {| chain_id := id;
       chain_name := name;
       steps := imap (new_step id) defs;
       currentStepIndex := 0;
       chain_status := pending |} in
  (<[id := chain]> m, chain).

(** *** The queries *)

Definition getChain (m : chains) (id : string) : option WorkflowChain := m !! id.

Definition getCurrentStep (m : chains) (chainId : string) : option WorkflowChainStep :=
  match m !! chainId with
  | None => None
  | Some chain => step_at chain (currentStepIndex chain)
  end.

Definition isChainCompleted (m : chains) (chainId : string) : bool :=
  match m !! chainId with
  | Some chain => match chain_status chain with completed => true | _ => false end
  | None => false
  end.

Definition hasNextStep (m : chains) (chainId : string) : bool :=
  match m !! chainId with
  | None => false
  | Some chain => currentStepIndex chain <? Z.of_nat (length (steps chain))
  end.

(** The chains, in the order of the dictionary, which is not the order
    in which a [Map] keeps them (that of insertion).  The annotated
    revision alone has this method. *)
Definition getAllChains (m : chains) : list WorkflowChain := (map_to_list m).*2.

(** *** resetChain, deleteChain *)

(** The two revisions of the file: the one stored as
    [service/workflow-chain.ts], and the annotated one, which adds the
    named slots, the fallback of [second_input] and the collection of the
    node outputs. *)
Inductive revision : Type :=
  | Plain
  | Annotated.

Definition reset_step (st : WorkflowChainStep) : WorkflowChainStep :=
  set_userModifications None (set_outputs None (set_step_status pending st)).

Definition resetChain (m : chains) (chainId : string) : chains :=
  match m !! chainId with
  | Some chain =>
      let chain := set_currentStepIndex 0 chain in
      let chain := set_chain_status pending chain in
      <[chainId := set_steps (reset_step <$> steps chain) chain]> m
  | None => m
  end.

(** [this.chains.delete(chainId)].  The annotated revision returns what
    [Map.prototype.delete] returns, whether a chain was stored under the
    id; the other revision is declared [void] and returns nothing. *)
Definition deleteChain (rev : revision) (m : chains) (chainId : string)
    : chains * option bool :=
  (delete chainId m,
   match rev with
   | Plain => None
   | Annotated => Some (bool_decide (is_Some (m !! chainId)))
   end).

(** ** The response of [fetch]

    [body] is what [reader.read()] yields, chunk after chunk, and how the
    stream ends: [done], or a read that rejects. *)

Inductive stream_end : Type :=
  | Done
  | ReadFails (e : js_error).

Record response : Type := {
  ok : bool;
  status : nat;
  statusText : string;
  body : option (list (list byte) * stream_end)
}.

Inductive fetched : Type :=
  | Responds (r : response)
  | FetchFails (e : js_error).

(** ** Callbacks and effects

    A callback changes the state of its closure ([S]) and returns, or
    throws. *)

Inductive signal (S : Type) : Type :=
  | Returned (s : S)
  | Threw (e : js_error) (s : S).
Arguments Returned {S} s.
Arguments Threw {S} e s.

Record Callbacks (S : Type) : Type := {
  onWorkflowStarted : option json -> S -> signal S;
  onNodeStarted : json -> S -> signal S;
  onNodeFinished : json -> S -> signal S;
  onWorkflowFinished : json -> S -> signal S
}.
Arguments onWorkflowStarted {S} _ _ _.
Arguments onNodeStarted {S} _ _ _.
Arguments onNodeFinished {S} _ _ _.
Arguments onWorkflowFinished {S} _ _ _.

(** What the function does that can be seen from outside, in order: the
    callbacks it calls, with their argument, and the lines it warns
    about, with what was caught. *)
Inductive effect : Type :=
  | CallWorkflowStarted (workflow_run_id : option json)
  | CallNodeStarted (data : json)
  | CallNodeFinished (data : json)
  | CallWorkflowFinished (data : json)
  | Warn (line : string) (caught : js_error).

(** How the body of the [try] inside the [for] ends. *)
Inductive flow (S : Type) : Type :=
  | Break (s : S)
  | Return (s : S)
  | Throw (e : js_error) (s : S).
Arguments Break {S} s.
Arguments Return {S} s.
Arguments Throw {S} e s.

(** How the whole function ends: [return] at the terminal event, the
    loop left at [done], or an exception that leaves the function.  The
    first two resolve the promise. *)
Inductive exit : Type :=
  | AtFinished
  | AtDone
  | AtThrow (e : js_error).

(** ** What the platform supplies

    [JSON.parse], the streaming [TextDecoder] and the code units of a
    string are the runtime's, not the repository's.  The decoder is a
    machine that eats bytes one by one and keeps its state between the
    calls of [decode(value, { stream: true })]. *)

Class Platform := {
  JSON_parse : string -> option json;
  code_units : string -> list string;
  decoder_state : Type;
  decoder_start : decoder_state;
  decoder_byte : decoder_state -> byte -> decoder_state * string
}.

Section WithPlatform.
Context `{P : Platform}.

(** The own enumerable properties copied by [{ ...v }]. *)
Definition spread (v : json) : dict :=
  match v with
  | JObj fields => fields_dict fields
  | JArr items => fields_dict (index_fields_from 0 items)
  | JStr s => fields_dict (index_fields_from 0 (JStr <$> code_units s))
  | _ => ∅
  end.

(** [decoder.decode(value, { stream: true })]. *)
Fixpoint decode (st : decoder_state) (chunk : list byte) : decoder_state * string :=
  match chunk with
  | [] => (st, "")
  | b :: rest =>
      let '(st1, s1) := decoder_byte st b in
      let '(st2, s2) := decode st1 rest in
      (st2, s1 +:+ s2)
  end.

(** ** executeCustomWorkflow *)

Section Decoder.
Context {S : Type} (callbacks : Callbacks S).

(** The [switch (data.event)] with the calls it makes. *)
Definition dispatch (data : json) (s : S) : flow S * list effect :=
  match prop data "event" with
  | None => (Throw TypeError s, [])
  | Some (Some (JStr event)) =>
      if String.eqb event "workflow_started" then
        let arg := mjoin (prop data "workflow_run_id") in
        match onWorkflowStarted callbacks arg s with
        | Returned s' => (Break s', [CallWorkflowStarted arg])
        | Threw e s' => (Throw e s', [CallWorkflowStarted arg])
        end
      else if String.eqb event "node_started" then
        match onNodeStarted callbacks data s with
        | Returned s' => (Break s', [CallNodeStarted data])
        | Threw e s' => (Throw e s', [CallNodeStarted data])
        end
      else if String.eqb event "node_finished" then
        match onNodeFinished callbacks data s with
        | Returned s' => (Break s', [CallNodeFinished data])
        | Threw e s' => (Throw e s', [CallNodeFinished data])
        end
      else if String.eqb event "workflow_finished" then
        match onWorkflowFinished callbacks data s with
        | Returned s' => (Return s', [CallWorkflowFinished data])
        | Threw e s' => (Throw e s', [CallWorkflowFinished data])
        end
      else if String.eqb event "error" then
        let message := mjoin (prop data "message") in
        (Throw (Error (if truthy_opt message then default JNull message
                       else JStr "Workflow execution failed")) s, [])
      else (Break s, [])
  | Some _ => (Break s, [])
  end.

(** The [try] block of one line. *)
Definition try_line (line : string) (s : S) : flow S * list effect :=
  let jsonString := trim (substring_from 6 line) in
  if String.eqb jsonString "" then (Break s, [])
  else
    match JSON_parse jsonString with
    | None => (Throw SyntaxError s, [])
    | Some data => dispatch data s
    end.

(** One turn of [for (const line of lines)]: [true] when the function
    returns.  The [catch] warns and goes on with the next line, whatever
    was thrown inside the [try]. *)
Definition for_line (line : string) (s : S) : bool * S * list effect :=
  if String.eqb (trim line) "" || negb (startsWith "data: " line) then (false, s, [])
  else
    match try_line line s with
    | (Break s', log) => (false, s', log)
    | (Return s', log) => (true, s', log)
    | (Throw e s', log) => (false, s', (log ++ [Warn line e])%list)
    end.

Fixpoint for_lines (lines : list string) (s : S) : bool * S * list effect :=
  match lines with
  | [] => (false, s, [])
  | line :: rest =>
      match for_line line s with
      | (true, s', log) => (true, s', log)
      | (false, s', log) =>
          let '(returned, s'', log') := for_lines rest s' in
          (returned, s'', (log ++ log')%list)
      end
  end.

(** [while (true)]: one turn per chunk read. *)
Fixpoint read_loop (dec : decoder_state) (buffer : string)
    (chunks : list (list byte)) (ending : stream_end) (s : S)
    : exit * S * list effect :=
  match chunks with
  | [] =>
      match ending with
      | Done => (AtDone, s, [])
      | ReadFails e => (AtThrow e, s, [])
      end
  | value :: rest =>
      let '(dec', text) := decode dec value in
      let buffer := buffer +:+ text in
      let lines := split_lines buffer in
      let buffer := default "" (last lines) in
      let lines := removelast lines in
      match for_lines lines s with
      | (true, s', log) => (AtFinished, s', log)
      | (false, s', log) =>
          let '(how, s'', log') := read_loop dec' buffer rest ending s' in
          (how, s'', (log ++ log')%list)
      end
  end.

Definition executeCustomWorkflow (answer : fetched) (s : S) : exit * S * list effect :=
  match answer with
  | FetchFails e => (AtThrow e, s, [])
  | Responds r =>
      if negb (ok r) then
        (AtThrow (Error (JStr ("Workflow API error: " +:+ decimal (status r)
                                 +:+ " " +:+ statusText r))), s, [])
      else
        match body r with
        | None => (AtThrow (Error (JStr "No response body received from workflow API")), s, [])
        | Some (chunks, ending) => read_loop decoder_start "" chunks ending s
        end
  end.

End Decoder.

(** ** executeNextStep *)

(** [inputs.hasOwnProperty(name)], the method of [Object.prototype]. *)
Definition hasOwnProperty (d : dict) (name : string) : bool :=
  bool_decide (is_Some (d !! name)).

(** The method is looked up on the object first: an input that is itself
    named [hasOwnProperty] hides it, and the call throws a TypeError, no
    JSON value being a function. *)
Definition hides_hasOwnProperty (d : dict) : bool :=
  bool_decide (is_Some (d !! "hasOwnProperty")).

(** [v.substring(0, 100)] inside a [console.log]: a TypeError unless [v]
    is a string. *)
Definition log_substring (v : json) : option unit :=
  match v with
  | JStr _ => Some tt
  | _ => None
  end.

(** [{ ...stepInputs, ...(currentStep.userModifications || {}) }] *)
Definition with_modifications (stepInputs : dict) (um : option dict) : dict :=
  spread2 stepInputs (default ∅ um).

(** The branch of the annotated revision for a step that declares
    [competitor_input] or [current_de_op_input]. *)
Definition named_slots (defaults previous : dict) (um : option dict)
    : js_error + dict :=
  let agent := previous !! "agent_output" in
  let de_op := previous !! "current_de_op_output" in
  let copy1 := hasOwnProperty defaults "competitor_input" && truthy_opt agent in
  let copy2 := hasOwnProperty defaults "current_de_op_input" && truthy_opt de_op in
  let stepInputs := defaults in
  let stepInputs :=
    if copy1 then <["competitor_input" := default JNull agent]> stepInputs
    else stepInputs in
  let logged1 := if copy1 then log_substring (default JNull agent) else Some tt in
  let stepInputs :=
    if copy2 then <["current_de_op_input" := default JNull de_op]> stepInputs
    else stepInputs in
  let logged2 := if copy2 then log_substring (default JNull de_op) else Some tt in
  match logged1, logged2 with
  | Some _, Some _ =>
      inr (match um with
           | Some u => spread2 stepInputs u
           | None => stepInputs
           end)
  | _, _ => inl TypeError
  end.

(** The branch of the annotated revision for a step that declares
    [second_input] and none of the named slots. *)
Definition generic_slot (defaults previous : dict) (um : option dict)
    : js_error + dict :=
  let agent := previous !! "agent_output" in
  let de_op := previous !! "current_de_op_output" in
  if truthy_opt agent then
    inr (with_modifications (<["second_input" := default JNull agent]> defaults) um)
  else if truthy_opt de_op then
    match log_substring (default JNull de_op) with
    | Some _ =>
        inr (with_modifications (<["second_input" := default JNull de_op]> defaults) um)
    | None => inl TypeError
    end
  else inr (with_modifications defaults um).

(** The mapping of the previous outputs, when there are some.  Either
    revision begins by calling [currentStep.inputs.hasOwnProperty]. *)
Definition chained_inputs (rev : revision) (defaults previous : dict)
    (um : option dict) : js_error + dict :=
  if hides_hasOwnProperty defaults then inl TypeError else
  match rev with
  | Plain =>
      if hasOwnProperty defaults "second_input"
         && truthy_opt (previous !! "agent_output")
      then inr (with_modifications
                  (<["second_input" := default JNull (previous !! "agent_output")]>
                     defaults) um)
      else inr (with_modifications (spread2 defaults previous) um)
  | Annotated =>
      if hasOwnProperty defaults "competitor_input"
         || hasOwnProperty defaults "current_de_op_input"
      then named_slots defaults previous um
      else if hasOwnProperty defaults "second_input"
      then generic_slot defaults previous um
      else inr (with_modifications (spread2 defaults previous) um)
  end.

(** The value of [stepInputs] when the workflow is called. *)
Definition stepInputs (rev : revision) (chain : WorkflowChain)
    (currentStep : WorkflowChainStep) : js_error + dict :=
  if 0 <? currentStepIndex chain then
    match step_at chain (currentStepIndex chain - 1) with
    | None => inl TypeError
    | Some previousStep =>
        match outputs previousStep with
        | Some previous =>
            chained_inputs rev (inputs currentStep) previous
              (userModifications currentStep)
        | None => inr (inputs currentStep)
        end
    end
  else
    match userModifications currentStep with
    | Some u => inr (spread2 (inputs currentStep) u)
    | None => inr (inputs currentStep)
    end.

(** The promise that [executeNextStep] returns. *)
Inductive promise : Type :=
  | Unsettled
  | Resolved (r : ChainStepResult)
  | Rejected (e : js_error).

(** [resolve(r)] and [reject(e)] settle a promise once. *)
Definition resolve (r : ChainStepResult) (p : promise) : promise :=
  match p with
  | Unsettled => Resolved r
  | _ => p
  end.

Definition reject (e : js_error) (p : promise) : promise :=
  match p with
  | Unsettled => Rejected e
  | _ => p
  end.

(** What the callbacks close over: the chain (with [currentStep] inside
    it, at the index it had when the call began), [nodeOutputs], and the
    promise. *)
Record closure : Type := {
  chain : WorkflowChain;
  nodeOutputs : dict;
  settled : promise
}.

Definition fail_step (i : nat) (c : WorkflowChain) : WorkflowChain :=
  set_chain_status failed (update_step i (set_step_status failed) c).

Section Callbacks.
Context (rev : revision) (i : nat) (currentStepId : string).

Definition on_started (A : Type) (arg : A) (s : closure) : signal closure :=
  Returned s.

Definition on_node_finished (eventData : json) (s : closure) : signal closure :=
  match rev with
  | Plain => Returned s
  | Annotated =>
      let fragment := guarded_prop (mjoin (prop eventData "data")) "outputs" in
      if truthy_opt fragment then
        Returned {| chain := chain s;
                    nodeOutputs := spread2 (nodeOutputs s) (spread (default JNull fragment));
                    settled := settled s |}
      else Returned s
  end.

(** The success path of [onWorkflowFinished], from "store the outputs"
    on. *)
Definition complete_step (outs : dict) (s : closure) : closure :=
  let c := update_step i (set_step_status completed)
             (update_step i (set_outputs (Some outs)) (chain s)) in
  let c := set_currentStepIndex (currentStepIndex c + 1) c in
  let c :=
    if Z.of_nat (length (steps c)) <=? currentStepIndex c
    then set_chain_status completed c
    else set_chain_status pending c in
  {| chain := c;
     nodeOutputs := nodeOutputs s;
     settled := resolve {| stepId := currentStepId; result_outputs := outs;
                           success := true |} (settled s) |}.

Definition fail_with (e : js_error) (s : closure) : closure :=
  {| chain := fail_step i (chain s);
     nodeOutputs := nodeOutputs s;
     settled := reject e (settled s) |}.

(** In the plain revision [eventData.data.error] is read unguarded, and
    the outputs are those of the event alone; they are kept as the
    dictionary of their own properties, which is all that later reads
    look at. *)
Definition on_workflow_finished (eventData : json) (s : closure) : signal closure :=
  let data := mjoin (prop eventData "data") in
  match rev with
  | Plain =>
      match data ≫= (fun d => prop d "error") with
      | None => Threw TypeError s
      | Some error =>
          if truthy_opt error then
            Returned (fail_with (Error (default JNull error)) s)
          else
            let outs := mjoin (data ≫= (fun d => prop d "outputs")) in
            Returned (complete_step
                        (if truthy_opt outs then spread (default JNull outs) else ∅) s)
      end
  | Annotated =>
      let error := guarded_prop data "error" in
      if truthy_opt error then
        Returned (fail_with (Error (default JNull error)) s)
      else
        let outs := guarded_prop data "outputs" in
        let workflowOutputs := if truthy_opt outs then spread (default JNull outs) else ∅ in
        Returned (complete_step (spread2 (nodeOutputs s) workflowOutputs) s)
  end.

Definition step_callbacks : Callbacks closure :=
  {| onWorkflowStarted := on_started (option json);
     onNodeStarted := on_started json;
     onNodeFinished := on_node_finished;
     onWorkflowFinished := on_workflow_finished |}.

End Callbacks.

(** What one call leaves behind: the chains, the promise, the inputs the
    workflow was called with (if the call got that far), how the awaited
    [executeCustomWorkflow] ended, and the effects of the decoding. *)
Record execution : Type := {
  registry : chains;
  returned : promise;
  called_with : option dict;
  awaited : option exit;
  effects : list effect
}.

(** The remote service as [fetch] sees it: the answer to a request with
    this bearer key and these inputs.  ([workflowId] is not sent.) *)
Definition network : Type := string -> dict -> fetched.

Definition executeNextStep (rev : revision) (fetch : network) (m : chains)
    (chainId : string) (modifications : option dict) : execution :=
  match m !! chainId with
  | None =>
      {| registry := m;
         returned := Rejected (Error (JStr ("Chain " +:+ chainId +:+ " not found")));
         called_with := None; awaited := None; effects := [] |}
  | Some chain0 =>
      match step_at chain0 (currentStepIndex chain0) with
      | None =>
          {| registry := m;
             returned := Rejected (Error (JStr ("No more steps in chain " +:+ chainId)));
             called_with := None; awaited := None; effects := [] |}
      | Some step0 =>
          let i := Z.to_nat (currentStepIndex chain0) in
          let currentStep :=
            match modifications with
            | Some u => set_userModifications (Some u) step0
            | None => step0
            end in
          let chain1 := update_step i (fun _ => currentStep) chain0 in
          match stepInputs rev chain1 currentStep with
          | inl e =>
              {| registry := <[chainId := chain1]> m;
                 returned := Rejected e;
                 called_with := None; awaited := None; effects := [] |}
          | inr stepInputs =>
              let s0 :=
                {| chain := set_chain_status running
                              (update_step i (set_step_status running) chain1);
                   nodeOutputs := ∅;
                   settled := Unsettled |} in
              let '(how, s1, log) :=
                executeCustomWorkflow (step_callbacks rev i (step_id currentStep))
                  (fetch (apiKey currentStep) stepInputs) s0 in
              let s2 :=
                match how with
                | AtThrow e => fail_with i e s1
                | _ => s1
                end in
              {| registry := <[chainId := chain s2]> m;
                 returned := settled s2;
                 called_with := Some stepInputs;
                 awaited := Some how;
                 effects := log |}
          end
      end
  end.

End WithPlatform.

(** ** A platform to run examples on

    A reader of JSON text, a printer to write the examples with, and the
    decoder of ASCII text.  The reader follows the JSON grammar, except
    that it refuses the escape [\u]; on text free of it, it is
    [JSON.parse].  The theorems below do not depend on this platform;
    the examples run on it. *)

Module Text.

Definition quote : ascii := ascii_of_nat 34.
Definition backslash : ascii := ascii_of_nat 92.

Definition is_digit (c : ascii) : bool :=
  ((48 <=? nat_of_ascii c) && (nat_of_ascii c <=? 57))%nat.

Definition is_space (c : ascii) : bool :=
  let n := nat_of_ascii c in
  ((n =? 32) || (n =? 9) || (n =? 10) || (n =? 13))%nat.

Fixpoint skip_space (s : string) : string :=
  match s with
  | String c rest => if is_space c then skip_space rest else s
  | EmptyString => s
  end.

Fixpoint read_digits (s : string) : list Z * string :=
  match s with
  | String c rest =>
      if is_digit c then
        let '(ds, r) := read_digits rest in
        (Z.of_nat (nat_of_ascii c - 48) :: ds, r)
      else ([], s)
  | EmptyString => ([], s)
  end.

Definition digits_value (ds : list Z) : Z :=
  fold_left (fun acc d => 10 * acc + d) ds 0.

Definition read_exponent (s : string) : option (Z * string) :=
  match s with
  | String c rest =>
      if Ascii.eqb c "e" || Ascii.eqb c "E" then
        let '(sign, rest1) :=
          match rest with
          | String d rest' =>
              if Ascii.eqb d "-" then (-1, rest')
              else if Ascii.eqb d "+" then (1, rest')
              else (1, rest)
          | EmptyString => (1, rest)
          end in
        match read_digits rest1 with
        | ([], _) => None
        | (ds, r) => Some (sign * digits_value ds, r)
        end
      else Some (0, s)
  | EmptyString => Some (0, s)
  end.

Definition read_fraction (s : string) : option (list Z * string) :=
  match s with
  | String c rest =>
      if Ascii.eqb c "." then
        match read_digits rest with
        | ([], _) => None
        | (ds, r) => Some (ds, r)
        end
      else Some ([], s)
  | EmptyString => Some ([], s)
  end.

Definition read_number (s : string) : option (json * string) :=
  let '(sign, s1) :=
    match s with
    | String c rest => if Ascii.eqb c "-" then (-1, rest) else (1, s)
    | EmptyString => (1, s)
    end in
  match read_digits s1 with
  | ([], _) => None
  | (d :: ds, s2) =>
      if (d =? 0) && negb (length ds =? 0)%nat then None
      else
        '(fs, s3) ← read_fraction s2;
        '(e, s4) ← read_exponent s3;
        Some (JNum (sign * digits_value ((d :: ds) ++ fs)%list)
                   (e - Z.of_nat (length fs)), s4)
  end.

Definition unescape (c : ascii) : option ascii :=
  if Ascii.eqb c quote then Some quote
  else if Ascii.eqb c backslash then Some backslash
  else if Ascii.eqb c "/" then Some "/"%char
  else if Ascii.eqb c "b" then Some (ascii_of_nat 8)
  else if Ascii.eqb c "f" then Some (ascii_of_nat 12)
  else if Ascii.eqb c "n" then Some (ascii_of_nat 10)
  else if Ascii.eqb c "r" then Some (ascii_of_nat 13)
  else if Ascii.eqb c "t" then Some (ascii_of_nat 9)
  else None.

(** After the opening quote: the content, and what follows the closing
    quote. *)
Fixpoint read_string (s : string) : option (string * string) :=
  match s with
  | EmptyString => None
  | String c rest =>
      if Ascii.eqb c quote then Some (EmptyString, rest)
      else if Ascii.eqb c backslash then
        match rest with
        | String e rest' =>
            ch ← unescape e;
            '(content, r) ← read_string rest';
            Some (String ch content, r)
        | EmptyString => None
        end
      else if (nat_of_ascii c <? 32)%nat then None
      else
        '(content, r) ← read_string rest;
        Some (String c content, r)
  end.

Definition read_literal (word : string) (v : json) (s : string) : option (json * string) :=
  if String.prefix word s then Some (v, substring_from (String.length word) s) else None.

Fixpoint read_value (fuel : nat) (s : string) {struct fuel} : option (json * string) :=
  match fuel with
  | O => None
  | Datatypes.S fuel' =>
      match skip_space s with
      | EmptyString => None
      | String c rest as s1 =>
          if Ascii.eqb c "{" then
            match skip_space rest with
            | String d rest' as s2 =>
                if Ascii.eqb d "}" then Some (JObj [], rest')
                else '(fields, r) ← read_members fuel' s2; Some (JObj fields, r)
            | EmptyString => None
            end
          else if Ascii.eqb c "[" then
            match skip_space rest with
            | String d rest' as s2 =>
                if Ascii.eqb d "]" then Some (JArr [], rest')
                else '(items, r) ← read_elements fuel' s2; Some (JArr items, r)
            | EmptyString => None
            end
          else if Ascii.eqb c quote then
            '(content, r) ← read_string rest; Some (JStr content, r)
          else if Ascii.eqb c "t" then read_literal "true" (JBool true) s1
          else if Ascii.eqb c "f" then read_literal "false" (JBool false) s1
          else if Ascii.eqb c "n" then read_literal "null" JNull s1
          else read_number s1
      end
  end
with read_elements (fuel : nat) (s : string) {struct fuel} : option (list json * string) :=
  match fuel with
  | O => None
  | Datatypes.S fuel' =>
      '(v, r) ← read_value fuel' s;
      match skip_space r with
      | String c rest =>
          if Ascii.eqb c "," then
            '(vs, r') ← read_elements fuel' rest; Some (v :: vs, r')
          else if Ascii.eqb c "]" then Some ([v], rest)
          else None
      | EmptyString => None
      end
  end
with read_members (fuel : nat) (s : string) {struct fuel}
    : option (list (string * json) * string) :=
  match fuel with
  | O => None
  | Datatypes.S fuel' =>
      match skip_space s with
      | String q rest =>
          if Ascii.eqb q quote then
            '(key, r) ← read_string rest;
            match skip_space r with
            | String c rest1 =>
                if Ascii.eqb c ":" then
                  '(v, r1) ← read_value fuel' rest1;
                  match skip_space r1 with
                  | String d rest2 =>
                      if Ascii.eqb d "," then
                        '(kvs, r2) ← read_members fuel' rest2; Some ((key, v) :: kvs, r2)
                      else if Ascii.eqb d "}" then Some ([(key, v)], rest2)
                      else None
                  | EmptyString => None
                  end
                else None
            | EmptyString => None
            end
          else None
      | EmptyString => None
      end
  end.

Definition parse (s : string) : option json :=
  '(v, r) ← read_value (2 * String.length s + 2) s;
  match skip_space r with
  | EmptyString => Some v
  | _ => None
  end.

(** The printer. *)

Definition print_Z (z : Z) : string := NilZero.string_of_int (Z.to_int z).

Fixpoint escape (s : string) : string :=
  match s with
  | EmptyString => EmptyString
  | String c rest =>
      if Ascii.eqb c quote then String backslash (String quote (escape rest))
      else if Ascii.eqb c backslash then String backslash (String backslash (escape rest))
      else if Ascii.eqb c newline then String backslash (String "n" (escape rest))
      else String c (escape rest)
  end.

Definition quoted (s : string) : string :=
  String quote (escape s +:+ String quote EmptyString).

Fixpoint print (v : json) : string :=
  match v with
  | JNull => "null"
  | JBool true => "true"
  | JBool false => "false"
  | JNum m e => if e =? 0 then print_Z m else print_Z m +:+ "e" +:+ print_Z e
  | JStr s => quoted s
  | JArr items =>
      "[" +:+ String.concat "," ((fix each (l : list json) : list string :=
                                    match l with
                                    | [] => []
                                    | x :: l' => print x :: each l'
                                    end) items) +:+ "]"
  | JObj fields =>
      "{" +:+ String.concat "," ((fix each (l : list (string * json)) : list string :=
                                    match l with
                                    | [] => []
                                    | (k, x) :: l' => (quoted k +:+ ":" +:+ print x) :: each l'
                                    end) fields) +:+ "}"
  end.

(** One record of the stream: [data: <json>] and a line feed. *)
Definition record (v : json) : string :=
  "data: " +:+ print v +:+ String newline EmptyString.

Definition bytes (s : string) : list byte := list_byte_of_string s.

(** The decoder hands each byte on as it comes, which is what the UTF-8
    decoder does with ASCII bytes; the code units of an ASCII string are
    its bytes. *)
#[export] Instance platform : Platform := {|
  JSON_parse := parse;
  code_units := fun s => (fun c => String c EmptyString) <$> list_ascii_of_string s;
  decoder_state := unit;
  decoder_start := tt;
  decoder_byte := fun _ b => (tt, String (ascii_of_byte b) EmptyString)
|}.

End Text.

(** ** Scenarios

    Chains, events and answers of the network to run the code on. *)

Module Scenario.
Import Text.

Definition research : StepDefinition :=
  {| def_name := "Company Research"; def_workflowId := "workflow-1";
     def_apiKey := "app-key-1";
     def_inputs := {[ "company_name" := JStr "Tesla" ]};
     def_userModifications := None; def_outputs := None;
     def_allowUserEdit := true |}.

(** A second step that declares the generic slot. *)
Definition generic_analysis : StepDefinition :=
  {| def_name := "Second Analysis"; def_workflowId := "workflow-2";
     def_apiKey := "app-key-2";
     def_inputs := {[ "second_input" := JStr "placeholder" ]};
     def_userModifications := None; def_outputs := None;
     def_allowUserEdit := true |}.

(** A second step that declares the two named slots. *)
Definition named_analysis : StepDefinition :=
  {| def_name := "Detailed Analysis"; def_workflowId := "workflow-2";
     def_apiKey := "app-key-2";
     def_inputs :=
       {[ "competitor_input" := JStr "Will be populated from agent_output";
          "current_de_op_input" := JStr "Will be populated from current_de_op_output" ]};
     def_userModifications := None; def_outputs := None;
     def_allowUserEdit := true |}.

Definition event (name : string) (rest : list (string * json)) : json :=
  JObj (("event", JStr name) :: rest).

Definition node_finished (outs : list (string * json)) : json :=
  event "node_finished" [("data", JObj [("outputs", JObj outs)])].

Definition workflow_finished (outs : list (string * json)) : json :=
  event "workflow_finished" [("data", JObj [("outputs", JObj outs)])].

Definition workflow_failed (message : string) : json :=
  event "workflow_finished" [("data", JObj [("error", JStr message)])].

Definition error_event (message : string) : json :=
  event "error" [("message", JStr message)].

(** A 200 response whose body delivers the texts as chunks and ends. *)
Definition response_of (texts : list string) : response :=
  {| ok := true; status := 200; statusText := "OK";
     body := Some (bytes <$> texts, Done) |}.

Definition streams (texts : list string) : fetched := Responds (response_of texts).

Definition answers (texts : list string) : network := fun _ _ => streams texts.

(** Callbacks that do nothing, with no state. *)
Definition silent : Callbacks unit :=
  {| onWorkflowStarted := fun _ s => Returned s;
     onNodeStarted := fun _ s => Returned s;
     onNodeFinished := fun _ s => Returned s;
     onWorkflowFinished := fun _ s => Returned s |}.

(** The registry after the first step of a two-step chain has
    succeeded with the given outputs. *)
Definition after_first_step (second : StepDefinition) (outs : list (string * json))
    : chains :=
  registry
    (executeNextStep Annotated (answers [record (workflow_finished outs)])
       (createChain ∅ "chain" "Chain" [research; second]).1 "chain" None).

(** The chain of that registry and its second step. *)
Definition chain_after (second : StepDefinition) (outs : list (string * json))
    : WorkflowChain :=
  default ((createChain ∅ "chain" "Chain" []).2)
    (after_first_step second outs !! "chain").

Definition second_step (second : StepDefinition) (outs : list (string * json))
    : WorkflowChainStep :=
  default (new_step "chain" 1 second)
    (step_at (chain_after second outs) 1).

Definition first_step (second : StepDefinition) (outs : list (string * json))
    : WorkflowChainStep :=
  default (new_step "chain" 0 research)
    (step_at (chain_after second outs) 0).

(** Outputs of a first step. *)
Definition only_agent (text : string) : list (string * json) :=
  [("agent_output", JStr text)].

Definition empty_agent_with_operations : list (string * json) :=
  [("agent_output", JStr ""); ("current_de_op_output", JStr "ops")].

(** A one-step chain, stored; its chain and its step. *)
Definition one_step : chains := (createChain ∅ "chain" "Chain" [research]).1.

Definition one_step_chain : WorkflowChain :=
  (createChain ∅ "chain" "Chain" [research]).2.

Definition its_step : WorkflowChainStep := new_step "chain" 0 research.

Definition research_inputs : dict := {[ "company_name" := JStr "Tesla" ]}.

(** A run whose node puts out one field and whose end puts out another. *)
Definition merging : network :=
  answers [record (node_finished (only_agent "X"));
           record (workflow_finished [("current_de_op_output", JStr "Y")])].

Definition merged_result : ChainStepResult :=
  {| stepId := "chain-step-0";
     result_outputs := {[ "agent_output" := JStr "X";
                          "current_de_op_output" := JStr "Y" ]};
     success := true |}.

(** A run that ends with an error in its [workflow_finished] event. *)
Definition failing : network := answers [record (workflow_failed "boom")].

(** A run whose stream ends before any [workflow_finished] event. *)
Definition unfinished_response : response :=
  response_of [record (node_finished (only_agent "X"))].

Definition unfinished : network := fun _ _ => Responds unfinished_response.

(** The second step of a chain, run with a modification of the slot that
    the chaining fills. *)
Definition chained : chains := after_first_step generic_analysis (only_agent "X").

Definition modification : dict := {[ "second_input" := JStr "z" ]}.

Definition succeeding : network := answers [record (workflow_finished [])].

End Scenario.

(** ** Notions for the statements *)

(** The complete lines of a text and the incomplete line that follows
    them, computed in one pass. *)
Fixpoint cut (s : string) : list string * string :=
  match s with
  | EmptyString => ([], EmptyString)
  | String c rest =>
      let '(ls, tl) := cut rest in
      if Ascii.eqb c newline then (EmptyString :: ls, tl)
      else
        match ls with
        | [] => ([], String c tl)
        | first :: others => (String c first :: others, tl)
        end
  end.

Section Notions.
Context `{P : Platform}.

(** The text that the decoder makes of the chunks, fed in order. *)
Fixpoint decode_chunks (dec : decoder_state) (chunks : list (list byte)) : string :=
  match chunks with
  | [] => EmptyString
  | value :: rest =>
      let '(dec', text) := decode dec value in
      text +:+ decode_chunks dec' rest
  end.

(** How the function ends when no line made it return. *)
Definition exit_of (ending : stream_end) : exit :=
  match ending with
  | Done => AtDone
  | ReadFails e => AtThrow e
  end.

(** The function on a text that arrives whole. *)
Definition decode_text {S : Type} (callbacks : Callbacks S) (text : string)
    (ending : stream_end) (s : S) : exit * S * list effect :=
  match for_lines callbacks (cut text).1 s with
  | (true, s', log) => (AtFinished, s', log)
  | (false, s', log) => (exit_of ending, s', log)
  end.

(** A response with another body. *)
Definition with_body (r : response) (chunks : list (list byte)) (ending : stream_end)
    : response :=
  {| ok := ok r; status := status r; statusText := statusText r;
     body := Some (chunks, ending) |}.

(** The [data.outputs] that an event carries, as a dictionary: empty when
    [data] or [data.outputs] is missing or falsy. *)
Definition carried_outputs (eventData : json) : dict :=
  let v := guarded_prop (mjoin (prop eventData "data")) "outputs" in
  if truthy_opt v then spread (default JNull v) else ∅.

(** The [data.error] that an event carries. *)
Definition carried_error (eventData : json) : option json :=
  guarded_prop (mjoin (prop eventData "data")) "error".

(** The fragments of the [node_finished] events of a log, merged in
    order, later ones over earlier ones. *)
Definition merge_fragment (acc : dict) (e : effect) : dict :=
  match e with
  | CallNodeFinished d => spread2 acc (carried_outputs d)
  | _ => acc
  end.

Definition merged_node_outputs (log : list effect) : dict :=
  fold_left merge_fragment log ∅.

(** The closure of the callbacks while no [workflow_finished] has been
    handled: the chain as it was when the call was made, and the node
    outputs collected so far. *)
Definition waiting (c : WorkflowChain) (n : dict) : closure :=
  {| chain := c; nodeOutputs := n; settled := Unsettled |}.

(** What [nodeOutputs] holds after a log, in either revision. *)
Definition collected (rev : revision) (acc : dict) (log : list effect) : dict :=
  match rev with
  | Plain => acc
  | Annotated => fold_left merge_fragment log acc
  end.

(** The outputs that a successful step stores and returns. *)
Definition final_outputs (rev : revision) (nodes : dict) (eventData : json) : dict :=
  match rev with
  | Plain => carried_outputs eventData
  | Annotated => spread2 nodes (carried_outputs eventData)
  end.

(** The step as [executeNextStep] holds it after recording the
    modifications, the chain with it, and that chain once marked as
    running. *)
Definition current_step (modifications : option dict) (step0 : WorkflowChainStep)
    : WorkflowChainStep :=
  match modifications with
  | Some u => set_userModifications (Some u) step0
  | None => step0
  end.

Definition prepared (modifications : option dict) (c0 : WorkflowChain)
    (step0 : WorkflowChainStep) : WorkflowChain :=
  update_step (Z.to_nat (currentStepIndex c0))
    (fun _ => current_step modifications step0) c0.

Definition started (modifications : option dict) (c0 : WorkflowChain)
    (step0 : WorkflowChainStep) : WorkflowChain :=
  set_chain_status running
    (update_step (Z.to_nat (currentStepIndex c0)) (set_step_status running)
       (prepared modifications c0 step0)).

(** The four ways a call that reached the workflow can end: how the
    awaited function ended, the log, and the closure left. *)
Inductive outcome (rev : revision) (i : nat) (sid : string) (c : WorkflowChain)
    : exit -> list effect -> closure -> Prop :=
  | outcome_thrown e log :
      outcome rev i sid c (AtThrow e) log
        (fail_with i e (waiting c (collected rev ∅ log)))
  | outcome_exhausted log :
      outcome rev i sid c AtDone log (waiting c (collected rev ∅ log))
  | outcome_error pre d err :
      carried_error d = Some err ->
      truthy err = true ->
      outcome rev i sid c AtFinished (pre ++ [CallWorkflowFinished d])
        (fail_with i (Error err) (waiting c (collected rev ∅ pre)))
  | outcome_success pre d :
      truthy_opt (carried_error d) = false ->
      outcome rev i sid c AtFinished (pre ++ [CallWorkflowFinished d])
        (complete_step i sid (final_outputs rev (collected rev ∅ pre) d)
           (waiting c (collected rev ∅ pre))).

(** The user modifications leave a key alone. *)
Definition untouched (um : option dict) (k : string) : Prop :=
  forall u, um = Some u -> u !! k = None.

(** A value that the debugging output can take a substring of, if it is
    looked at: falsy, or a string. *)
Definition loggable (v : option json) : Prop :=
  truthy_opt v = false \/ exists s, v = Some (JStr s).

(** The states of the registry that sequences of calls produce, one
    call at a time, whatever the network answers. *)
Inductive reachable (rev : revision) : chains -> Prop :=
  | reachable_new : reachable rev ∅
  | reachable_createChain m id name defs :
      reachable rev m -> reachable rev (createChain m id name defs).1
  | reachable_executeNextStep m fetch chainId modifications :
      reachable rev m ->
      reachable rev (registry (executeNextStep rev fetch m chainId modifications))
  | reachable_resetChain m chainId :
      reachable rev m -> reachable rev (resetChain m chainId)
  | reachable_deleteChain m chainId :
      reachable rev m -> reachable rev (deleteChain rev m chainId).1.

(** What holds of every chain of a reachable registry: the cursor is
    within bounds; a completed chain has its cursor at the end; a chain
    with steps whose cursor is at the end is completed; the steps before
    the cursor have outputs. *)
Record chain_ok (c : WorkflowChain) : Prop := {
  cursor_bounds : 0 <= currentStepIndex c <= Z.of_nat (length (steps c));
  completed_at_end :
    chain_status c = completed -> currentStepIndex c = Z.of_nat (length (steps c));
  at_end_completed :
    currentStepIndex c = Z.of_nat (length (steps c)) -> steps c <> [] ->
    chain_status c = completed;
  outputs_before_cursor :
    forall j st, (Z.of_nat j < currentStepIndex c) -> steps c !! j = Some st ->
      is_Some (outputs st)
}.

End Notions.

(** ** Further notions: lines, designs, histories *)

(** A text without a line feed: a line, or the incomplete end of a
    buffer. *)
Fixpoint no_line_feed (s : string) : bool :=
  match s with
  | EmptyString => true
  | String c rest => negb (Ascii.eqb c newline) && no_line_feed rest
  end.

(** The names that the [switch] has a case for. *)
Definition known_events : list string :=
  ["workflow_started"; "node_started"; "node_finished"; "workflow_finished"; "error"].

(** What [createChain] gives a step and nothing assigns afterwards. *)
Definition design (st : WorkflowChainStep)
    : string * string * string * string * dict * bool :=
  (step_id st, step_name st, workflowId st, apiKey st, inputs st, allowUserEdit st).

(** A definition as the callers of the repository write it: without
    outputs and without user modifications. *)
Definition blank (d : StepDefinition) : bool :=
  bool_decide (def_outputs d = None) && bool_decide (def_userModifications d = None).

Section FurtherNotions.
Context `{P : Platform}.

(** The lines that the loop passes over before it parses anything:
    blank, not starting with [data: ], or with nothing after the prefix. *)
Definition passed_over (line : string) : bool :=
  String.eqb (trim line) "" || negb (startsWith "data: " line)
  || String.eqb (trim (substring_from 6 line)) "".

(** A line whose payload parses to a value that the [switch] has no case
    for: its [event] is missing, is not a string, or is another name. *)
Definition unknown_event (line : string) : Prop :=
  exists data ev,
    JSON_parse (trim (substring_from 6 line)) = Some data
    /\ prop data "event" = Some ev
    /\ forall name, ev = Some (JStr name) -> name ∉ known_events.

(** A line whose payload is not JSON. *)
Definition malformed (line : string) : Prop :=
  passed_over line = false /\ JSON_parse (trim (substring_from 6 line)) = None.

(** The registries that follow a registry while the chain [id] is
    neither created again nor deleted: calls of [executeNextStep] and
    [resetChain] on any chain, and [createChain] and [deleteChain] on
    other chains. *)
Inductive later (rev : revision) (id : string) (m : chains) : chains -> Prop :=
  | later_now : later rev id m m
  | later_executeNextStep m' fetch chainId modifications :
      later rev id m m' ->
      later rev id m (registry (executeNextStep rev fetch m' chainId modifications))
  | later_resetChain m' chainId :
      later rev id m m' -> later rev id m (resetChain m' chainId)
  | later_createChain m' id' name defs :
      later rev id m m' -> id' <> id ->
      later rev id m (createChain m' id' name defs).1
  | later_deleteChain m' id' :
      later rev id m m' -> id' <> id ->
      later rev id m (deleteChain rev m' id').1.

End FurtherNotions.

(** What a chain is made of, as opposed to how far it has run. *)
Definition blueprint (c : WorkflowChain)
    : string * string * list (string * string * string * string * dict * bool) :=
  (chain_id c, chain_name c, design <$> steps c).

(** The chain as [resetChain] leaves it. *)
Definition restarted (c : WorkflowChain) : WorkflowChain :=
  set_steps (reset_step <$> steps c)
    (set_chain_status pending (set_currentStepIndex 0 c)).

(** ** The test route

    [app/api/workflow-chain-test/route.ts]: the handler [POST], which
    creates the example chains and runs their steps on the manager. *)

(** The object given to [Response.json], by its shape: [{ success: true,
    chainId, chain }]; [{ success: true, result, chain, isCompleted }];
    [{ success: false, error }], where [error] is the message of what was
    caught; [{ success: true, message, availableActions }], which is
    constant; [{ error }] with one of the two texts of the code; and
    [{ error }] with the message of what was caught. *)
Inductive payload : Type :=
  | ChainCreated (chainId : string) (chain : WorkflowChain)
  | StepExecuted (result : ChainStepResult) (chain : option WorkflowChain)
      (isCompleted : bool)
  | ExecutionFailed (caught : js_error)
  | Diagnosis
  | Problem (error : string)
  | Crashed (caught : js_error).

Record answer : Type := {
  code : nat;
  content : payload
}.

(** The constants of [@/config], which is not among the sources: six
    strings. *)
Class Config := {
  APP_ID : string;
  API_KEY : string;
  SECOND_WORKFLOW_ID : string;
  SECOND_WORKFLOW_KEY : string;
  THIRD_WORKFLOW_ID : string;
  THIRD_WORKFLOW_KEY : string
}.

(** [String(v)] of the runtime, which the template literal of
    [Chain ${chainId} not found] applies to an id that is not a string. *)
Class Conversions := {
  ToString : json -> string
}.

Section Route.
Context `{P : Platform} `{C : Config} `{V : Conversions}.

(** [action === name] *)
Definition is_action (action : option json) (name : string) : bool :=
  match action with
  | Some (JStr s) => String.eqb s name
  | _ => false
  end.

Definition default_inputs : dict :=
  {[ "company_name" := JStr "Tesla";
     "Sector" := JStr "Automotive";
     "Geographies" := JStr "USA";
     "Peer_list" := JStr "Ford, GM, Rivian" ]}.

(** [inputs || { ... }], kept as the dictionary of its own properties,
    which is what [executeNextStep] spreads. *)
Definition customInputs (inputs : option json) : dict :=
  if truthy_opt inputs then spread (default JNull inputs) else default_inputs.

Definition company_research (inputs : dict) : StepDefinition :=
  {| def_name := "Company Research"; def_workflowId := APP_ID;
     def_apiKey := API_KEY; def_inputs := inputs;
     def_userModifications := None; def_outputs := None;
     def_allowUserEdit := true |}.

Definition second_workflow (name : string) : StepDefinition :=
  {| def_name := name; def_workflowId := SECOND_WORKFLOW_ID;
     def_apiKey := SECOND_WORKFLOW_KEY;
     def_inputs :=
       {[ "competitor_input" := JStr "Will be populated from agent_output";
          "current_de_op_input" := JStr "Will be populated from current_de_op_output" ]};
     def_userModifications := None; def_outputs := None;
     def_allowUserEdit := true |}.

Definition advanced_processing : StepDefinition :=
  {| def_name := "Advanced Processing"; def_workflowId := THIRD_WORKFLOW_ID;
     def_apiKey := THIRD_WORKFLOW_KEY;
     def_inputs :=
       {[ "combined_company_info" := JStr "Will be populated from current_de_op_output";
          "footprints_data" := JStr "Will be populated from all_footprints" ]};
     def_userModifications := None; def_outputs := None;
     def_allowUserEdit := true |}.

(** [Response.json(x)] and [Response.json(x, { status })]. *)
Definition respond (status : nat) (x : payload) : option answer :=
  Some {| code := status; content := x |}.

(** [createChain(prefix + Date.now(), name, defs)] and the answer that
    follows it. *)
Definition create (m : chains) (prefix : string) (now : nat) (name : string)
    (defs : list StepDefinition) : chains * option answer :=
  let '(m', chain) := createChain m (prefix +:+ decimal now) name defs in
  (m', respond 200 (ChainCreated (chain_id chain) chain)).

(** The [userModifications] of the request as [executeNextStep] uses
    them: recorded when truthy, and spread. *)
Definition requested_modifications (v : option json) : option dict :=
  if truthy_opt v then Some (spread (default JNull v)) else None.

(** The branch of [action === 'execute'].  No chain is stored under a
    key that is not a string.  [None] for the answer: the awaited promise
    never settles, and the handler never answers. *)
Definition execute (rev : revision) (fetch : network) (m : chains)
    (chainId userModifications : option json) : chains * option answer :=
  match chainId with
  | Some id =>
      if negb (truthy id) then (m, respond 400 (Problem "Chain ID required"))
      else
        match id with
        | JStr chainId =>
            let ex := executeNextStep rev fetch m chainId
                        (requested_modifications userModifications) in
            match returned ex with
            | Resolved result =>
                let updatedChain := getChain (registry ex) chainId in
                (registry ex,
                 respond 200
                   (StepExecuted result updatedChain
                      (match updatedChain with
                       | Some chain =>
                           match chain_status chain with
                           | completed => true
                           | _ => false
                           end
                       | None => false
                       end)))
            | Rejected e => (registry ex, respond 500 (ExecutionFailed e))
            | Unsettled => (registry ex, None)
            end
        | _ =>
            (m, respond 500
                  (ExecutionFailed
                     (Error (JStr ("Chain " +:+ ToString id +:+ " not found")))))
        end
  | None => (m, respond 400 (Problem "Chain ID required"))
  end.

(** [POST]: the manager before, the body of the request and the instant
    [Date.now()]; the manager after and the answer. *)
Definition POST (rev : revision) (fetch : network) (now : nat) (m : chains)
    (request : string) : chains * option answer :=
  match JSON_parse request with
  | None => (m, respond 500 (Crashed SyntaxError))
  | Some body =>
      match prop body "action", prop body "chainId",
            prop body "userModifications", prop body "inputs" with
      | Some action, Some chainId, Some userModifications, Some inputs =>
          if is_action action "create" then
            create m "test-chain-" now "Test Company Research"
              [company_research default_inputs]
          else if is_action action "execute" then
            execute rev fetch m chainId userModifications
          else if is_action action "create-two-step" then
            create m "two-step-chain-" now "Two-Step Workflow Chain"
              [company_research default_inputs; second_workflow "Second Analysis"]
          else if is_action action "create-custom" then
            create m "custom-chain-" now "Custom Workflow Chain"
              [company_research (customInputs inputs);
               second_workflow "Detailed Analysis"]
          else if is_action action "create-three-step" then
            create m "three-step-chain-" now "Three-Step Analysis Chain"
              [company_research (customInputs inputs);
               second_workflow "Detailed Analysis"; advanced_processing]
          else if is_action action "diagnose" then (m, respond 200 Diagnosis)
          else (m, respond 400 (Problem "Invalid action"))
      | _, _, _, _ => (m, respond 500 (Crashed TypeError))
      end
  end.

(** The prefixes of the ids that the handler makes. *)
Definition prefixes : list string :=
  ["test-chain-"; "two-step-chain-"; "custom-chain-"; "three-step-chain-"].

(** The inputs that a create request gives the first step: those of
    the code for [create] and [create-two-step], those of the request, if
    any, for the other two. *)
Definition requested_inputs (body : json) : dict :=
  let action := mjoin (prop body "action") in
  if is_action action "create" || is_action action "create-two-step"
  then default_inputs
  else customInputs (mjoin (prop body "inputs")).

(** The definitions that the handler creates chains from: a first step
    for the first workflow, and no outputs or modifications anywhere. *)
Definition handler_chain (request : string) (defs : list StepDefinition) : Prop :=
  exists body rest,
    JSON_parse request = Some body
    /\ defs = company_research (requested_inputs body) :: rest
    /\ forallb blank defs = true.

End Route.

(** ** Further scenarios *)

Module Cases.
Import Text Scenario.

(** Bodies of a stream: the terminal record, a record that follows it,
    a node record, a record that lacks its line feed, a comment line and
    a record whose payload is cut short. *)
Definition finished : list (list byte) := [bytes (record (workflow_finished []))].

Definition afterwards : list (list byte) := [bytes (record (error_event "boom"))].

Definition node_line : string := record (node_finished (only_agent "X")).

Definition last_line : string := record (workflow_finished []).

Definition unterminated : string := "data: " +:+ print (workflow_finished []).

Definition comment : string := ": keep-alive".

Definition broken : string := "data: {oops".

(** A service that knows no such workflow. *)
Definition not_found : network :=
  fun _ _ => Responds {| ok := false; status := 404; statusText := "Not Found";
                         body := None |}.

(** A second step that declares no slot. *)
Definition summary : StepDefinition :=
  {| def_name := "Summary"; def_workflowId := "workflow-3";
     def_apiKey := "app-key-3";
     def_inputs := {[ "notes" := JStr "none" ]};
     def_userModifications := None; def_outputs := None;
     def_allowUserEdit := true |}.

(** The results of the one-step chain. *)
Definition empty_result : ChainStepResult :=
  {| stepId := "chain-step-0"; result_outputs := ∅; success := true |}.

Definition final_result : ChainStepResult :=
  {| stepId := "chain-step-0";
     result_outputs := {[ "current_de_op_output" := JStr "Y" ]};
     success := true |}.

(** The one-step chain after a successful call. *)
Definition one_step_done : chains :=
  registry (executeNextStep Annotated succeeding one_step "chain" None).

(** The inputs of the research step with the modification. *)
Definition modified_inputs : dict :=
  {[ "company_name" := JStr "Tesla"; "second_input" := JStr "z" ]}.

(** A deployment, and the conversion to a string on the values that have
    one form in every runtime. *)
#[export] Instance site : Config := {|
  APP_ID := "app-1";
  API_KEY := "app-key-1";
  SECOND_WORKFLOW_ID := "app-2";
  SECOND_WORKFLOW_KEY := "app-key-2";
  THIRD_WORKFLOW_ID := "app-3";
  THIRD_WORKFLOW_KEY := "app-key-3"
|}.

#[export] Instance conversions : Conversions := {|
  ToString := fun v =>
    match v with
    | JStr s => s
    | JNull => "null"
    | JBool true => "true"
    | JBool false => "false"
    | JObj _ => "[object Object]"
    | _ => print v
    end
|}.

(** Requests, and the manager after a create request at the instant 42. *)
Definition create_request : string := print (JObj [("action", JStr "create")]).

Definition two_step_request : string :=
  print (JObj [("action", JStr "create-two-step")]).


Definition test_chain : WorkflowChain :=
  (createChain ∅ "test-chain-42" "Test Company Research"
     [company_research default_inputs]).2.

Definition with_test_chain : chains := {[ "test-chain-42" := test_chain ]}.

Definition two_step_chain : WorkflowChain :=
  (createChain with_test_chain "two-step-chain-43" "Two-Step Workflow Chain"
     [company_research default_inputs; second_workflow "Second Analysis"]).2.

Definition created_answer : answer :=
  {| code := 200; content := ChainCreated "test-chain-42" test_chain |}.

Definition second_answer : answer :=
  {| code := 200; content := ChainCreated "two-step-chain-43" two_step_chain |}.



End Cases.

(** * The decoder *)

Section DecoderFacts.
Context `{P : Platform}.

Lemma split_lines_cut (s : string) :
  split_lines s = ((cut s).1 ++ [(cut s).2])%list.
Proof.
  induction s as [|c rest IH]; [reflexivity|].
  simpl. rewrite IH. destruct (cut rest) as [ls tl]. simpl.
  destruct (Ascii.eqb c newline); [reflexivity|].
  destruct ls; reflexivity.
Qed.

Lemma pop_lines (s : string) :
  removelast (split_lines s) = (cut s).1
  /\ default EmptyString (last (split_lines s)) = (cut s).2.
Proof.
  rewrite split_lines_cut. split.
  - apply removelast_last.
  - by rewrite last_snoc.
Qed.

Lemma append_empty_l (b : string) : EmptyString +:+ b = b.
Proof. reflexivity. Qed.

Lemma append_String (c : ascii) (a b : string) :
  String c a +:+ b = String c (a +:+ b).
Proof. reflexivity. Qed.

Lemma append_empty_r (a : string) : a +:+ EmptyString = a.
Proof.
  induction a as [|c a IH]; [reflexivity|].
  by rewrite append_String, IH.
Qed.

Lemma append_assoc (a b c : string) : (a +:+ b) +:+ c = a +:+ (b +:+ c).
Proof.
  induction a as [|x a IH]; [reflexivity|].
  by rewrite !append_String, IH.
Qed.

Lemma cut_append (a b : string) :
  cut (a +:+ b) =
    (((cut a).1 ++ (cut ((cut a).2 +:+ b)).1)%list, (cut ((cut a).2 +:+ b)).2).
Proof.
  induction a as [|c a IH].
  - simpl. rewrite append_empty_l. by destruct (cut b).
  - rewrite append_String. simpl. rewrite IH. destruct (cut a) as [la ra]. simpl.
    destruct (Ascii.eqb c newline) eqn:Hc; simpl.
    + reflexivity.
    + destruct la as [|f o]; simpl.
      * rewrite Hc.
        by destruct (cut (ra +:+ b)) as [[|??] ?].
      * reflexivity.
Qed.

Lemma cut_rest (a : string) : cut (cut a).2 = ([], (cut a).2).
Proof.
  induction a as [|c a IH]; simpl; [reflexivity|].
  destruct (cut a) as [la ra]. simpl in *.
  destruct (Ascii.eqb c newline) eqn:Hc; simpl; [done|].
  destruct la; simpl; [|done].
  by rewrite IH, Hc.
Qed.

Lemma decode_app (dec : decoder_state) (a b : list byte) :
  decode dec (a ++ b) =
    let '(dec1, s1) := decode dec a in
    let '(dec2, s2) := decode dec1 b in
    (dec2, s1 +:+ s2).
Proof.
  revert dec. induction a as [|x a IH]; intros dec; simpl.
  - by destruct (decode dec b).
  - destruct (decoder_byte dec x) as [d1 t1]. rewrite IH.
    destruct (decode d1 a) as [d2 t2]. destruct (decode d2 b) as [d3 t3].
    by rewrite append_assoc.
Qed.

Lemma decode_chunks_concat (dec : decoder_state) (chunks : list (list byte)) :
  decode_chunks dec chunks = (decode dec (concat chunks)).2.
Proof.
  revert dec. induction chunks as [|value rest IH]; intros dec; simpl; [done|].
  rewrite decode_app. destruct (decode dec value) as [d1 t1].
  rewrite IH. by destruct (decode d1 (concat rest)).
Qed.

Section Loop.
Context {S : Type} (callbacks : Callbacks S).

Lemma for_lines_app (l1 l2 : list string) (s : S) :
  for_lines callbacks (l1 ++ l2) s =
    match for_lines callbacks l1 s with
    | (true, s', log) => (true, s', log)
    | (false, s', log) =>
        let '(returned, s'', log') := for_lines callbacks l2 s' in
        (returned, s'', (log ++ log')%list)
    end.
Proof.
  revert s. induction l1 as [|line l1 IH]; intros s; simpl.
  - by destruct (for_lines callbacks l2 s) as [[??]?].
  - destruct (for_line callbacks line s) as [[[] s1] log1]; [done|].
    rewrite IH. destruct (for_lines callbacks l1 s1) as [[[] s2] log2]; [done|].
    destruct (for_lines callbacks l2 s2) as [[? ?] ?].
    by rewrite app_assoc.
Qed.

(** The loop over the chunks does what the function does on the whole
    text: the lines are those of the buffer followed by the decoded
    chunks.  The buffer never holds a line feed. *)
Lemma read_loop_text (dec : decoder_state) (buffer : string)
    (chunks : list (list byte)) (ending : stream_end) (s : S) :
  cut buffer = ([], buffer) ->
  read_loop callbacks dec buffer chunks ending s =
    decode_text callbacks (buffer +:+ decode_chunks dec chunks) ending s.
Proof.
  revert dec buffer s. induction chunks as [|value rest IH]; intros dec buffer s Hb.
  - simpl. unfold decode_text.
    rewrite append_empty_r, Hb. simpl. by destruct ending.
  - simpl. destruct (decode dec value) as [dec' text].
    destruct (pop_lines (buffer +:+ text)) as [-> ->].
    unfold decode_text.
    rewrite <- append_assoc, (cut_append (buffer +:+ text)).
    cbn [fst snd]. rewrite for_lines_app.
    destruct (for_lines callbacks (cut (buffer +:+ text)).1 s) as [[[] s1] log1];
      [done|].
    rewrite IH by apply cut_rest. unfold decode_text.
    by destruct (for_lines callbacks _ s1) as [[[] ?] ?].
Qed.

Lemma executeCustomWorkflow_text (r : response) (chunks : list (list byte))
    (ending : stream_end) (s : S) :
  ok r = true ->
  executeCustomWorkflow callbacks (Responds (with_body r chunks ending)) s =
    decode_text callbacks (decode_chunks decoder_start chunks) ending s.
Proof.
  intros Hok. unfold executeCustomWorkflow. simpl. rewrite Hok. simpl.
  by rewrite read_loop_text.
Qed.

(** C8. However the bytes of a stream are split into chunks, lines cut in
    two included, [executeCustomWorkflow] ends the same way, leaves the
    same state, and makes the same calls and warnings in the same order
    with the same payloads as on the stream delivered in one chunk. *)
Theorem chunking_is_invisible (r : response) (chunks : list (list byte))
    (ending : stream_end) (s : S) :
  executeCustomWorkflow callbacks (Responds (with_body r chunks ending)) s =
  executeCustomWorkflow callbacks
    (Responds (with_body r [concat chunks] ending)) s.
Proof.
  destruct (ok r) eqn:Hok.
  - rewrite !executeCustomWorkflow_text by done.
    rewrite !decode_chunks_concat. simpl. by rewrite app_nil_r.
  - unfold executeCustomWorkflow. simpl. by rewrite Hok.
Qed.

End Loop.

End DecoderFacts.

(** * One step *)

Section StepFacts.
Context `{P : Platform}.

Lemma spread2_empty (a : dict) : spread2 a ∅ = a.
Proof. unfold spread2. by rewrite (left_id_L ∅ (∪)). Qed.

Lemma collected_app (rev : revision) (acc : dict) (l1 l2 : list effect) :
  collected rev acc (l1 ++ l2) = collected rev (collected rev acc l1) l2.
Proof. destruct rev; simpl; [done|]. apply fold_left_app. Qed.

Section Run.
Context (rev : revision) (i : nat) (sid : string) (c : WorkflowChain).

Lemma on_node_finished_collects (d : json) (n : dict) :
  on_node_finished rev d (waiting c n) =
    Returned (waiting c (collected rev n [CallNodeFinished d])).
Proof.
  unfold on_node_finished, collected, waiting. destruct rev; simpl; [done|].
  unfold carried_outputs.
  destruct (truthy_opt _); simpl; [done|]. by rewrite spread2_empty.
Qed.

Lemma on_workflow_finished_threw (d : json) (n : dict) (e : js_error) (s' : closure) :
  on_workflow_finished rev i sid d (waiting c n) = Threw e s' ->
  s' = waiting c (collected rev n [CallWorkflowFinished d]).
Proof.
  unfold on_workflow_finished, collected. destruct rev; simpl.
  - repeat case_match; naive_solver.
  - repeat case_match; naive_solver.
Qed.

Lemma dispatch_step (d : json) (n : dict) :
  match dispatch (step_callbacks rev i sid) d (waiting c n) with
  | (Break s', log) | (Throw _ s', log) => s' = waiting c (collected rev n log)
  | (Return s', log) =>
      log = [CallWorkflowFinished d]
      /\ on_workflow_finished rev i sid d (waiting c n) = Returned s'
  end.
Proof.
  unfold dispatch.
  destruct (prop d "event") as [[[]|]|]; try (by destruct rev).
  simpl. unfold on_started.
  repeat case_match; simplify_eq; try (by destruct rev).
  - rewrite on_node_finished_collects in *. by simplify_eq.
  - by rewrite on_node_finished_collects in *.
  - eauto using on_workflow_finished_threw.
Qed.

Lemma for_line_step (line : string) (n : dict) :
  match for_line (step_callbacks rev i sid) line (waiting c n) with
  | (false, s', log) => s' = waiting c (collected rev n log)
  | (true, s', log) =>
      exists d, log = [CallWorkflowFinished d]
        /\ on_workflow_finished rev i sid d (waiting c n) = Returned s'
  end.
Proof.
  unfold for_line. destruct (_ || _); [by destruct rev|].
  unfold try_line. destruct (String.eqb _ ""); [by destruct rev|].
  destruct (JSON_parse _) as [data|]; [|by destruct rev].
  pose proof (dispatch_step data n) as Hd.
  destruct (dispatch _ data _) as [[s'|s'|e s'] log]; simpl.
  - done.
  - destruct Hd as [-> Hd]. by exists data.
  - subst s'. rewrite collected_app. by destruct rev.
Qed.

Lemma for_lines_step (lines : list string) (n : dict) :
  match for_lines (step_callbacks rev i sid) lines (waiting c n) with
  | (false, s', log) => s' = waiting c (collected rev n log)
  | (true, s', log) =>
      exists pre d, log = (pre ++ [CallWorkflowFinished d])%list
        /\ on_workflow_finished rev i sid d (waiting c (collected rev n pre)) = Returned s'
  end.
Proof.
  revert n. induction lines as [|line lines IH]; intros n; simpl.
  - by destruct rev.
  - pose proof (for_line_step line n) as H1.
    destruct (for_line _ line _) as [[[] s1] log1].
    + destruct H1 as (d & -> & H1). exists [], d. split; [done|].
      by replace (collected rev n []) with n by (by destruct rev).
    + subst s1. specialize (IH (collected rev n log1)).
      destruct (for_lines _ lines _) as [[[] s2] log2].
      * destruct IH as (pre & d & -> & IH). exists (log1 ++ pre)%list, d.
        split; [by rewrite app_assoc|]. by rewrite collected_app.
      * by rewrite collected_app.
Qed.

(** How the awaited call can end, for the callbacks of a step: at the
    terminal event, whose callback returned from a closure that only the
    node outputs had changed; or otherwise, with nothing but the node
    outputs changed. *)
Lemma executeCustomWorkflow_step (answer : fetched) :
  match executeCustomWorkflow (step_callbacks rev i sid) answer (waiting c ∅) with
  | (AtFinished, s', log) =>
      exists pre d, log = (pre ++ [CallWorkflowFinished d])%list
        /\ on_workflow_finished rev i sid d (waiting c (collected rev ∅ pre)) = Returned s'
  | (_, s', log) => s' = waiting c (collected rev ∅ log)
  end.
Proof.
  unfold executeCustomWorkflow.
  destruct answer as [r|e]; [|by destruct rev].
  destruct (ok r); simpl; [|by destruct rev].
  destruct (body r) as [[chunks ending]|]; [|by destruct rev].
  rewrite read_loop_text by done. unfold decode_text.
  rewrite append_empty_l.
  pose proof (for_lines_step (cut (decode_chunks decoder_start chunks)).1 ∅) as H.
  destruct (for_lines _ _ _) as [[[] s'] log]; [done|].
  by destruct ending.
Qed.

(** Reading [v.name] unguarded, when it does not throw, finds the same
    truthy values as the guarded reading. *)
Lemma guarded_prop_unguarded (v : json) (name : string) (x : option json) :
  prop v name = Some x ->
  guarded_prop (Some v) name = (if truthy_opt x then x else guarded_prop (Some v) name)
  /\ truthy_opt (guarded_prop (Some v) name) = truthy_opt x.
Proof.
  destruct v; simpl; intros; simplify_eq/=; try done;
    repeat case_match; done.
Qed.

Lemma on_workflow_finished_returned (d : json) (n : dict) (s' : closure) :
  on_workflow_finished rev i sid d (waiting c n) = Returned s' ->
  (exists err, carried_error d = Some err /\ truthy err = true
     /\ s' = fail_with i (Error err) (waiting c n))
  \/ (truthy_opt (carried_error d) = false
      /\ s' = complete_step i sid (final_outputs rev n d) (waiting c n)).
Proof.
  unfold on_workflow_finished, carried_error, final_outputs, carried_outputs.
  destruct (mjoin (prop d "data")) as [v|]; simpl.
  - destruct rev.
    + destruct (prop v "error") as [oe|] eqn:He; [|discriminate].
      destruct (guarded_prop_unguarded _ _ _ He) as [He1 He2].
      simpl in He1, He2. rewrite He in He1, He2.
      destruct (truthy_opt oe) eqn:Ht; intros [= <-].
      * left. destruct oe as [err|]; [|done]. exists err. by rewrite He1.
      * right. split; [done|].
        destruct (prop v "outputs") as [oo|] eqn:Ho; [|by destruct v].
        destruct (guarded_prop_unguarded _ _ _ Ho) as [Ho1 Ho2].
        simpl in Ho1, Ho2. rewrite Ho in Ho1, Ho2. simpl in *. rewrite Ho2. destruct (truthy_opt oo) eqn:Hto; [|done].
        by rewrite Ho1.
    + destruct (truthy v) eqn:Hv; simpl.
      * destruct (mjoin (prop v "error")) as [err|] eqn:He; simpl.
        -- destruct (truthy err) eqn:Ht; intros; simplify_eq; [left; eauto|by right].
        -- intros; simplify_eq. by right.
      * intros; simplify_eq. by right.
  - destruct rev; simpl; [discriminate|]. intros; simplify_eq. by right.
Qed.

Lemma executeCustomWorkflow_outcome (answer : fetched) :
  match executeCustomWorkflow (step_callbacks rev i sid) answer (waiting c ∅) with
  | (how, s', log) =>
      outcome rev i sid c how log
        (match how with AtThrow e => fail_with i e s' | _ => s' end)
  end.
Proof.
  pose proof (executeCustomWorkflow_step answer) as H.
  destruct (executeCustomWorkflow _ answer _) as [[how s'] log].
  destruct how as [| |e].
  - destruct H as (pre & d & -> & H).
    apply on_workflow_finished_returned in H as [(err & ? & ? & ->)|[? ->]].
    + by apply outcome_error.
    + by apply outcome_success.
  - subst s'. apply outcome_exhausted.
  - subst s'. apply outcome_thrown.
Qed.

End Run.

(** *** The shapes of a call *)

Lemma outcome_finished_log (rev : revision) (i : nat) (sid : string)
    (c : WorkflowChain) (log : list effect) (s : closure) :
  outcome rev i sid c AtFinished log s ->
  exists pre d, log = (pre ++ [CallWorkflowFinished d])%list.
Proof. inversion 1; eauto. Qed.

Lemma outcome_exhausted_closure (rev : revision) (i : nat) (sid : string)
    (c : WorkflowChain) (log : list effect) (s : closure) :
  outcome rev i sid c AtDone log s -> s = waiting c (collected rev ∅ log).
Proof. by inversion 1. Qed.

Lemma complete_step_facts (i : nat) (sid : string) (outs : dict) (s : closure) :
  let s' := complete_step i sid outs s in
  steps (chain s') =
    alter (set_step_status completed) i
      (alter (set_outputs (Some outs)) i (steps (chain s)))
  /\ currentStepIndex (chain s') = currentStepIndex (chain s) + 1
  /\ chain_status (chain s') =
       (if Z.of_nat (length (steps (chain s))) <=? currentStepIndex (chain s) + 1
        then completed else pending)
  /\ settled s' =
       resolve {| stepId := sid; result_outputs := outs; success := true |} (settled s).
Proof.
  unfold complete_step. simpl. rewrite !length_alter.
  by destruct (_ <=? _).
Qed.

Lemma step_at_Some (c : WorkflowChain) (i : Z) (st : WorkflowChainStep) :
  step_at c i = Some st ->
  0 <= i < Z.of_nat (length (steps c)) /\ steps c !! Z.to_nat i = Some st.
Proof.
  unfold step_at. destruct (i <? 0) eqn:Hi; [done|]. intros H.
  apply Z.ltb_ge in Hi. split; [|done].
  apply lookup_lt_Some in H. lia.
Qed.

Lemma step_id_current_step (um : option dict) (st : WorkflowChainStep) :
  step_id (current_step um st) = step_id st
  /\ apiKey (current_step um st) = apiKey st
  /\ inputs (current_step um st) = inputs st
  /\ outputs (current_step um st) = outputs st.
Proof. by destruct um. Qed.

(** A call that reached the workflow. *)
Lemma executeNextStep_called (rev : revision) (fetch : network) (m : chains)
    (chainId : string) (um : option dict) (stepInputs0 : dict) :
  let ex := executeNextStep rev fetch m chainId um in
  called_with ex = Some stepInputs0 ->
  exists c0 step0 how s s1,
    m !! chainId = Some c0
    /\ step_at c0 (currentStepIndex c0) = Some step0
    /\ stepInputs rev (prepared um c0 step0) (current_step um step0) = inr stepInputs0
    /\ executeCustomWorkflow
         (step_callbacks rev (Z.to_nat (currentStepIndex c0)) (step_id step0))
         (fetch (apiKey step0) stepInputs0) (waiting (started um c0 step0) ∅)
       = (how, s1, effects ex)
    /\ awaited ex = Some how
    /\ registry ex = <[chainId := chain s]> m
    /\ returned ex = settled s
    /\ outcome rev (Z.to_nat (currentStepIndex c0)) (step_id step0)
         (started um c0 step0) how (effects ex) s.
Proof.
  intros ex. subst ex. unfold executeNextStep.
  destruct (m !! chainId) as [c0|] eqn:Hm; [|done].
  destruct (step_at c0 (currentStepIndex c0)) as [step0|] eqn:Hs; [|done].
  fold (current_step um step0). fold (prepared um c0 step0).
  destruct (stepInputs rev _ _) as [e|ins] eqn:Hi; [done|].
  fold (started um c0 step0).
  destruct (step_id_current_step um step0) as (-> & -> & _).
  fold (waiting (started um c0 step0) ∅).
  pose proof (executeCustomWorkflow_outcome rev (Z.to_nat (currentStepIndex c0))
                (step_id step0) (started um c0 step0)
                (fetch (apiKey step0) ins)) as Ho.
  destruct (executeCustomWorkflow _ _ _) as [[how s1] log] eqn:Hrun. simpl.
  intros [= <-].
  exists c0, step0, how,
    (match how with AtThrow e => fail_with (Z.to_nat (currentStepIndex c0)) e s1
     | _ => s1 end), s1.
  repeat split; try done; by destruct how.
Qed.

(** A call that did not reach the workflow is rejected; it leaves the
    registry as it was, but for the modifications it may have recorded. *)
Lemma executeNextStep_not_called (rev : revision) (fetch : network) (m : chains)
    (chainId : string) (um : option dict) :
  let ex := executeNextStep rev fetch m chainId um in
  called_with ex = None ->
  (exists e, returned ex = Rejected e)
  /\ effects ex = []
  /\ (registry ex = m
      \/ exists c0 step0, m !! chainId = Some c0
           /\ step_at c0 (currentStepIndex c0) = Some step0
           /\ registry ex = <[chainId := prepared um c0 step0]> m).
Proof.
  intros ex. subst ex. unfold executeNextStep.
  destruct (m !! chainId) as [c0|] eqn:Hm; [|by eauto].
  destruct (step_at c0 (currentStepIndex c0)) as [step0|] eqn:Hs; [|by eauto].
  fold (current_step um step0). fold (prepared um c0 step0).
  destruct (stepInputs rev _ _) as [e|ins] eqn:Hi.
  - simpl. intros _. repeat split; eauto 10.
  - by destruct (executeCustomWorkflow _ _ _) as [[how s1] log].
Qed.

End StepFacts.

(** * The registry *)

Section RegistryFacts.
Context `{P : Platform}.

Lemma update_step_facts (i : nat) (f : WorkflowChainStep -> WorkflowChainStep)
    (c : WorkflowChain) :
  currentStepIndex (update_step i f c) = currentStepIndex c
  /\ chain_status (update_step i f c) = chain_status c
  /\ length (steps (update_step i f c)) = length (steps c)
  /\ (forall j, steps (update_step i f c) !! j =
        if decide (i = j) then f <$> steps c !! j else steps c !! j).
Proof.
  repeat split; simpl; [apply length_alter|].
  intros j. rewrite list_lookup_alter. by case_decide; subst.
Qed.

Lemma update_step_outputs (i : nat) (f : WorkflowChainStep -> WorkflowChainStep)
    (c : WorkflowChain) :
  (forall st, steps c !! i = Some st -> outputs (f st) = outputs st) ->
  forall j, outputs <$> steps (update_step i f c) !! j = outputs <$> steps c !! j.
Proof.
  intros Hf j. destruct (update_step_facts i f c) as (_ & _ & _ & ->).
  case_decide as Hij; [subst j|done].
  destruct (steps c !! i) as [st|] eqn:Hst; [|done]. simpl. by rewrite Hf.
Qed.

(** A chain that differs from a sound one only in statuses and
    modifications, with its cursor before the end, is sound unless it
    claims to be completed. *)
Lemma chain_ok_same (c c' : WorkflowChain) :
  chain_ok c ->
  currentStepIndex c' = currentStepIndex c ->
  length (steps c') = length (steps c) ->
  (forall j, outputs <$> steps c' !! j = outputs <$> steps c !! j) ->
  currentStepIndex c < Z.of_nat (length (steps c)) ->
  chain_status c' <> completed ->
  chain_ok c'.
Proof.
  intros [Hb Hc He Ho] Hi Hl Hout Hlt Hst. split.
  - lia.
  - done.
  - lia.
  - intros j st Hj Hlook. rewrite Hi in Hj.
    specialize (Hout j). rewrite Hlook in Hout. simpl in Hout.
    destruct (steps c !! j) as [st0|] eqn:H0; [|done].
    simpl in Hout. injection Hout as ->. by eapply Ho.
Qed.

Lemma not_completed_before_end (c : WorkflowChain) :
  chain_ok c -> currentStepIndex c < Z.of_nat (length (steps c)) ->
  chain_status c <> completed.
Proof. intros [_ Hc _ _] Hlt Hst. apply Hc in Hst. lia. Qed.

Section OneCall.
Context (um : option dict) (c0 : WorkflowChain) (step0 : WorkflowChainStep).
Context (Hok : chain_ok c0).
Context (Hstep : step_at c0 (currentStepIndex c0) = Some step0).

Lemma prepared_facts :
  currentStepIndex (prepared um c0 step0) = currentStepIndex c0
  /\ chain_status (prepared um c0 step0) = chain_status c0
  /\ length (steps (prepared um c0 step0)) = length (steps c0)
  /\ (forall j, outputs <$> steps (prepared um c0 step0) !! j
               = outputs <$> steps c0 !! j)
  /\ steps (prepared um c0 step0) !! Z.to_nat (currentStepIndex c0)
     = Some (current_step um step0).
Proof.
  apply step_at_Some in Hstep as [Hlt Hlook]. unfold prepared.
  destruct (update_step_facts (Z.to_nat (currentStepIndex c0))
              (fun _ => current_step um step0) c0) as (H1 & H2 & H3 & H4).
  repeat split; try done.
  - apply update_step_outputs. intros st Hst.
    rewrite Hlook in Hst. injection Hst as <-.
    by destruct (step_id_current_step um step0) as (_ & _ & _ & ->).
  - rewrite H4, decide_True by done. by rewrite Hlook.
Qed.

Lemma started_facts :
  currentStepIndex (started um c0 step0) = currentStepIndex c0
  /\ chain_status (started um c0 step0) = running
  /\ length (steps (started um c0 step0)) = length (steps c0)
  /\ (forall j, outputs <$> steps (started um c0 step0) !! j
               = outputs <$> steps c0 !! j)
  /\ steps (started um c0 step0) !! Z.to_nat (currentStepIndex c0)
     = Some (set_step_status running (current_step um step0)).
Proof.
  destruct prepared_facts as (H1 & H2 & H3 & H4 & H5). unfold started.
  destruct (update_step_facts (Z.to_nat (currentStepIndex c0))
              (set_step_status running) (prepared um c0 step0))
    as (G1 & G2 & G3 & G4).
  repeat split.
  - simpl. by rewrite !length_alter.
  - intros j. rewrite <- H4. by apply (update_step_outputs _ _ (prepared um c0 step0)).
  - cbn [steps set_chain_status]. rewrite G4, decide_True by done. by rewrite H5.
Qed.

Lemma fail_step_facts (c : WorkflowChain) (i : nat) :
  currentStepIndex (fail_step i c) = currentStepIndex c
  /\ chain_status (fail_step i c) = failed
  /\ length (steps (fail_step i c)) = length (steps c)
  /\ (forall j, outputs <$> steps (fail_step i c) !! j = outputs <$> steps c !! j)
  /\ steps (fail_step i c) !! i = set_step_status failed <$> steps c !! i.
Proof.
  unfold fail_step. repeat split; simpl.
  - apply length_alter.
  - intros j. by apply (update_step_outputs _ _ c).
  - apply list_lookup_alter_eq.
Qed.

Lemma chain_ok_prepared : chain_ok (prepared um c0 step0).
Proof.
  destruct prepared_facts as (H1 & H2 & H3 & H4 & _).
  pose proof (step_at_Some _ _ _ Hstep) as [Hlt _].
  apply (chain_ok_same c0); [done|done|done|done|lia|].
  rewrite H2. apply not_completed_before_end; [done|lia].
Qed.

Lemma chain_ok_started : chain_ok (started um c0 step0).
Proof.
  destruct started_facts as (H1 & H2 & H3 & H4 & _).
  pose proof (step_at_Some _ _ _ Hstep) as [Hlt _].
  apply (chain_ok_same c0); [done|done|done|done|lia|by rewrite H2].
Qed.

Lemma chain_ok_failed (i : nat) : chain_ok (fail_step i (started um c0 step0)).
Proof.
  destruct started_facts as (H1 & H2 & H3 & H4 & _).
  destruct (fail_step_facts (started um c0 step0) i) as (G1 & G2 & G3 & G4 & _).
  pose proof (step_at_Some _ _ _ Hstep) as [Hlt _].
  apply (chain_ok_same c0);
    [done|congruence|congruence|intros j; by rewrite G4|lia|by rewrite G2].
Qed.

Lemma chain_ok_completed (sid : string) (outs n : dict) :
  chain_ok (chain (complete_step (Z.to_nat (currentStepIndex c0)) sid outs
                     (waiting (started um c0 step0) n))).
Proof.
  destruct started_facts as (H1 & H2 & H3 & H4 & H5).
  pose proof (step_at_Some _ _ _ Hstep) as [Hlt _].
  destruct Hok as [Hb Hc He Ho].
  set (i := Z.to_nat (currentStepIndex c0)) in *.
  unfold complete_step. cbn [chain waiting].
  set (c2 := update_step i (set_step_status completed)
               (update_step i (set_outputs (Some outs)) (started um c0 step0))).
  assert (Hlen : length (steps c2) = length (steps c0)).
  { unfold c2. simpl. by rewrite !length_alter. }
  assert (Hidx : currentStepIndex c2 = currentStepIndex c0) by done.
  assert (Hlook : forall j, steps c2 !! j =
             if decide (i = j)
             then set_step_status completed <$>
                    (set_outputs (Some outs) <$> steps (started um c0 step0) !! j)
             else steps (started um c0 step0) !! j).
  { intros j. unfold c2. simpl. rewrite !list_lookup_alter.
    case_decide; [subst j|done]. by rewrite decide_True. }
  cbn [currentStepIndex set_currentStepIndex steps].
  rewrite Hidx.
  assert (Hsteps : forall s, steps (set_chain_status s
            (set_currentStepIndex (currentStepIndex c0 + 1) c2)) = steps c2) by done.
  assert (Hcur : forall s, currentStepIndex (set_chain_status s
            (set_currentStepIndex (currentStepIndex c0 + 1) c2))
            = currentStepIndex c0 + 1) by done.
  destruct (Z.of_nat (length (steps c2)) <=? currentStepIndex c0 + 1) eqn:Hcmp.
  - apply Z.leb_le in Hcmp. split; rewrite ?Hsteps, ?Hcur, ?Hlen in *.
    + lia.
    + intros _. lia.
    + done.
    + intros j st Hj. rewrite Hlook. case_decide as Hij.
      * destruct (steps (started um c0 step0) !! j); [|done].
        simpl. by intros [= <-].
      * intros Hst. specialize (H4 j). rewrite Hst in H4. simpl in H4.
        destruct (steps c0 !! j) as [st0|] eqn:H0; [|done].
        simpl in H4. injection H4 as ->. apply (Ho j st0); [lia|done].
  - apply Z.leb_gt in Hcmp. split; rewrite ?Hsteps, ?Hcur, ?Hlen in *.
    + lia.
    + done.
    + lia.
    + intros j st Hj. rewrite Hlook. case_decide as Hij.
      * destruct (steps (started um c0 step0) !! j); [|done].
        simpl. by intros [= <-].
      * intros Hst. specialize (H4 j). rewrite Hst in H4. simpl in H4.
        destruct (steps c0 !! j) as [st0|] eqn:H0; [|done].
        simpl in H4. injection H4 as ->. apply (Ho j st0); [lia|done].
Qed.

Lemma chain_ok_outcome (rev : revision) (sid : string) (how : exit)
    (log : list effect) (s : closure) :
  outcome rev (Z.to_nat (currentStepIndex c0)) sid (started um c0 step0) how log s ->
  chain_ok (chain s).
Proof.
  intros [e l|l|pre d err _ _|pre d _].
  - apply chain_ok_failed.
  - apply chain_ok_started.
  - apply chain_ok_failed.
  - apply chain_ok_completed.
Qed.

End OneCall.

Lemma chain_ok_createChain (m : chains) (id name : string)
    (defs : list StepDefinition) :
  chain_ok (createChain m id name defs).2.
Proof.
  split; simpl.
  - lia.
  - done.
  - rewrite length_imap. intros H Hne. destruct defs; [done|]. simpl in H. lia.
  - intros j st Hj. lia.
Qed.

Lemma chain_ok_reset (c : WorkflowChain) :
  chain_ok (set_steps (reset_step <$> steps c)
              (set_chain_status pending (set_currentStepIndex 0 c))).
Proof.
  split; simpl.
  - lia.
  - done.
  - rewrite length_fmap. intros H Hne. destruct (steps c); [done|]. simpl in H. lia.
  - intros j st Hj. lia.
Qed.

(** Every chain of a reachable registry is sound. *)
Lemma reachable_ok (rev : revision) (m : chains) :
  reachable rev m -> forall id c, m !! id = Some c -> chain_ok c.
Proof.
  induction 1 as [|m id0 name defs _ IH|m fetch id0 um _ IH|m id0 _ IH|m id0 _ IH];
    intros id c Hc.
  - by rewrite lookup_empty in Hc.
  - simpl in Hc. apply lookup_insert_Some in Hc as [[<- <-]|[_ Hc]]; [|by eauto].
    apply (chain_ok_createChain m id0 name defs).
  - destruct (called_with (executeNextStep rev fetch m id0 um)) as [ins|] eqn:Hcalled.
    + apply executeNextStep_called in Hcalled
        as (c0 & step0 & how & s & s1 & Hm & Hstep & _ & _ & _ & Hreg & _ & Hout).
      rewrite Hreg in Hc.
      apply lookup_insert_Some in Hc as [[<- <-]|[_ Hc]]; [|by eauto].
      eapply chain_ok_outcome; eauto.
    + apply executeNextStep_not_called in Hcalled
        as (_ & _ & [Hreg|(c0 & step0 & Hm & Hstep & Hreg)]); rewrite Hreg in Hc.
      * by eauto.
      * apply lookup_insert_Some in Hc as [[<- <-]|[_ Hc]]; [|by eauto].
        eapply chain_ok_prepared; eauto.
  - unfold resetChain in Hc. destruct (m !! id0) as [c0|] eqn:Hm; [|by eauto].
    apply lookup_insert_Some in Hc as [[<- <-]|[_ Hc]]; [|by eauto].
    exact (chain_ok_reset c0).
  - simpl in Hc. apply lookup_delete_Some in Hc as [_ Hc]. by eauto.
Qed.

End RegistryFacts.

(** * The orchestrator *)

Section Orchestrator.
Context `{P : Platform}.

(** C9. [createChain] always returns a chain and stores that chain under
    its id, in place of whatever was stored there: the chain has the id
    and the name given, as many steps as were defined, all pending, with
    the ids [<id>-step-<index>], the cursor at 0 and the status pending.
    Nothing is rejected. *)
Theorem createChain_overwrites (m : chains) (id name : string)
    (defs : list StepDefinition) :
  let c := (createChain m id name defs).2 in
  let m' := (createChain m id name defs).1 in
  m' !! id = Some c
  /\ m' = <[id := c]> (delete id m)
  /\ c = (createChain ∅ id name defs).2
  /\ chain_id c = id
  /\ chain_name c = name
  /\ currentStepIndex c = 0
  /\ chain_status c = pending
  /\ length (steps c) = length defs
  /\ step_id <$> steps c = imap (fun index _ => id +:+ "-step-" +:+ decimal index) defs
  /\ step_status <$> steps c = replicate (length defs) pending.
Proof.
  simpl. repeat split.
  - apply lookup_insert_eq.
  - by rewrite insert_delete_eq.
  - apply length_imap.
  - by rewrite fmap_imap.
  - rewrite fmap_imap.
    apply list_eq. intros j. rewrite list_lookup_imap.
    destruct (defs !! j) as [def|] eqn:Hj; simpl.
    + by rewrite lookup_replicate_2 by by eapply lookup_lt_Some.
    + symmetry. apply lookup_replicate_None. by apply lookup_ge_None.
Qed.

(** C2, amended. In the annotated revision ([unnamed/part_001]), when a
    call succeeds, the outputs in the result are the fragments of the
    [node_finished] events merged in order, overlaid with the outputs of
    the [workflow_finished] event; the same map is stored on the step that
    was run, whose id the result carries. *)
Theorem outputs_are_merged (fetch : network) (m : chains) (chainId : string)
    (um : option dict) (r : ChainStepResult) :
  let ex := executeNextStep Annotated fetch m chainId um in
  returned ex = Resolved r ->
  exists pre d c0 c' st',
    effects ex = (pre ++ [CallWorkflowFinished d])%list
    /\ result_outputs r = spread2 (merged_node_outputs pre) (carried_outputs d)
    /\ success r = true
    /\ m !! chainId = Some c0
    /\ registry ex !! chainId = Some c'
    /\ steps c' !! Z.to_nat (currentStepIndex c0) = Some st'
    /\ outputs st' = Some (result_outputs r)
    /\ step_id st' = stepId r.
Proof.
  intros ex Hret.
  destruct (called_with ex) as [ins|] eqn:Hcalled.
  - apply executeNextStep_called in Hcalled
      as (c0 & step0 & how & s & s1 & Hm & Hstep & _ & _ & _ & Hreg & Hset & Hout).
    fold ex in Hreg, Hset, Hout. rewrite Hset in Hret.
    destruct (started_facts um c0 step0 Hstep) as (_ & _ & _ & _ & Hcur).
    destruct Hout as [e l|l|pre d err _ _|pre d _]; try done.
    simpl in Hret. injection Hret as <-.
    exists pre, d, c0,
      (chain (complete_step (Z.to_nat (currentStepIndex c0)) (step_id step0)
                (final_outputs Annotated (collected Annotated ∅ pre) d)
                (waiting (started um c0 step0) (collected Annotated ∅ pre)))),
      (set_step_status completed
         (set_outputs (Some (final_outputs Annotated (collected Annotated ∅ pre) d))
            (set_step_status running (current_step um step0)))).
    split; [done|]. split; [done|]. split; [done|]. split; [done|].
    split; [|split; [|split]].
    + rewrite Hreg. apply lookup_insert_eq.
    + destruct (complete_step_facts (Z.to_nat (currentStepIndex c0)) (step_id step0)
                  (final_outputs Annotated (collected Annotated ∅ pre) d)
                  (waiting (started um c0 step0) (collected Annotated ∅ pre)))
        as (-> & _).
      rewrite !list_lookup_alter_eq. cbn [chain waiting]. rewrite Hcur. reflexivity.
    + done.
    + simpl. by destruct um.
  - apply executeNextStep_not_called in Hcalled as ([e He] & _).
    fold ex in He. congruence.
Qed.


(** C10. When the body of the response is read to its end and no
    [workflow_finished] callback has been called, the promise of
    [executeNextStep] stays unsettled, and the chain and its current step
    stay running. *)
Theorem exhausted_stream_never_settles (rev : revision) (fetch : network)
    (m : chains) (chainId : string) (um : option dict) (c0 : WorkflowChain)
    (step0 : WorkflowChainStep) (stepInputs0 : dict) (r : response)
    (chunks : list (list byte)) :
  let ex := executeNextStep rev fetch m chainId um in
  m !! chainId = Some c0 ->
  step_at c0 (currentStepIndex c0) = Some step0 ->
  called_with ex = Some stepInputs0 ->
  fetch (apiKey step0) stepInputs0 = Responds r ->
  ok r = true ->
  body r = Some (chunks, Done) ->
  (forall d, CallWorkflowFinished d ∉ effects ex) ->
  returned ex = Unsettled
  /\ awaited ex = Some AtDone
  /\ exists c' st',
       registry ex !! chainId = Some c'
       /\ chain_status c' = running
       /\ currentStepIndex c' = currentStepIndex c0
       /\ step_at c' (currentStepIndex c') = Some st'
       /\ step_status st' = running.
Proof.
  intros ex Hm Hstep Hcalled Hfetch Hok Hbody Hnone.
  apply executeNextStep_called in Hcalled
    as (c0' & step0' & how & s & s1 & Hm' & Hstep' & _ & Hrun & Haw & Hreg & Hset & Hout).
  fold ex in Hrun, Haw, Hreg, Hset, Hout.
  assert (c0' = c0) as -> by congruence.
  assert (step0' = step0) as -> by congruence.
  destruct (started_facts um c0 step0 Hstep) as (S1 & S2 & S3 & S4 & S5).
  destruct (step_at_Some _ _ _ Hstep) as [Hlt _].
  assert (how = AtDone) as ->.
  { rewrite Hfetch in Hrun.
    replace r with (with_body r chunks Done) in Hrun
      by (clear -Hbody; destruct r; simpl in *; by subst).
    rewrite executeCustomWorkflow_text in Hrun by done.
    unfold decode_text in Hrun.
    destruct (for_lines _ _ _) as [[[] ?] ?]; [|by injection Hrun as <-].
    injection Hrun as <- _ _.
    apply outcome_finished_log in Hout as (pre & d & Heff).
    exfalso. apply (Hnone d). rewrite Heff.
    apply elem_of_app. right. by apply list_elem_of_singleton. }
  apply outcome_exhausted_closure in Hout as ->.
  split; [by rewrite Hset|]. split; [done|].
  exists (started um c0 step0), (set_step_status running (current_step um step0)).
  rewrite Hreg.
  split; [apply lookup_insert_eq|].
  split; [done|]. split; [done|]. split; [|done].
  unfold step_at. rewrite S1.
  destruct (currentStepIndex c0 <? 0) eqn:Hneg; [apply Z.ltb_lt in Hneg; lia|].
  done.
Qed.

End Orchestrator.

(** * The inputs of a step *)

Section Inputs.

(** User modifications are spread last in every branch of the mapping. *)
Lemma chained_inputs_modifications (rev : revision) (defaults previous u ins : dict)
    (K : string) (v : json) :
  chained_inputs rev defaults previous (Some u) = inr ins ->
  u !! K = Some v -> ins !! K = Some v.
Proof.
  intros Hins Hu.
  assert (forall x : dict, spread2 x u !! K = Some v) as Hwin
    by (intros x; by apply lookup_union_Some_l).
  unfold chained_inputs in Hins.
  destruct (hides_hasOwnProperty defaults); [done|].
  destruct rev; unfold named_slots, generic_slot,
    with_modifications in Hins; simpl in Hins;
    repeat case_match; simplify_eq; apply Hwin.
Qed.

Section NonFirstStep.
Context (c : WorkflowChain) (currentStep previousStep : WorkflowChainStep).
Context (previous : dict).
Context (Hnonfirst : 0 < currentStepIndex c).
Context (Hprev : step_at c (currentStepIndex c - 1) = Some previousStep).
Context (Houts : outputs previousStep = Some previous).
Context (Hmethod : inputs currentStep !! "hasOwnProperty" = None).

Lemma stepInputs_chained (rev : revision) :
  stepInputs rev c currentStep =
    chained_inputs rev (inputs currentStep) previous (userModifications currentStep).
Proof.
  unfold stepInputs. apply Z.ltb_lt in Hnonfirst. by rewrite Hnonfirst, Hprev, Houts.
Qed.

Lemma method_visible : hides_hasOwnProperty (inputs currentStep) = false.
Proof.
  unfold hides_hasOwnProperty. rewrite Hmethod.
  apply bool_decide_eq_false_2. by intros [??].
Qed.

Lemma with_modifications_untouched (x : dict) (k : string) :
  untouched (userModifications currentStep) k ->
  with_modifications x (userModifications currentStep) !! k = x !! k.
Proof.
  unfold untouched, with_modifications, spread2. intros Hk.
  destruct (userModifications currentStep) as [u|]; simpl.
  - by rewrite lookup_union_r by eauto.
  - by rewrite (left_id_L ∅ (∪)).
Qed.

(** C3, amended. In the annotated revision ([unnamed/part_001]), for a
    step after the first that declares [second_input] and neither named
    slot (nor an input named [hasOwnProperty]), with a previous step that
    has outputs, and user modifications that do not set [second_input]:
    the effective [second_input] is the previous [agent_output] when that
    is truthy; otherwise the previous [current_de_op_output] when that is
    a non-empty string; and when neither is truthy, the mapping succeeds
    and [second_input] keeps its default. *)
Theorem generic_slot_resolution :
  is_Some (inputs currentStep !! "second_input") ->
  inputs currentStep !! "competitor_input" = None ->
  inputs currentStep !! "current_de_op_input" = None ->
  untouched (userModifications currentStep) "second_input" ->
  (forall a, previous !! "agent_output" = Some a -> truthy a = true ->
     exists ins, stepInputs Annotated c currentStep = inr ins
       /\ ins !! "second_input" = Some a)
  /\ (forall s, truthy_opt (previous !! "agent_output") = false ->
        previous !! "current_de_op_output" = Some (JStr s) -> s <> "" ->
        exists ins, stepInputs Annotated c currentStep = inr ins
          /\ ins !! "second_input" = Some (JStr s))
  /\ (truthy_opt (previous !! "agent_output") = false ->
      truthy_opt (previous !! "current_de_op_output") = false ->
      exists ins, stepInputs Annotated c currentStep = inr ins
        /\ ins !! "second_input" = inputs currentStep !! "second_input").
Proof.
  intros Hsecond Hc Hd Hum. rewrite stepInputs_chained.
  unfold chained_inputs. rewrite method_visible. unfold hasOwnProperty.
  rewrite Hc, Hd. rewrite !bool_decide_eq_false_2 by (by intros [??]).
  rewrite bool_decide_eq_true_2 by done. simpl. unfold generic_slot.
  split; [|split].
  - intros a Ha Ht. rewrite Ha. simpl. rewrite Ht.
    eexists. split; [done|].
    rewrite with_modifications_untouched by done. apply lookup_insert_eq.
  - intros s Ha Hs Hne. rewrite Ha, Hs. simpl.
    destruct (String.eqb_spec s ""); [done|]. simpl.
    eexists. split; [done|].
    rewrite with_modifications_untouched by done. apply lookup_insert_eq.
  - intros Ha Hs. rewrite Ha, Hs.
    eexists. split; [done|].
    by rewrite with_modifications_untouched.
Qed.

(** C4, amended. In the annotated revision ([unnamed/part_001]), for a
    step after the first that declares [competitor_input] or
    [current_de_op_input] (and no input named [hasOwnProperty]), with a
    previous step that has outputs: on the keys that the user
    modifications do not set, the effective inputs are the defaults,
    except that a declared [competitor_input] holds the previous
    [agent_output] when that is truthy, and a declared
    [current_de_op_input] the previous [current_de_op_output] when that is
    truthy; no other key is taken from the previous outputs; and the
    mapping succeeds when each field that would be copied is a string. *)
Theorem named_slots_resolution :
  is_Some (inputs currentStep !! "competitor_input")
  \/ is_Some (inputs currentStep !! "current_de_op_input") ->
  (forall ins, stepInputs Annotated c currentStep = inr ins ->
     (forall k, untouched (userModifications currentStep) k -> k <> "competitor_input" -> k <> "current_de_op_input" ->
        ins !! k = inputs currentStep !! k)
     /\ (untouched (userModifications currentStep) "competitor_input" ->
         ins !! "competitor_input" =
           if hasOwnProperty (inputs currentStep) "competitor_input"
              && truthy_opt (previous !! "agent_output")
           then previous !! "agent_output"
           else inputs currentStep !! "competitor_input")
     /\ (untouched (userModifications currentStep) "current_de_op_input" ->
         ins !! "current_de_op_input" =
           if hasOwnProperty (inputs currentStep) "current_de_op_input"
              && truthy_opt (previous !! "current_de_op_output")
           then previous !! "current_de_op_output"
           else inputs currentStep !! "current_de_op_input"))
  /\ ((is_Some (inputs currentStep !! "competitor_input") ->
       loggable (previous !! "agent_output")) ->
      (is_Some (inputs currentStep !! "current_de_op_input") ->
       loggable (previous !! "current_de_op_output")) ->
      exists ins, stepInputs Annotated c currentStep = inr ins).
Proof.
  intros Hdecl. rewrite stepInputs_chained. unfold chained_inputs.
  rewrite method_visible.
  assert (hasOwnProperty (inputs currentStep) "competitor_input"
          || hasOwnProperty (inputs currentStep) "current_de_op_input" = true) as ->.
  { unfold hasOwnProperty. destruct Hdecl as [H|H];
      rewrite (bool_decide_eq_true_2 _ H); [done|apply orb_true_r]. }
  unfold named_slots.
  set (copy1 := hasOwnProperty (inputs currentStep) "competitor_input"
                && truthy_opt (previous !! "agent_output")).
  set (copy2 := hasOwnProperty (inputs currentStep) "current_de_op_input"
                && truthy_opt (previous !! "current_de_op_output")).
  set (base := if copy1 then <["competitor_input" := _]> _ else _).
  set (mapped := if copy2 then <["current_de_op_input" := _]> base else base).
  assert (Hmapped : forall k,
            mapped !! k =
              if decide (k = "current_de_op_input") then
                if copy2 then Some (default JNull (previous !! "current_de_op_output"))
                else inputs currentStep !! k
              else if decide (k = "competitor_input") then
                if copy1 then Some (default JNull (previous !! "agent_output"))
                else inputs currentStep !! k
              else inputs currentStep !! k).
  { intros k. unfold mapped, base.
    destruct copy2, copy1; repeat case_decide; subst;
      repeat (rewrite lookup_insert_eq || rewrite lookup_insert_ne by done);
      done. }
  assert (Hfinal : forall k, untouched (userModifications currentStep) k ->
            match userModifications currentStep with
            | Some u => spread2 mapped u
            | None => mapped
            end !! k = mapped !! k).
  { intros k Hk. pose proof (with_modifications_untouched mapped k Hk) as Hw.
    unfold with_modifications, spread2 in *.
    destruct (userModifications currentStep); [done|].
    simpl in Hw. by rewrite (left_id_L ∅ (∪)) in Hw. }
  split.
  - intros ins Hins.
    assert (forall k, untouched (userModifications currentStep) k -> ins !! k = mapped !! k) as Hk.
    { intros k Hk.
      destruct (if copy1 then log_substring _ else _); [|done].
      destruct (if copy2 then log_substring _ else _); [|done].
      injection Hins as <-. by apply Hfinal. }
    clear Hins. split; [|split].
    + intros k Hu H1 H2. rewrite Hk, Hmapped by done.
      by rewrite !decide_False by done.
    + intros Hu. rewrite Hk, Hmapped by done.
      rewrite decide_False, decide_True by done.
      destruct copy1 eqn:H1; [|done].
      apply andb_true_iff in H1 as [_ H1].
      by destruct (previous !! "agent_output").
    + intros Hu. rewrite Hk, Hmapped by done.
      rewrite decide_True by done.
      destruct copy2 eqn:H2; [|done].
      apply andb_true_iff in H2 as [_ H2].
      by destruct (previous !! "current_de_op_output").
  - intros H1 H2.
    assert ((if copy1 then log_substring (default JNull (previous !! "agent_output"))
             else Some ()) = Some ()) as ->.
    { destruct copy1 eqn:Hc1; [|done].
      apply andb_true_iff in Hc1 as [Hd Ht].
      destruct H1 as [Hf|[s ->]]; [|congruence|done].
      by apply bool_decide_eq_true_1 in Hd. }
    assert ((if copy2 then log_substring (default JNull (previous !! "current_de_op_output"))
             else Some ()) = Some ()) as ->.
    { destruct copy2 eqn:Hc2; [|done].
      apply andb_true_iff in Hc2 as [Hd Ht].
      destruct H2 as [Hf|[s ->]]; [|congruence|done].
      by apply bool_decide_eq_true_1 in Hd. }
    eauto.
Qed.

End NonFirstStep.

End Inputs.

(** * Sequences of calls *)

Section Sequences.
Context `{P : Platform}.

(** C6, amended. After any sequence of calls, every stored chain has its
    cursor between 0 and the number of its steps; a completed chain has
    its cursor at the end; and a chain with at least one step whose
    cursor is at the end is completed. *)
Theorem cursor_invariant (rev : revision) (m : chains) (id : string)
    (c : WorkflowChain) :
  reachable rev m ->
  m !! id = Some c ->
  0 <= currentStepIndex c <= Z.of_nat (length (steps c))
  /\ (chain_status c = completed ->
      currentStepIndex c = Z.of_nat (length (steps c)))
  /\ (steps c <> [] ->
      currentStepIndex c = Z.of_nat (length (steps c)) ->
      chain_status c = completed).
Proof.
  intros Hr Hc. destruct (reachable_ok rev m Hr id c Hc) as [Hb Hd He _].
  auto.
Qed.

(** C5. After any sequence of calls, when a call that supplies user
    modifications reaches the workflow, the inputs it calls the workflow
    with hold, at every key the modifications set, the value they set,
    whichever branch of the mapping was taken. *)
Theorem modifications_override (rev : revision) (fetch : network) (m : chains)
    (chainId : string) (u ins : dict) (K : string) (v : json) :
  reachable rev m ->
  called_with (executeNextStep rev fetch m chainId (Some u)) = Some ins ->
  u !! K = Some v ->
  ins !! K = Some v.
Proof.
  intros Hr Hcalled Hu.
  apply executeNextStep_called in Hcalled
    as (c0 & step0 & _ & _ & _ & Hm & Hstep & Hins & _).
  pose proof (reachable_ok rev m Hr chainId c0 Hm) as Hok.
  destruct (prepared_facts (Some u) c0 step0 Hstep) as (H1 & _ & _ & H4 & _).
  destruct (step_at_Some _ _ _ Hstep) as [Hlt _].
  unfold stepInputs in Hins. rewrite H1 in Hins.
  destruct (0 <? currentStepIndex c0) eqn:Hpos.
  - apply Z.ltb_lt in Hpos.
    destruct (step_at (prepared (Some u) c0 step0) (currentStepIndex c0 - 1))
      as [previousStep|] eqn:Hprev; [|done].
    apply step_at_Some in Hprev as [_ Hprev].
    specialize (H4 (Z.to_nat (currentStepIndex c0 - 1))).
    rewrite Hprev in H4. simpl in H4.
    destruct (steps c0 !! Z.to_nat (currentStepIndex c0 - 1)) as [st|] eqn:Hst;
      [|done].
    simpl in H4. injection H4 as H4.
    destruct (outputs_before_cursor c0 Hok
                (Z.to_nat (currentStepIndex c0 - 1)) st) as [previous Hprevious];
      [lia|done|].
    rewrite H4, Hprevious in Hins. simpl in Hins.
    by eapply chained_inputs_modifications.
  - simpl in Hins. injection Hins as <-. by apply lookup_union_Some_l.
Qed.

End Sequences.

(** * The scenarios, run *)

Section Runs.
Import Text Scenario.

(** C1, where the code departs from it. An [error] event does not make
    [executeCustomWorkflow] fail: the [throw] sits inside the [try] whose
    [catch] warns about unparsable lines, so the error is logged as a
    warning, the next line is read and its [workflow_finished] callback is
    called; and when the stream ends after the [error] event, the promise
    of [executeNextStep] is left unsettled instead of rejected. *)
Theorem error_event_is_swallowed (rev : revision) :
  executeCustomWorkflow silent
    (streams [record (error_event "boom") +:+ record (workflow_finished [])]) tt
  = (AtFinished, tt,
     [Warn ("data: " +:+ print (error_event "boom")) (Error (JStr "boom"));
      CallWorkflowFinished (workflow_finished [])])
  /\ (let ex := executeNextStep rev (answers [record (error_event "boom")])
                  (createChain ∅ "chain" "Chain" [research]).1 "chain" None in
      returned ex = Unsettled
      /\ awaited ex = Some AtDone
      /\ effects ex
         = [Warn ("data: " +:+ print (error_event "boom")) (Error (JStr "boom"))]
      /\ chain_status <$> registry ex !! "chain" = Some running).
Proof.
  split; [reflexivity|]. destruct rev; repeat split; reflexivity.
Qed.

(** The reader gives back the events that the printer wrote. *)
Example events_read_back :
  parse (print (error_event "boom")) = Some (error_event "boom")
  /\ parse (print (workflow_failed "boom")) = Some (workflow_failed "boom")
  /\ parse (print (node_finished (only_agent "X"))) = Some (node_finished (only_agent "X"))
  /\ parse (print (workflow_finished empty_agent_with_operations))
     = Some (workflow_finished empty_agent_with_operations).
Proof. repeat split; reflexivity. Qed.

(** The chunks of the record of a finished workflow, cut in the middle of
    the line, are decoded as the whole record is. *)
Example split_record_decoded :
  executeCustomWorkflow silent
    (streams ["data: {"; substring_from 7 (record (workflow_finished []))]) tt
  = executeCustomWorkflow silent (streams [record (workflow_finished [])]) tt.
Proof. repeat split; reflexivity. Qed.

(** Scenario A. *)
Example single_step_completes :
  let ex := executeNextStep Annotated
              (answers [record (workflow_finished [("agent_output", JStr "result-1")])])
              (createChain ∅ "chain" "Chain" [research]).1 "chain" None in
  returned ex
  = Resolved {| stepId := "chain-step-0";
                result_outputs := {[ "agent_output" := JStr "result-1" ]};
                success := true |}
  /\ chain_status <$> registry ex !! "chain" = Some completed.
Proof. repeat split; reflexivity. Qed.

(** The older revision keeps the outputs of the [workflow_finished]
    event alone: what the nodes put out is not collected. *)
Example plain_revision_keeps_final_outputs_only :
  result_outputs
    <$> (match returned (executeNextStep Plain merging one_step "chain" None) with
         | Resolved r => Some r
         | _ => None
         end)
  = Some {[ "current_de_op_output" := JStr "Y" ]}.
Proof. reflexivity. Qed.

(** The older revision knows no named slots: it merges all the previous
    outputs into the inputs and leaves the slots at their defaults. *)
Example plain_revision_merges_everything :
  stepInputs Plain (chain_after named_analysis (only_agent "Y"))
    (second_step named_analysis (only_agent "Y"))
  = inr (<["agent_output" := JStr "Y"]>
           (inputs (second_step named_analysis (only_agent "Y")))).
Proof. reflexivity. Qed.

(** In the annotated revision, an [agent_output] that is not a string
    stops the call before the workflow is reached: the debugging output
    takes a substring of it. *)
Example number_output_stops_named_mapping :
  stepInputs Annotated (chain_after named_analysis [("agent_output", JNum 42 0)])
    (second_step named_analysis [("agent_output", JNum 42 0)])
  = inl TypeError.
Proof. reflexivity. Qed.

End Runs.

(** * Counterexamples and instances *)

Section Instances.
Import Text Scenario.

(** C3 as first stated fails: the first step put out an [agent_output]
    that is the empty string and a [current_de_op_output]; the second
    step, which declares [second_input] only, gets the operations output
    and not the agent output that is present. *)
Lemma empty_agent_output_is_passed_over :
  0 < currentStepIndex (chain_after generic_analysis empty_agent_with_operations)
  /\ outputs (first_step generic_analysis empty_agent_with_operations)
     = Some (fields_dict empty_agent_with_operations)
  /\ inputs (second_step generic_analysis empty_agent_with_operations)
     = {[ "second_input" := JStr "placeholder" ]}
  /\ userModifications (second_step generic_analysis empty_agent_with_operations) = None
  /\ fields_dict empty_agent_with_operations !! "agent_output" = Some (JStr "")
  /\ stepInputs Annotated (chain_after generic_analysis empty_agent_with_operations)
       (second_step generic_analysis empty_agent_with_operations)
     = inr {[ "second_input" := JStr "ops" ]}
  /\ ({[ "second_input" := JStr "ops" ]} : dict) !! "second_input"
     <> fields_dict empty_agent_with_operations !! "agent_output".
Proof.
  repeat (split; [reflexivity|]).
  change (Some (JStr "ops") <> Some (JStr "")). discriminate.
Qed.

(** C4 as first stated fails: the first step put out an [agent_output]
    that is the empty string; the second step declares both named slots;
    [competitor_input] keeps its default although the field that matches
    it is there. *)
Lemma empty_agent_output_is_not_copied :
  0 < currentStepIndex (chain_after named_analysis (only_agent ""))
  /\ outputs (first_step named_analysis (only_agent ""))
     = Some {[ "agent_output" := JStr "" ]}
  /\ userModifications (second_step named_analysis (only_agent "")) = None
  /\ inputs (second_step named_analysis (only_agent "")) !! "competitor_input"
     = Some (JStr "Will be populated from agent_output")
  /\ stepInputs Annotated (chain_after named_analysis (only_agent ""))
       (second_step named_analysis (only_agent ""))
     = inr (inputs (second_step named_analysis (only_agent "")))
  /\ inputs (second_step named_analysis (only_agent "")) !! "competitor_input"
     <> ({[ "agent_output" := JStr "" ]} : dict) !! "agent_output".
Proof.
  repeat (split; [reflexivity|]).
  change (Some (JStr "Will be populated from agent_output") <> Some (JStr "")).
  discriminate.
Qed.

(** C6 as first stated fails: a chain created with no steps has its
    cursor at the end, 0, and is pending, not completed. *)
Lemma empty_chain_is_pending :
  reachable Annotated (createChain ∅ "empty" "Empty" []).1
  /\ (createChain ∅ "empty" "Empty" []).1 !! "empty"
     = Some (createChain ∅ "empty" "Empty" []).2
  /\ currentStepIndex (createChain ∅ "empty" "Empty" []).2
     = Z.of_nat (length (steps (createChain ∅ "empty" "Empty" []).2))
  /\ chain_status (createChain ∅ "empty" "Empty" []).2 = pending
  /\ pending <> completed.
Proof.
  split; [apply reachable_createChain, reachable_new|].
  repeat split; done.
Qed.

(** C2 as first stated fails on the revision stored as
    [service/workflow-chain.ts]: a node puts out [agent_output] and the
    [workflow_finished] event puts out [current_de_op_output]; the call
    succeeds, and the outputs of the result, which are those stored on
    the step, lack the [agent_output] that the merge of the fragments
    holds. *)
Lemma plain_revision_drops_node_outputs :
  effects (executeNextStep Plain merging one_step "chain" None)
  = [CallNodeFinished (node_finished (only_agent "X"));
     CallWorkflowFinished (workflow_finished [("current_de_op_output", JStr "Y")])]
  /\ returned (executeNextStep Plain merging one_step "chain" None)
     = Resolved {| stepId := "chain-step-0";
                   result_outputs := {[ "current_de_op_output" := JStr "Y" ]};
                   success := true |}
  /\ (registry (executeNextStep Plain merging one_step "chain" None) !! "chain"
        ≫= fun c => steps c !! 0%nat ≫= outputs)
     = Some {[ "current_de_op_output" := JStr "Y" ]}
  /\ spread2 (merged_node_outputs [CallNodeFinished (node_finished (only_agent "X"))])
       (carried_outputs (workflow_finished [("current_de_op_output", JStr "Y")]))
     = {[ "agent_output" := JStr "X"; "current_de_op_output" := JStr "Y" ]}
  /\ ({[ "current_de_op_output" := JStr "Y" ]} : dict) !! "agent_output"
     <> ({[ "agent_output" := JStr "X"; "current_de_op_output" := JStr "Y" ]} : dict)
          !! "agent_output".
Proof.
  repeat (split; [reflexivity|]).
  change (None <> Some (JStr "X")). discriminate.
Qed.

(** The instances: each theorem with hypotheses, at a scenario. *)

Lemma outputs_are_merged_instance :
  returned (executeNextStep Annotated merging one_step "chain" None)
  = Resolved merged_result
  /\ exists pre d c0 c' st',
       effects (executeNextStep Annotated merging one_step "chain" None)
       = (pre ++ [CallWorkflowFinished d])%list
       /\ result_outputs merged_result
          = spread2 (merged_node_outputs pre) (carried_outputs d)
       /\ success merged_result = true
       /\ one_step !! "chain" = Some c0
       /\ registry (executeNextStep Annotated merging one_step "chain" None) !! "chain"
          = Some c'
       /\ steps c' !! Z.to_nat (currentStepIndex c0) = Some st'
       /\ outputs st' = Some (result_outputs merged_result)
       /\ step_id st' = stepId merged_result.
Proof.
  split; [reflexivity|].
  apply (outputs_are_merged merging one_step "chain" None merged_result).
  reflexivity.
Defined.

Lemma generic_slot_resolution_instance :
  0 < currentStepIndex (chain_after generic_analysis (only_agent "X"))
  /\ step_at (chain_after generic_analysis (only_agent "X"))
       (currentStepIndex (chain_after generic_analysis (only_agent "X")) - 1)
     = Some (first_step generic_analysis (only_agent "X"))
  /\ outputs (first_step generic_analysis (only_agent "X"))
     = Some (fields_dict (only_agent "X"))
  /\ inputs (second_step generic_analysis (only_agent "X")) !! "hasOwnProperty" = None
  /\ inputs (second_step generic_analysis (only_agent "X")) !! "second_input"
     = Some (JStr "placeholder")
  /\ inputs (second_step generic_analysis (only_agent "X")) !! "competitor_input" = None
  /\ inputs (second_step generic_analysis (only_agent "X")) !! "current_de_op_input" = None
  /\ userModifications (second_step generic_analysis (only_agent "X")) = None
  /\ fields_dict (only_agent "X") !! "agent_output" = Some (JStr "X")
  /\ exists ins,
       stepInputs Annotated (chain_after generic_analysis (only_agent "X"))
         (second_step generic_analysis (only_agent "X")) = inr ins
       /\ ins !! "second_input" = Some (JStr "X").
Proof.
  repeat (split; [reflexivity|]).
  apply (proj1 (generic_slot_resolution
                  (chain_after generic_analysis (only_agent "X"))
                  (second_step generic_analysis (only_agent "X"))
                  (first_step generic_analysis (only_agent "X"))
                  (fields_dict (only_agent "X"))
                  ltac:(reflexivity) ltac:(reflexivity) ltac:(reflexivity)
                  ltac:(reflexivity)
                  ltac:(eexists; reflexivity) ltac:(reflexivity)
                  ltac:(reflexivity)
                  ltac:(intros u Hu; discriminate Hu))).
  - reflexivity.
  - reflexivity.
Defined.

Lemma named_slots_resolution_instance :
  0 < currentStepIndex (chain_after named_analysis (only_agent "Y"))
  /\ step_at (chain_after named_analysis (only_agent "Y"))
       (currentStepIndex (chain_after named_analysis (only_agent "Y")) - 1)
     = Some (first_step named_analysis (only_agent "Y"))
  /\ outputs (first_step named_analysis (only_agent "Y"))
     = Some (fields_dict (only_agent "Y"))
  /\ inputs (second_step named_analysis (only_agent "Y")) !! "hasOwnProperty" = None
  /\ inputs (second_step named_analysis (only_agent "Y")) !! "competitor_input"
     = Some (JStr "Will be populated from agent_output")
  /\ fields_dict (only_agent "Y") !! "agent_output" = Some (JStr "Y")
  /\ fields_dict (only_agent "Y") !! "current_de_op_output" = None
  /\ exists ins,
       stepInputs Annotated (chain_after named_analysis (only_agent "Y"))
         (second_step named_analysis (only_agent "Y")) = inr ins.
Proof.
  repeat (split; [reflexivity|]).
  apply (proj2 (named_slots_resolution
                  (chain_after named_analysis (only_agent "Y"))
                  (second_step named_analysis (only_agent "Y"))
                  (first_step named_analysis (only_agent "Y"))
                  (fields_dict (only_agent "Y"))
                  ltac:(reflexivity) ltac:(reflexivity) ltac:(reflexivity)
                  ltac:(reflexivity)
                  ltac:(left; eexists; reflexivity))).
  - intros _. right. exists "Y". reflexivity.
  - intros _. left. reflexivity.
Defined.

Lemma modifications_override_instance :
  reachable Annotated chained
  /\ called_with (executeNextStep Annotated succeeding chained "chain"
                   (Some modification))
     = Some modification
  /\ modification !! "second_input" = Some (JStr "z")
  /\ modification !! "second_input" = Some (JStr "z").
Proof.
  assert (reachable Annotated chained) as Hr
    by apply reachable_executeNextStep, reachable_createChain, reachable_new.
  split; [exact Hr|]. split; [reflexivity|]. split; [reflexivity|].
  apply (modifications_override Annotated succeeding chained "chain"
           modification modification "second_input" (JStr "z") Hr);
    reflexivity.
Defined.

Lemma cursor_invariant_instance :
  reachable Annotated chained
  /\ chained !! "chain" = Some (chain_after generic_analysis (only_agent "X"))
  /\ (0 <= currentStepIndex (chain_after generic_analysis (only_agent "X"))
        <= Z.of_nat (length (steps (chain_after generic_analysis (only_agent "X"))))
     /\ (chain_status (chain_after generic_analysis (only_agent "X")) = completed ->
         currentStepIndex (chain_after generic_analysis (only_agent "X"))
         = Z.of_nat (length (steps (chain_after generic_analysis (only_agent "X")))))
     /\ (steps (chain_after generic_analysis (only_agent "X")) <> [] ->
         currentStepIndex (chain_after generic_analysis (only_agent "X"))
         = Z.of_nat (length (steps (chain_after generic_analysis (only_agent "X")))) ->
         chain_status (chain_after generic_analysis (only_agent "X")) = completed)).
Proof.
  assert (reachable Annotated chained) as Hr
    by apply reachable_executeNextStep, reachable_createChain, reachable_new.
  split; [exact Hr|]. split; [reflexivity|].
  apply (cursor_invariant Annotated chained "chain"
           (chain_after generic_analysis (only_agent "X")) Hr).
  reflexivity.
Defined.


Lemma exhausted_stream_never_settles_instance :
  one_step !! "chain" = Some one_step_chain
  /\ step_at one_step_chain (currentStepIndex one_step_chain) = Some its_step
  /\ called_with (executeNextStep Annotated unfinished one_step "chain" None)
     = Some research_inputs
  /\ unfinished (apiKey its_step) research_inputs = Responds unfinished_response
  /\ ok unfinished_response = true
  /\ body unfinished_response
     = Some (bytes <$> [record (node_finished (only_agent "X"))], Done)
  /\ effects (executeNextStep Annotated unfinished one_step "chain" None)
     = [CallNodeFinished (node_finished (only_agent "X"))]
  /\ returned (executeNextStep Annotated unfinished one_step "chain" None) = Unsettled
  /\ awaited (executeNextStep Annotated unfinished one_step "chain" None) = Some AtDone
  /\ exists c' st',
       registry (executeNextStep Annotated unfinished one_step "chain" None) !! "chain"
       = Some c'
       /\ chain_status c' = running
       /\ currentStepIndex c' = currentStepIndex one_step_chain
       /\ step_at c' (currentStepIndex c') = Some st'
       /\ step_status st' = running.
Proof.
  assert (effects (executeNextStep Annotated unfinished one_step "chain" None)
          = [CallNodeFinished (node_finished (only_agent "X"))]) as Heff
    by reflexivity.
  repeat (split; [reflexivity|]).
  apply (exhausted_stream_never_settles Annotated unfinished one_step "chain" None
           one_step_chain its_step research_inputs unfinished_response
           (bytes <$> [record (node_finished (only_agent "X"))])
           ltac:(reflexivity) ltac:(reflexivity) ltac:(reflexivity)
           ltac:(reflexivity) ltac:(reflexivity) ltac:(reflexivity)).
  intros d Hd. rewrite Heff in Hd.
  apply list_elem_of_singleton in Hd. discriminate Hd.
Defined.

End Instances.

(** * More of the decoder *)

Section DecoderLines.
Context `{P : Platform}.

Lemma cut_no_line_feed (s : string) : no_line_feed s = true -> cut s = ([], s).
Proof.
  induction s as [|c s IH]; [done|]. simpl.
  intros [Hc Hs]%andb_prop. rewrite IH by done.
  by destruct (Ascii.eqb c newline).
Qed.

Lemma cut_line (line rest : string) :
  no_line_feed line = true ->
  cut (line +:+ String newline rest) = (line :: (cut rest).1, (cut rest).2).
Proof.
  induction line as [|c line IH]; simpl.
  - intros _. rewrite ?append_empty_l. simpl. by destruct (cut rest).
  - intros [Hc Hs]%andb_prop. rewrite ?append_String. simpl. rewrite IH by done.
    by destruct (Ascii.eqb c newline).
Qed.

Lemma cut_after_lines (a b : string) :
  (cut a).2 = EmptyString ->
  cut (a +:+ b) = (((cut a).1 ++ (cut b).1)%list, (cut b).2).
Proof. intros Ha. by rewrite cut_append, Ha, append_empty_l. Qed.

Lemma decode_chunks_app (dec : decoder_state) (a b : list (list byte)) :
  exists dec', decode_chunks dec (a ++ b) = decode_chunks dec a +:+ decode_chunks dec' b.
Proof.
  revert dec. induction a as [|value a IH]; intros dec; simpl.
  - by exists dec.
  - destruct (decode dec value) as [dec1 text]. destruct (IH dec1) as [dec' ->].
    exists dec'. by rewrite append_assoc.
Qed.

Section Lines.
Context {S : Type} (callbacks : Callbacks S).

(** A line that changes no state and calls nothing, removed from among
    the lines: the loop ends the same way, with the same state; its log
    lacks what the line put in, if the line was reached. *)
Lemma for_lines_without (line : string) (w : list effect) (l1 l2 : list string)
    (s : S) :
  (forall s, for_line callbacks line s = (false, s, w)) ->
  exists b s' log1 log2,
    for_lines callbacks (l1 ++ l2) s = (b, s', (log1 ++ log2)%list)
    /\ (for_lines callbacks (l1 ++ line :: l2) s = (b, s', (log1 ++ log2)%list)
        \/ for_lines callbacks (l1 ++ line :: l2) s
           = (b, s', (log1 ++ w ++ log2)%list)).
Proof.
  intros Hline. rewrite !for_lines_app.
  destruct (for_lines callbacks l1 s) as [[[] s1] log1].
  - exists true, s1, log1, []. rewrite app_nil_r. auto.
  - simpl. rewrite Hline.
    destruct (for_lines callbacks l2 s1) as [[b s2] log2].
    exists b, s2, log1, log2. auto.
Qed.

Lemma decode_text_without (line : string) (w : list effect) (a b : string)
    (ending : stream_end) (s : S) :
  (forall s, for_line callbacks line s = (false, s, w)) ->
  (cut a).2 = EmptyString ->
  no_line_feed line = true ->
  exists how s' log1 log2,
    decode_text callbacks (a +:+ b) ending s = (how, s', (log1 ++ log2)%list)
    /\ (decode_text callbacks (a +:+ line +:+ String newline b) ending s
          = (how, s', (log1 ++ log2)%list)
        \/ decode_text callbacks (a +:+ line +:+ String newline b) ending s
          = (how, s', (log1 ++ w ++ log2)%list)).
Proof.
  intros Hline Ha Hl. unfold decode_text.
  rewrite !cut_after_lines by done. rewrite cut_line by done. cbn [fst snd].
  destruct (for_lines_without line w (cut a).1 (cut b).1 s Hline)
    as (r & s' & log1 & log2 & -> & [-> | ->]);
    destruct r; eauto 10.
Qed.

Lemma passed_over_for_line (line : string) (s : S) :
  passed_over line = true -> for_line callbacks line s = (false, s, []).
Proof.
  unfold passed_over, for_line, try_line.
  destruct (String.eqb (trim line) "" || negb (startsWith "data: " line)); [done|].
  simpl. by intros ->.
Qed.

Lemma unknown_event_for_line (line : string) (s : S) :
  passed_over line = false -> unknown_event line ->
  for_line callbacks line s = (false, s, []).
Proof.
  unfold passed_over, for_line, try_line.
  intros Hp (data & ev & Hparse & Hev & Hname).
  apply orb_false_elim in Hp as [-> ->]. rewrite Hparse.
  unfold dispatch. rewrite Hev.
  destruct ev as [[| | |name| |]|]; try done.
  specialize (Hname name eq_refl).
  assert (forall known, known ∈ known_events -> String.eqb name known = false)
    as Hneq.
  { intros known Hk. apply String.eqb_neq. by intros ->. }
  unfold known_events in Hneq.
  rewrite !Hneq; [done|..]; set_solver.
Qed.

Lemma malformed_for_line (line : string) (s : S) :
  malformed line -> for_line callbacks line s = (false, s, [Warn line SyntaxError]).
Proof.
  unfold malformed, passed_over, for_line, try_line.
  intros [Hp Hparse]. apply orb_false_elim in Hp as [-> ->]. by rewrite Hparse.
Qed.

(** X1. Once the [workflow_finished] callback has returned, nothing more
    is read: whatever chunks follow in the body, and however the stream
    would end after them, even with a failing read, the run ends the same
    way with the same state and the same log. *)
Theorem nothing_is_read_after_the_end (r : response)
    (chunks more : list (list byte)) (ending ending' : stream_end)
    (s s' : S) (log : list effect) :
  executeCustomWorkflow callbacks (Responds (with_body r chunks ending)) s
    = (AtFinished, s', log) ->
  executeCustomWorkflow callbacks (Responds (with_body r (chunks ++ more) ending')) s
    = (AtFinished, s', log).
Proof.
  unfold executeCustomWorkflow. simpl.
  destruct (ok r); simpl; [|done].
  generalize decoder_start, EmptyString. revert s s' log.
  induction chunks as [|value rest IH]; intros s s' log dec buffer; simpl.
  - by destruct ending.
  - destruct (decode dec value) as [dec' text].
    destruct (for_lines callbacks _ s) as [[[] s1] log1]; [done|].
    destruct (read_loop callbacks dec' _ rest ending s1) as [[how s2] log2] eqn:Hrest.
    intros [= -> -> <-].
    by rewrite (IH _ _ _ _ _ Hrest).
Qed.

(** X2. What follows the last line feed of the body is never processed:
    a last chunk that brings no line feed, be it a whole
    [workflow_finished] record, changes nothing. *)
Theorem unterminated_line_is_dropped (r : response)
    (chunks : list (list byte)) (tail : list byte) (text : string)
    (ending : stream_end) (s : S) :
  decode_chunks decoder_start (chunks ++ [tail])
    = decode_chunks decoder_start chunks +:+ text ->
  no_line_feed text = true ->
  executeCustomWorkflow callbacks (Responds (with_body r (chunks ++ [tail]) ending)) s
  = executeCustomWorkflow callbacks (Responds (with_body r chunks ending)) s.
Proof.
  intros Htext Hnl.
  destruct (ok r) eqn:Hok.
  - rewrite !executeCustomWorkflow_text by done. rewrite Htext.
    unfold decode_text. rewrite cut_append.
    rewrite (cut_no_line_feed ((cut _).2 +:+ text)); [by rewrite app_nil_r|].
    pose proof (cut_rest (decode_chunks decoder_start chunks)) as Hrest.
    revert Hrest. generalize (cut (decode_chunks decoder_start chunks)).2.
    intros t Ht. clear -Ht Hnl.
    induction t as [|c t IH]; [done|].
    simpl in Ht. rewrite append_String. simpl.
    destruct (cut t) as [ls tl] eqn:Hcut.
    destruct (Ascii.eqb c newline); [done|]. simpl.
    apply IH. destruct ls; [|done]. simpl in Ht. congruence.
  - unfold executeCustomWorkflow. simpl. by rewrite Hok.
Qed.

(** X3. A line that the loop passes over (blank, not starting with
    [data: ], or empty after the prefix) and a line whose event the
    [switch] has no case for leave no trace: the body with such a line
    among its lines is decoded as the body without it. *)
Theorem ignored_line_leaves_no_trace (r : response)
    (chunks chunks' : list (list byte)) (before line after : string)
    (ending : stream_end) (s : S) :
  decode_chunks decoder_start chunks = before +:+ line +:+ String newline after ->
  decode_chunks decoder_start chunks' = before +:+ after ->
  (cut before).2 = EmptyString ->
  no_line_feed line = true ->
  passed_over line = true \/ unknown_event line ->
  executeCustomWorkflow callbacks (Responds (with_body r chunks ending)) s
  = executeCustomWorkflow callbacks (Responds (with_body r chunks' ending)) s.
Proof.
  intros Hwith Hwithout Hbefore Hline Hignored.
  destruct (ok r) eqn:Hok.
  - rewrite !executeCustomWorkflow_text by done. rewrite Hwith, Hwithout.
    assert (forall s, for_line callbacks line s = (false, s, [])) as Hfor.
    { intros s0. destruct (passed_over line) eqn:Hp.
      - by apply passed_over_for_line.
      - destruct Hignored as [?|Hu]; [done|]. by apply unknown_event_for_line. }
    destruct (decode_text_without line [] before after ending s Hfor Hbefore Hline)
      as (how & s' & log1 & log2 & -> & [-> | ->]); done.
  - unfold executeCustomWorkflow. simpl. by rewrite Hok.
Qed.

(** The lines before a line that changes no state, the line, and the
    rest: when the lines before make the function return, the line and
    the rest are not looked at; otherwise the log is that of the lines
    before, what the line puts in, and the log of the rest. *)
Lemma decode_text_around (line : string) (w : list effect) (before after : string)
    (ending : stream_end) (s s1 : S) (how0 : exit) (log1 : list effect) :
  (forall s, for_line callbacks line s = (false, s, w)) ->
  (cut before).2 = EmptyString ->
  no_line_feed line = true ->
  decode_text callbacks before Done s = (how0, s1, log1) ->
  (how0 = AtFinished
   /\ decode_text callbacks (before +:+ after) ending s = (AtFinished, s1, log1)
   /\ decode_text callbacks (before +:+ line +:+ String newline after) ending s
      = (AtFinished, s1, log1))
  \/ (how0 = AtDone
      /\ forall how s' log2,
           decode_text callbacks after ending s1 = (how, s', log2) ->
           decode_text callbacks (before +:+ after) ending s
             = (how, s', (log1 ++ log2)%list)
           /\ decode_text callbacks (before +:+ line +:+ String newline after)
                ending s
              = (how, s', (log1 ++ w ++ log2)%list)).
Proof.
  intros Hline Hbefore Hl. unfold decode_text.
  rewrite !cut_after_lines by done. rewrite cut_line by done. cbn [fst snd].
  rewrite !for_lines_app.
  destruct (for_lines callbacks (cut before).1 s) as [[[] s0] log0];
    intros [= <- <- <-].
  - left. done.
  - right. split; [done|]. intros how s' log2. simpl. rewrite Hline.
    destruct (for_lines callbacks (cut after).1 s0) as [[[] s2] l2];
      intros [= <- <- <-]; done.
Qed.

(** X4. A [data: ] line whose payload is not JSON costs one warning and
    nothing else.  Take a body whose text is some complete lines, that
    line, and a rest.  When the lines before make the function return,
    the body is decoded as those lines alone, with or without the line.
    Otherwise the body is decoded as the body without the line, with the
    same end, the same state and the same calls; and its log is the log
    of the lines before, then one warning that names the line with a
    SyntaxError, then the log of the rest. *)
Theorem malformed_line_only_warns (r : response)
    (chunks chunks' head tail : list (list byte)) (before line after : string)
    (ending : stream_end) (s s1 : S) (how0 : exit) (log1 : list effect) :
  ok r = true ->
  decode_chunks decoder_start chunks = before +:+ line +:+ String newline after ->
  decode_chunks decoder_start chunks' = before +:+ after ->
  decode_chunks decoder_start head = before ->
  decode_chunks decoder_start tail = after ->
  (cut before).2 = EmptyString ->
  no_line_feed line = true ->
  malformed line ->
  executeCustomWorkflow callbacks (Responds (with_body r head Done)) s
    = (how0, s1, log1) ->
  (how0 = AtFinished
   /\ executeCustomWorkflow callbacks (Responds (with_body r chunks' ending)) s
      = (AtFinished, s1, log1)
   /\ executeCustomWorkflow callbacks (Responds (with_body r chunks ending)) s
      = (AtFinished, s1, log1))
  \/ (how0 = AtDone
      /\ forall how s' log2,
           executeCustomWorkflow callbacks (Responds (with_body r tail ending)) s1
             = (how, s', log2) ->
           executeCustomWorkflow callbacks (Responds (with_body r chunks' ending)) s
             = (how, s', (log1 ++ log2)%list)
           /\ executeCustomWorkflow callbacks (Responds (with_body r chunks ending)) s
              = (how, s', (log1 ++ Warn line SyntaxError :: log2)%list)).
Proof.
  intros Hok Hwith Hwithout Hhead Htail Hbefore Hline Hbad.
  rewrite !executeCustomWorkflow_text by done.
  rewrite Hwith, Hwithout, Hhead, Htail.
  apply (decode_text_around line [Warn line SyntaxError]); try done.
  intros s0. by apply malformed_for_line.
Qed.

Lemma read_loop_throws (dec : decoder_state) (buffer : string)
    (chunks : list (list byte)) (ending : stream_end) (s s' : S)
    (e : js_error) (log : list effect) :
  read_loop callbacks dec buffer chunks ending s = (AtThrow e, s', log) ->
  ending = ReadFails e.
Proof.
  revert dec buffer s log. induction chunks as [|value rest IH];
    intros dec buffer s log; simpl.
  - destruct ending; intros [= <- <- <-]; done.
  - destruct (decode dec value) as [dec' text].
    destruct (for_lines callbacks _ s) as [[[] s1] log1]; [done|].
    destruct (read_loop callbacks dec' _ rest ending s1) as [[how s2] log2] eqn:Hrest.
    intros [= -> -> <-]. by eapply IH.
Qed.

(** X28. Nothing that is thrown while a line is handled leaves the
    function: not a payload that is not JSON, not an [error] event, not an
    exception of a callback.  When [executeCustomWorkflow] throws, it
    throws what [fetch] was rejected with, the error of a response that
    is not ok or has no body, or what a read of the stream was rejected
    with. *)
Theorem only_the_transport_throws (answer : fetched) (s s' : S) (e : js_error)
    (log : list effect) :
  executeCustomWorkflow callbacks answer s = (AtThrow e, s', log) ->
  answer = FetchFails e
  \/ exists r,
       answer = Responds r
       /\ (ok r = false
           /\ e = Error (JStr ("Workflow API error: " +:+ decimal (status r)
                                 +:+ " " +:+ statusText r))
           \/ ok r = true /\ body r = None
              /\ e = Error (JStr "No response body received from workflow API")
           \/ ok r = true /\ exists chunks, body r = Some (chunks, ReadFails e)).
Proof.
  unfold executeCustomWorkflow.
  destruct answer as [r|e0]; [|intros [= <- <- <-]; by left].
  intros Hrun. right. exists r. split; [done|].
  destruct (ok r); simpl in Hrun.
  - destruct (body r) as [[chunks ending]|].
    + apply read_loop_throws in Hrun as ->. right. right. eauto.
    + injection Hrun as <- <- <-. right. left. done.
  - injection Hrun as <- <- <-. by left.
Qed.

End Lines.

End DecoderLines.

(** * More of the orchestrator *)

Section Blueprints.
Context `{P : Platform}.

Lemma design_alter (i : nat) (f : WorkflowChainStep -> WorkflowChainStep)
    (l : list WorkflowChainStep) :
  (forall st, l !! i = Some st -> design (f st) = design st) ->
  design <$> alter f i l = design <$> l.
Proof.
  intros Hf. apply list_eq. intros j.
  rewrite !list_lookup_fmap, list_lookup_alter.
  case_decide as Hij; [subst j|done].
  destruct (l !! i) as [st|] eqn:Hst; [|done]. simpl. by rewrite Hf.
Qed.

Lemma blueprint_update_step (i : nat) (f : WorkflowChainStep -> WorkflowChainStep)
    (c : WorkflowChain) :
  (forall st, steps c !! i = Some st -> design (f st) = design st) ->
  blueprint (update_step i f c) = blueprint c.
Proof. intros Hf. unfold blueprint. simpl. by rewrite design_alter. Qed.

Lemma design_current_step (um : option dict) (st : WorkflowChainStep) :
  design (current_step um st) = design st.
Proof. by destruct um. Qed.

Lemma blueprint_prepared (um : option dict) (c0 : WorkflowChain)
    (step0 : WorkflowChainStep) :
  step_at c0 (currentStepIndex c0) = Some step0 ->
  blueprint (prepared um c0 step0) = blueprint c0.
Proof.
  intros [_ Hlook]%step_at_Some. apply blueprint_update_step.
  intros st Hst. rewrite Hlook in Hst. injection Hst as <-.
  apply design_current_step.
Qed.

Lemma blueprint_started (um : option dict) (c0 : WorkflowChain)
    (step0 : WorkflowChainStep) :
  step_at c0 (currentStepIndex c0) = Some step0 ->
  blueprint (started um c0 step0) = blueprint c0.
Proof.
  intros Hstep. rewrite <- (blueprint_prepared um c0 step0 Hstep).
  unfold started. by apply (blueprint_update_step _ _ (prepared um c0 step0)).
Qed.

Lemma blueprint_fail_step (i : nat) (c : WorkflowChain) :
  blueprint (fail_step i c) = blueprint c.
Proof. unfold fail_step. by apply (blueprint_update_step i _ c). Qed.

Lemma blueprint_complete_step (i : nat) (sid : string) (outs : dict) (s : closure) :
  blueprint (chain (complete_step i sid outs s)) = blueprint (chain s).
Proof.
  unfold complete_step. cbn [chain].
  transitivity (blueprint (update_step i (set_step_status completed)
                             (update_step i (set_outputs (Some outs)) (chain s)))).
  - by destruct (_ <=? _).
  - rewrite blueprint_update_step by done. by apply blueprint_update_step.
Qed.

(** The two shapes of the closure that a call leaves: the step
    completed and the promise resolved, or the promise not resolved and
    the chain as it was started, failed or not. *)
Lemma outcome_cases (rev : revision) (i : nat) (sid : string) (c : WorkflowChain)
    (how : exit) (log : list effect) (s : closure) :
  outcome rev i sid c how log s ->
  (exists pre d,
     how = AtFinished
     /\ log = (pre ++ [CallWorkflowFinished d])%list
     /\ truthy_opt (carried_error d) = false
     /\ s = complete_step i sid (final_outputs rev (collected rev ∅ pre) d)
              (waiting c (collected rev ∅ pre)))
  \/ ((forall r, settled s <> Resolved r)
      /\ (chain s = c /\ settled s = Unsettled /\ how = AtDone
          \/ exists e, chain s = fail_step i c /\ settled s = Rejected e
               /\ how <> AtDone)).
Proof.
  intros [e l|l|pre d err He Ht|pre d Hd].
  - right. split; [done|]. right. by exists e.
  - right. split; [done|]. by left.
  - right. split; [done|]. right. by exists (Error err).
  - left. by exists pre, d.
Qed.

Lemma blueprint_outcome (rev : revision) (um : option dict) (c0 : WorkflowChain)
    (step0 : WorkflowChainStep) (sid : string) (how : exit) (log : list effect)
    (s : closure) :
  step_at c0 (currentStepIndex c0) = Some step0 ->
  outcome rev (Z.to_nat (currentStepIndex c0)) sid (started um c0 step0) how log s ->
  blueprint (chain s) = blueprint c0.
Proof.
  intros Hstep [e l|l|pre d err _ _|pre d _]; cbn [chain fail_with waiting].
  - by rewrite blueprint_fail_step, blueprint_started.
  - by apply blueprint_started.
  - by rewrite blueprint_fail_step, blueprint_started.
  - rewrite blueprint_complete_step. by apply blueprint_started.
Qed.

(** What a call does to the registry: it replaces the chain it was
    called on, if at all. *)
Lemma executeNextStep_registry (rev : revision) (fetch : network) (m : chains)
    (chainId : string) (um : option dict) :
  let ex := executeNextStep rev fetch m chainId um in
  registry ex = m
  \/ exists c0 c', m !! chainId = Some c0
       /\ registry ex = <[chainId := c']> m
       /\ blueprint c' = blueprint c0.
Proof.
  intros ex.
  destruct (called_with ex) as [ins|] eqn:Hcalled.
  - apply executeNextStep_called in Hcalled
      as (c0 & step0 & how & s & s1 & Hm & Hstep & _ & _ & _ & Hreg & _ & Hout).
    right. exists c0, (chain s). repeat split; [done|done|].
    by eapply blueprint_outcome.
  - apply executeNextStep_not_called in Hcalled
      as (_ & _ & [Hreg|(c0 & step0 & Hm & Hstep & Hreg)]); [by left|].
    right. exists c0, (prepared um c0 step0). repeat split; [done|done|].
    by apply blueprint_prepared.
Qed.

Lemma blueprint_executeNextStep (rev : revision) (fetch : network) (m : chains)
    (chainId : string) (um : option dict) (id : string) :
  blueprint <$> registry (executeNextStep rev fetch m chainId um) !! id
  = blueprint <$> m !! id.
Proof.
  destruct (executeNextStep_registry rev fetch m chainId um)
    as [->|(c0 & c' & Hm & -> & Hb)]; [done|].
  destruct (decide (chainId = id)) as [->|Hne].
  - by rewrite lookup_insert_eq, Hm; simpl; rewrite Hb.
  - by rewrite lookup_insert_ne.
Qed.

Lemma design_reset_step (st : WorkflowChainStep) : design (reset_step st) = design st.
Proof. done. Qed.

Lemma blueprint_restarted (c : WorkflowChain) : blueprint (restarted c) = blueprint c.
Proof.
  unfold blueprint, restarted. simpl. f_equal.
  rewrite <- list_fmap_compose. by apply list_fmap_ext.
Qed.

Lemma resetChain_lookup (m : chains) (chainId id : string) :
  resetChain m chainId !! id =
    if decide (chainId = id) then restarted <$> m !! id else m !! id.
Proof.
  unfold resetChain. case_decide as Hid; [subst id|].
  - destruct (m !! chainId) as [c|] eqn:Hm; [|by rewrite Hm].
    by rewrite lookup_insert_eq.
  - destruct (m !! chainId) as [c|] eqn:Hm; [|done].
    by rewrite lookup_insert_ne.
Qed.

Lemma blueprint_resetChain (m : chains) (chainId id : string) :
  blueprint <$> resetChain m chainId !! id = blueprint <$> m !! id.
Proof.
  rewrite resetChain_lookup. case_decide; [|done].
  destruct (m !! id) as [c|]; [|done]. simpl. by rewrite blueprint_restarted.
Qed.

End Blueprints.

Section Manager.
Context `{P : Platform}.

(** X5. A call of [executeNextStep] touches the chain it is called on
    and no other; it adds no chain and removes none; and of the chain it
    touches it changes neither the id, the name, the number of steps, nor
    any step's id, name, workflow, key, declared inputs or
    [allowUserEdit]. *)
Theorem call_changes_one_chain_only (rev : revision) (fetch : network) (m : chains)
    (chainId : string) (um : option dict) :
  let ex := executeNextStep rev fetch m chainId um in
  (forall id, id <> chainId -> registry ex !! id = m !! id)
  /\ (forall id, blueprint <$> registry ex !! id = blueprint <$> m !! id).
Proof.
  intros ex. split.
  - intros id Hne.
    destruct (executeNextStep_registry rev fetch m chainId um)
      as [Hreg|(c0 & c' & Hm & Hreg & Hb)]; fold ex in Hreg; rewrite Hreg; [done|].
    by rewrite lookup_insert_ne.
  - intros id. apply blueprint_executeNextStep.
Qed.

(** X6. In either revision, a call that succeeds moves the cursor of its
    chain by exactly one; the step it ran is completed, holds the outputs
    of the result and the modifications of the call (or those it had, if
    the call gave none), and gives the result its id; the chain is
    completed when that step was the last one and pending otherwise; and
    no other step has changed. *)
Theorem success_advances_by_one (rev : revision) (fetch : network) (m : chains)
    (chainId : string) (um : option dict) (r : ChainStepResult) :
  let ex := executeNextStep rev fetch m chainId um in
  returned ex = Resolved r ->
  exists c0 step0 c' st',
    m !! chainId = Some c0
    /\ step_at c0 (currentStepIndex c0) = Some step0
    /\ registry ex !! chainId = Some c'
    /\ currentStepIndex c' = currentStepIndex c0 + 1
    /\ chain_status c' =
         (if currentStepIndex c0 + 1 <? Z.of_nat (length (steps c0))
          then pending else completed)
    /\ steps c' !! Z.to_nat (currentStepIndex c0) = Some st'
    /\ step_status st' = completed
    /\ outputs st' = Some (result_outputs r)
    /\ userModifications st' = from_option Some (userModifications step0) um
    /\ stepId r = step_id step0
    /\ success r = true
    /\ forall j, j <> Z.to_nat (currentStepIndex c0) -> steps c' !! j = steps c0 !! j.
Proof.
  intros ex Hret.
  destruct (called_with ex) as [ins|] eqn:Hcalled.
  - apply executeNextStep_called in Hcalled
      as (c0 & step0 & how & s & s1 & Hm & Hstep & _ & _ & _ & Hreg & Hset & Hout).
    fold ex in Hreg, Hset, Hout. rewrite Hset in Hret.
    apply outcome_cases in Hout
      as [(pre & d & -> & Hlog & Hd & ->)|[Hno _]]; [|by destruct (Hno r)].
    destruct (complete_step_facts (Z.to_nat (currentStepIndex c0)) (step_id step0)
                (final_outputs rev (collected rev ∅ pre) d)
                (waiting (started um c0 step0) (collected rev ∅ pre)))
      as (Hsteps & Hcur & Hstat & Hres).
    rewrite Hres in Hret. simpl in Hret. injection Hret as <-.
    destruct (started_facts um c0 step0 Hstep) as (H1 & H2 & H3 & H4 & H5).
    cbn [chain waiting] in Hsteps, Hcur, Hstat.
    set (done_step := complete_step (Z.to_nat (currentStepIndex c0)) (step_id step0)
                        (final_outputs rev (collected rev ∅ pre) d)
                        (waiting (started um c0 step0) (collected rev ∅ pre))) in *.
    exists c0, step0, (chain done_step),
      (set_step_status completed
         (set_outputs (Some (final_outputs rev (collected rev ∅ pre) d))
            (set_step_status running (current_step um step0)))).
    rewrite Hreg, lookup_insert_eq.
    split; [done|]. split; [done|]. split; [done|].
    split; [by rewrite Hcur, H1|].
    split.
    { rewrite Hstat, H3, H1.
      destruct (Z.leb_spec (Z.of_nat (length (steps c0))) (currentStepIndex c0 + 1)),
               (Z.ltb_spec (currentStepIndex c0 + 1) (Z.of_nat (length (steps c0))));
        done || lia. }
    split.
    { by rewrite Hsteps, !list_lookup_alter_eq, H5. }
    do 5 (split; [by destruct um|]).
    intros j Hj. rewrite Hsteps, !list_lookup_alter_ne by done.
    unfold started, prepared. simpl. by rewrite !list_lookup_alter_ne.
  - apply executeNextStep_not_called in Hcalled as ([e He] & _).
    fold ex in He. congruence.
Qed.

(** X7. A call either succeeds and moves the cursor by exactly one, or
    does not succeed (it is rejected, or its promise stays unsettled) and
    leaves the cursor and the outputs of every step as they were. *)
Theorem cursor_moves_only_on_success (rev : revision) (fetch : network) (m : chains)
    (chainId : string) (um : option dict) (c0 : WorkflowChain) :
  let ex := executeNextStep rev fetch m chainId um in
  m !! chainId = Some c0 ->
  exists c',
    registry ex !! chainId = Some c'
    /\ ((exists r, returned ex = Resolved r)
        /\ currentStepIndex c' = currentStepIndex c0 + 1
        \/ (forall r, returned ex <> Resolved r)
           /\ currentStepIndex c' = currentStepIndex c0
           /\ outputs <$> steps c' = outputs <$> steps c0).
Proof.
  intros ex Hm0.
  assert (forall c c' : WorkflowChain,
            (forall j, outputs <$> steps c' !! j = outputs <$> steps c !! j) ->
            outputs <$> steps c' = outputs <$> steps c) as Hlist.
  { intros c c' H. apply list_eq. intros j. by rewrite !list_lookup_fmap. }
  destruct (called_with ex) as [ins|] eqn:Hcalled.
  - apply executeNextStep_called in Hcalled
      as (c1 & step0 & how & s & s1 & Hm & Hstep & _ & _ & _ & Hreg & Hset & Hout).
    fold ex in Hreg, Hset, Hout. rewrite Hm0 in Hm. injection Hm as <-.
    exists (chain s). rewrite Hreg, lookup_insert_eq, Hset. split; [done|].
    destruct (started_facts um c0 step0 Hstep) as (H1 & H2 & H3 & H4 & H5).
    apply outcome_cases in Hout
      as [(pre & d & -> & Hlog & Hd & ->)|[Hno [(-> & _)|(e & -> & _)]]].
    + left. split; [by eexists|].
      edestruct complete_step_facts as (_ & Hcur & _). rewrite Hcur.
      cbn [chain waiting]. by rewrite H1.
    + right. auto.
    + right. split; [done|].
      destruct (fail_step_facts (started um c0 step0) (Z.to_nat (currentStepIndex c0)))
        as (G1 & _ & _ & G4 & _).
      split; [congruence|]. apply Hlist. intros j. by rewrite G4.
  - apply executeNextStep_not_called in Hcalled
      as ([e He] & _ & [Hreg|(c1 & step0 & Hm & Hstep & Hreg)]);
      fold ex in He, Hreg; rewrite Hreg, He.
    + exists c0. split; [done|]. right. done.
    + rewrite Hm0 in Hm. injection Hm as <-.
      exists (prepared um c0 step0). rewrite lookup_insert_eq. split; [done|].
      destruct (prepared_facts um c0 step0 Hstep) as (H1 & _ & _ & H4 & _).
      right. auto.
Qed.

(** X8. In the revision stored as [service/workflow-chain.ts], the
    outputs of a successful step are those of the [workflow_finished]
    event alone: what the [node_finished] events carried is not kept. *)
Theorem plain_outputs_are_those_of_the_final_event (fetch : network) (m : chains)
    (chainId : string) (um : option dict) (r : ChainStepResult) :
  let ex := executeNextStep Plain fetch m chainId um in
  returned ex = Resolved r ->
  exists pre d,
    effects ex = (pre ++ [CallWorkflowFinished d])%list
    /\ truthy_opt (carried_error d) = false
    /\ result_outputs r = carried_outputs d.
Proof.
  intros ex Hret.
  destruct (called_with ex) as [ins|] eqn:Hcalled.
  - apply executeNextStep_called in Hcalled
      as (c0 & step0 & how & s & s1 & Hm & Hstep & _ & _ & _ & Hreg & Hset & Hout).
    fold ex in Hreg, Hset, Hout. rewrite Hset in Hret.
    apply outcome_cases in Hout
      as [(pre & d & -> & Hlog & Hd & ->)|[Hno _]]; [|by destruct (Hno r)].
    exists pre, d. simpl in Hret. injection Hret as <-. done.
  - apply executeNextStep_not_called in Hcalled as ([e He] & _).
    fold ex in He. congruence.
Qed.

End Manager.

Section Queries.
Context `{P : Platform}.

Lemma stepInputs_TypeError (rev : revision) (c : WorkflowChain)
    (st : WorkflowChainStep) (e : js_error) :
  stepInputs rev c st = inl e -> e = TypeError.
Proof.
  unfold stepInputs, chained_inputs, named_slots, generic_slot.
  destruct rev; repeat case_match; congruence.
Qed.

(** X9. [hasNextStep] tells what [executeNextStep] will do.  When it is
    false the call is rejected at once, with [Chain <id> not found] for
    an unknown id and [No more steps in chain <id>] otherwise, and the
    registry is left as it was.  When it is true, after any sequence of
    calls, the call finds a step: it reaches the workflow, unless the
    mapping of the inputs throws a TypeError. *)
Theorem hasNextStep_foretells_the_call (rev : revision) (fetch : network)
    (m : chains) (chainId : string) (um : option dict) :
  reachable rev m ->
  let ex := executeNextStep rev fetch m chainId um in
  (hasNextStep m chainId = false ->
     returned ex =
       Rejected (Error (JStr (match getChain m chainId with
                              | None => "Chain " +:+ chainId +:+ " not found"
                              | Some _ => "No more steps in chain " +:+ chainId
                              end)))
     /\ registry ex = m /\ called_with ex = None /\ effects ex = [])
  /\ (hasNextStep m chainId = true ->
        is_Some (called_with ex) \/ returned ex = Rejected TypeError).
Proof.
  intros Hr ex. subst ex. unfold hasNextStep, getChain, executeNextStep.
  destruct (m !! chainId) as [c0|] eqn:Hm; [|by split].
  destruct (reachable_ok rev m Hr chainId c0 Hm) as [Hb _ _ _].
  unfold step_at. split.
  - intros Hlt%Z.ltb_ge.
    destruct (currentStepIndex c0 <? 0); [done|].
    by rewrite lookup_ge_None_2 by lia.
  - intros Hlt%Z.ltb_lt.
    destruct (Z.ltb_spec (currentStepIndex c0) 0) as [|_]; [lia|].
    destruct (lookup_lt_is_Some_2 (steps c0) (Z.to_nat (currentStepIndex c0)))
      as [step0 ->]; [lia|].
    destruct (stepInputs rev _ _) as [e|ins] eqn:Hins.
    + right. simpl. by rewrite (stepInputs_TypeError _ _ _ _ Hins).
    + left. by destruct (executeCustomWorkflow _ _ _) as [[??]?].
Qed.

(** X10. After any sequence of calls the queries agree with one another:
    [hasNextStep] holds exactly when [getCurrentStep] returns a step; a
    chain that [isChainCompleted] has no next step; and a chain with
    steps that has no next step is completed. *)
Theorem queries_agree (rev : revision) (m : chains) (chainId : string) :
  reachable rev m ->
  (hasNextStep m chainId = true <-> is_Some (getCurrentStep m chainId))
  /\ (isChainCompleted m chainId = true -> hasNextStep m chainId = false)
  /\ (forall c, getChain m chainId = Some c -> steps c <> [] ->
        hasNextStep m chainId = false -> isChainCompleted m chainId = true).
Proof.
  intros Hr. unfold hasNextStep, getCurrentStep, isChainCompleted, getChain.
  destruct (m !! chainId) as [c0|] eqn:Hm.
  - destruct (reachable_ok rev m Hr chainId c0 Hm) as [Hb Hc He _].
    unfold step_at. split; [|split].
    + destruct (Z.ltb_spec (currentStepIndex c0) 0) as [|_]; [lia|].
      rewrite Z.ltb_lt, lookup_lt_is_Some. lia.
    + destruct (chain_status c0) eqn:Hs; try done. intros _.
      apply Z.ltb_ge. rewrite Hc by done. lia.
    + intros c [= <-] Hne Hlt%Z.ltb_ge. rewrite He; [done|lia|done].
  - split; [|by split]. split; [done|]. by intros [??].
Qed.

End Queries.

Section Names.
Context `{P : Platform}.

Lemma decimal_inj (i j : nat) : decimal i = decimal j -> i = j.
Proof.
  unfold decimal. intros H.
  assert (forall n, Nat.to_uint n <> Decimal.Nil) as Hnil.
  { intros n Hn. pose proof (DecimalNat.Unsigned.to_of (Nat.to_uint n)) as Hto.
    rewrite DecimalNat.Unsigned.of_to, Hn in Hto. discriminate Hto. }
  apply DecimalNat.Unsigned.to_uint_inj.
  pose proof (NilZero.usu _ (Hnil i)) as Hi.
  pose proof (NilZero.usu _ (Hnil j)) as Hj.
  congruence.
Qed.

Lemma append_cancel (a b c : string) : a +:+ b = a +:+ c -> b = c.
Proof.
  induction a as [|x a IH]; [done|].
  rewrite !append_String. intros [= H]. auto.
Qed.

(** Every stored chain still has the id, the name and the steps that
    some call of [createChain] with its key gave it. *)
Lemma reachable_blueprint (rev : revision) (m : chains) :
  reachable rev m ->
  forall id c, m !! id = Some c ->
    exists name defs, blueprint c = blueprint (createChain ∅ id name defs).2.
Proof.
  induction 1 as [|m id0 name defs _ IH|m fetch id0 um _ IH|m id0 _ IH|m id0 _ IH];
    intros id c Hc.
  - by rewrite lookup_empty in Hc.
  - simpl in Hc. apply lookup_insert_Some in Hc as [[<- <-]|[_ Hc]]; [|by eauto].
    by exists name, defs.
  - pose proof (blueprint_executeNextStep rev fetch m id0 um id) as Hb.
    rewrite Hc in Hb. simpl in Hb.
    destruct (m !! id) as [c0|] eqn:Hm; [|done].
    apply (inj Some) in Hb. rewrite Hb. by eapply IH.
  - pose proof (blueprint_resetChain m id0 id) as Hb.
    rewrite Hc in Hb. simpl in Hb.
    destruct (m !! id) as [c0|] eqn:Hm; [|done].
    apply (inj Some) in Hb. rewrite Hb. by eapply IH.
  - simpl in Hc. apply lookup_delete_Some in Hc as [_ Hc]. by eauto.
Qed.

(** X11. After any sequence of calls, a stored chain carries the id it
    is stored under, and its step number [j] has the id
    [<chain id>-step-<j>]: the ids of the steps of a chain are pairwise
    distinct, so that the [stepId] of a result names one step. *)
Theorem step_ids_name_their_place (rev : revision) (m : chains) (id : string)
    (c : WorkflowChain) :
  reachable rev m ->
  m !! id = Some c ->
  chain_id c = id
  /\ (forall j st, steps c !! j = Some st ->
        step_id st = id +:+ "-step-" +:+ decimal j)
  /\ NoDup (step_id <$> steps c).
Proof.
  intros Hr Hc.
  destruct (reachable_blueprint rev m Hr id c Hc) as (name & defs & Hb).
  unfold blueprint in Hb. simpl in Hb. injection Hb as Hid Hname Hsteps.
  assert (forall j st, steps c !! j = Some st ->
            step_id st = id +:+ "-step-" +:+ decimal j) as Hids.
  { intros j st Hst.
    apply (f_equal (fun l => l !! j)) in Hsteps.
    rewrite !list_lookup_fmap, Hst, list_lookup_imap in Hsteps.
    destruct (defs !! j) as [d|]; [|done]. simpl in Hsteps.
    by injection Hsteps as -> _. }
  split; [done|]. split; [done|].
  apply NoDup_alt. intros i j sid.
  rewrite !list_lookup_fmap.
  destruct (steps c !! i) as [sti|] eqn:Hi; [|done].
  destruct (steps c !! j) as [stj|] eqn:Hj; [|done].
  simpl. intros [= <-] [= Heq].
  rewrite (Hids i sti Hi), (Hids j stj Hj) in Heq.
  by apply append_cancel, append_cancel, decimal_inj in Heq.
Qed.

End Names.

Section HistoryFacts.
Context `{P : Platform}.

Lemma later_blueprint (rev : revision) (id : string) (m m' : chains) :
  later rev id m m' -> blueprint <$> m' !! id = blueprint <$> m !! id.
Proof.
  induction 1 as [|m' fetch id0 um _ IH|m' id0 _ IH|m' id0 name defs _ IH Hne
                  |m' id0 _ IH Hne].
  - done.
  - by rewrite blueprint_executeNextStep.
  - by rewrite blueprint_resetChain.
  - simpl. by rewrite lookup_insert_ne.
  - simpl. by rewrite lookup_delete_ne.
Qed.

Lemma reset_step_design (st st' : WorkflowChainStep) :
  design st = design st' -> reset_step st = reset_step st'.
Proof.
  destruct st, st'. unfold design, reset_step. simpl. by intros [= -> -> -> -> -> ->].
Qed.

Lemma restarted_blueprint (c c' : WorkflowChain) :
  blueprint c = blueprint c' -> restarted c = restarted c'.
Proof.
  destruct c as [id name l i s], c' as [id' name' l' i' s'].
  unfold blueprint, restarted, set_steps, set_chain_status, set_currentStepIndex.
  simpl. intros [= -> -> Hl]. f_equal.
  revert l' Hl. induction l as [|st l IH]; intros [|st' l']; simpl; try done.
  intros [= H1 H2 H3 H4 H5 H6 Hl]. f_equal; [|by apply IH].
  apply reset_step_design. unfold design. by rewrite H1, H2, H3, H4, H5, H6.
Qed.

Lemma restarted_createChain (m : chains) (id name : string)
    (defs : list StepDefinition) :
  forallb blank defs = true ->
  restarted (createChain m id name defs).2 = (createChain m id name defs).2.
Proof.
  intros Hblank.
  unfold restarted, createChain, set_steps, set_chain_status, set_currentStepIndex.
  simpl. f_equal.
  rewrite fmap_imap. apply imap_ext. intros j d Hd. simpl.
  rewrite forallb_forall in Hblank.
  specialize (Hblank d). rewrite <- list_elem_of_In in Hblank.
  apply list_elem_of_lookup_2 in Hd. apply Hblank in Hd.
  unfold blank in Hd. apply andb_prop in Hd as [Ho Hu].
  apply bool_decide_eq_true in Ho, Hu.
  unfold reset_step, new_step. simpl. by rewrite Ho, Hu.
Qed.

(** X12. The reset law. A chain created from definitions without
    outputs and modifications, then run, failed, retried and reset in any
    way, with other chains created and deleted meanwhile, is by
    [resetChain] made again exactly the chain that [createChain]
    returned. *)
Theorem resetChain_restores_the_created_chain (rev : revision) (m0 m' : chains)
    (id name : string) (defs : list StepDefinition) :
  forallb blank defs = true ->
  later rev id (createChain m0 id name defs).1 m' ->
  getChain (resetChain m' id) id = Some (createChain m0 id name defs).2.
Proof.
  intros Hblank Hlater. unfold getChain.
  apply later_blueprint in Hlater.
  rewrite resetChain_lookup, decide_True by done.
  simpl in Hlater. rewrite lookup_insert_eq in Hlater.
  destruct (m' !! id) as [c'|]; [|done]. simpl in *.
  apply (inj Some) in Hlater.
  rewrite (restarted_blueprint _ _ Hlater).
  f_equal. by apply (restarted_createChain m0).
Qed.

Lemma stepInputs_ext (rev : revision) (c c' : WorkflowChain)
    (st st' : WorkflowChainStep) :
  currentStepIndex c' = currentStepIndex c ->
  (forall j, outputs <$> steps c' !! j = outputs <$> steps c !! j) ->
  inputs st' = inputs st ->
  userModifications st' = userModifications st ->
  stepInputs rev c' st' = stepInputs rev c st.
Proof.
  intros Hi Ho Hin Hum. unfold stepInputs, step_at. rewrite Hi, Hin, Hum.
  destruct (0 <? currentStepIndex c); [|done].
  destruct (currentStepIndex c - 1 <? 0); [done|].
  specialize (Ho (Z.to_nat (currentStepIndex c - 1))).
  destruct (steps c' !! _) as [p'|], (steps c !! _) as [p|]; simpl in Ho; try done.
  by injection Ho as ->.
Qed.

(** X13. The modifications of an attempt are remembered.  When a call
    reached the workflow and did not succeed, a second call on the same
    chain that gives no modifications calls the workflow with the very
    inputs of the first, whatever the network answers. *)
Theorem retry_sends_the_same_inputs (rev : revision) (fetch fetch' : network)
    (m : chains) (chainId : string) (um : option dict) (ins : dict) :
  let ex := executeNextStep rev fetch m chainId um in
  called_with ex = Some ins ->
  (forall r, returned ex <> Resolved r) ->
  called_with (executeNextStep rev fetch' (registry ex) chainId None) = Some ins.
Proof.
  intros ex Hcalled Hno.
  apply executeNextStep_called in Hcalled
    as (c0 & step0 & how & s & s1 & Hm & Hstep & Hins & _ & _ & Hreg & Hset & Hout).
  fold ex in Hreg, Hset, Hout. rewrite Hset in Hno.
  destruct (prepared_facts um c0 step0 Hstep) as (P1 & _ & _ & P4 & _).
  destruct (started_facts um c0 step0 Hstep) as (H1 & _ & H3 & H4 & H5).
  destruct (step_at_Some _ _ _ Hstep) as [Hlt _].
  set (i := Z.to_nat (currentStepIndex c0)) in *.
  assert (exists st1,
            currentStepIndex (chain s) = currentStepIndex c0
            /\ (forall j, outputs <$> steps (chain s) !! j = outputs <$> steps c0 !! j)
            /\ steps (chain s) !! i = Some st1
            /\ inputs st1 = inputs (current_step um step0)
            /\ userModifications st1 = userModifications (current_step um step0))
    as (st1 & C1 & C4 & C5 & Cin & Cum).
  { apply outcome_cases in Hout
      as [(pre & d & -> & Hlog & Hd & ->)|[_ [(-> & _)|(e & -> & _)]]].
    - edestruct complete_step_facts as (_ & _ & _ & Hres).
      rewrite Hres in Hno. exfalso. by eapply Hno.
    - by eexists.
    - destruct (fail_step_facts (started um c0 step0) i) as (G1 & _ & _ & G4 & G5).
      eexists. split; [congruence|]. split; [intros j; by rewrite G4|].
      split; [by rewrite G5, H5|]. done. }
  rewrite Hreg. unfold executeNextStep. rewrite lookup_insert_eq.
  unfold step_at at 1. rewrite C1.
  destruct (Z.ltb_spec (currentStepIndex c0) 0) as [|_]; [lia|].
  fold i. rewrite C5.
  rewrite (stepInputs_ext rev (prepared um c0 step0) _ (current_step um step0) st1),
    Hins; try done.
  - by destruct (executeCustomWorkflow _ _ _) as [[??]?].
  - intros j. rewrite P4, <- C4.
    apply update_step_outputs. intros st Hst. rewrite C5 in Hst. by injection Hst as <-.
Qed.

(** X14. A deleted chain stays deleted.  Whatever calls of
    [executeNextStep] and [resetChain] follow a [deleteChain], on that id
    or another, and whatever other chains are created and deleted, the id
    is unknown until [createChain] is called with it: the queries answer
    as for an id never used, [resetChain] does nothing, [executeNextStep]
    is rejected with [Chain <id> not found] and changes nothing, and
    another [deleteChain] changes nothing; in the annotated revision it
    returns false, in the other revision it returns nothing. *)
Theorem deleted_chain_stays_unknown (rev : revision) (fetch : network)
    (m m' : chains) (chainId : string) (um : option dict) :
  later rev chainId (deleteChain rev m chainId).1 m' ->
  getChain m' chainId = None
  /\ getCurrentStep m' chainId = None
  /\ isChainCompleted m' chainId = false
  /\ hasNextStep m' chainId = false
  /\ resetChain m' chainId = m'
  /\ returned (executeNextStep rev fetch m' chainId um)
     = Rejected (Error (JStr ("Chain " +:+ chainId +:+ " not found")))
  /\ registry (executeNextStep rev fetch m' chainId um) = m'
  /\ deleteChain rev m' chainId
     = (m', match rev with Plain => None | Annotated => Some false end).
Proof.
  intros Hlater. apply later_blueprint in Hlater.
  simpl in Hlater. rewrite lookup_delete_eq in Hlater.
  assert (m' !! chainId = None) as Hnone
    by (by destruct (m' !! chainId)).
  unfold getChain, getCurrentStep, isChainCompleted, hasNextStep, resetChain,
    executeNextStep, deleteChain.
  rewrite !Hnone. repeat split; try done.
  rewrite delete_id by done. by destruct rev.
Qed.

Lemma with_modifications_None (x : dict) : with_modifications x None = x.
Proof. unfold with_modifications. simpl. apply spread2_empty. Qed.

(** A call on a chain whose cursor is at its first step sends the
    declared inputs of that step overlaid with the modifications. *)
Lemma first_step_call (rev : revision) (fetch : network) (m : chains)
    (chainId : string) (um : option dict) (c : WorkflowChain)
    (st : WorkflowChainStep) :
  m !! chainId = Some c ->
  currentStepIndex c = 0 ->
  steps c !! 0%nat = Some st ->
  called_with (executeNextStep rev fetch m chainId um)
  = Some (with_modifications (inputs st)
            (from_option Some (userModifications st) um)).
Proof.
  intros Hm Hi Hst. unfold executeNextStep, step_at, stepInputs.
  rewrite Hm, Hi. change (0 <? 0) with false. change (Z.to_nat 0) with 0%nat.
  cbv iota. rewrite Hst.
  assert (forall f, currentStepIndex (update_step 0 f c) = 0) as Hcur
    by (intros; exact Hi).
  rewrite Hcur. change (0 <? 0) with false. cbv iota.
  assert (forall x, with_modifications (inputs st) (Some x) = spread2 (inputs st) x)
    as Hsome by done.
  destruct um as [u|]; simpl.
  - rewrite Hsome. by destruct (executeCustomWorkflow _ _ _) as [[??]?].
  - destruct (userModifications st) as [u|]; simpl.
    + rewrite Hsome. by destruct (executeCustomWorkflow _ _ _) as [[??]?].
    + rewrite with_modifications_None.
      by destruct (executeCustomWorkflow _ _ _) as [[??]?].
Qed.

(** X15. [resetChain] forgets what was remembered: done twice it does
    what it does once, it touches no other chain, and the call that
    follows it reaches the workflow with the declared inputs of the first
    step, overlaid with the modifications of that call alone. *)
Theorem resetChain_forgets (rev : revision) (fetch : network) (m : chains)
    (chainId : string) (um : option dict) :
  resetChain (resetChain m chainId) chainId = resetChain m chainId
  /\ (forall id, id <> chainId -> getChain (resetChain m chainId) id = getChain m id)
  /\ (forall c st, getChain m chainId = Some c -> steps c !! 0%nat = Some st ->
        called_with (executeNextStep rev fetch (resetChain m chainId) chainId um)
        = Some (with_modifications (inputs st) um)).
Proof.
  unfold getChain. split; [|split].
  - apply map_eq. intros id. rewrite !resetChain_lookup.
    destruct (decide (chainId = id)) as [->|Hne]; [|done].
    destruct (m !! id) as [c|]; [|done]. simpl. f_equal.
    unfold restarted, set_steps, set_chain_status, set_currentStepIndex.
    simpl. f_equal.
    rewrite <- list_fmap_compose. by apply list_fmap_ext.
  - intros id Hne. rewrite resetChain_lookup. by rewrite decide_False.
  - intros c st Hc Hst.
    rewrite (first_step_call rev fetch _ chainId um (restarted c) (reset_step st)).
    + by destruct um.
    + by rewrite resetChain_lookup, decide_True, Hc.
    + done.
    + simpl. by rewrite list_lookup_fmap, Hst.
Qed.

(** X16. The first call on a chain just created reaches the workflow,
    whatever its inputs are named, with the inputs of the first
    definition overlaid with the modifications of the call, or with those
    of the definition when the call gives none. *)
Theorem first_call_sends_the_defined_inputs (rev : revision) (fetch : network)
    (m : chains) (id name : string) (defs : list StepDefinition)
    (d : StepDefinition) (um : option dict) :
  defs !! 0%nat = Some d ->
  called_with (executeNextStep rev fetch (createChain m id name defs).1 id um)
  = Some (with_modifications (def_inputs d)
            (from_option Some (def_userModifications d) um)).
Proof.
  intros Hd.
  rewrite (first_step_call rev fetch _ id um (createChain m id name defs).2
             (new_step id 0 d)).
  - done.
  - simpl. by rewrite lookup_insert_eq.
  - done.
  - simpl. by rewrite list_lookup_imap, Hd.
Qed.

End HistoryFacts.

Section Refusals.
Context `{P : Platform}.

(** X17. When the service cannot be reached, answers with a status that
    is not ok, or answers without a body, no callback is called and the
    call is rejected: with what [fetch] was rejected with, with
    [Workflow API error: <status> <statusText>], or with
    [No response body received from workflow API]; the chain is failed
    and its cursor has not moved. *)
Theorem refused_request_rejects_the_call (rev : revision) (fetch : network)
    (m : chains) (chainId : string) (um : option dict) (step0 : WorkflowChainStep)
    (ins : dict) (e : js_error) :
  let ex := executeNextStep rev fetch m chainId um in
  getCurrentStep m chainId = Some step0 ->
  called_with ex = Some ins ->
  (fetch (apiKey step0) ins = FetchFails e
   \/ exists r, fetch (apiKey step0) ins = Responds r
        /\ (ok r = false
            /\ e = Error (JStr ("Workflow API error: " +:+ decimal (status r)
                                  +:+ " " +:+ statusText r))
            \/ ok r = true /\ body r = None
               /\ e = Error (JStr "No response body received from workflow API"))) ->
  returned ex = Rejected e
  /\ awaited ex = Some (AtThrow e)
  /\ effects ex = []
  /\ exists c0 c',
       getChain m chainId = Some c0
       /\ getChain (registry ex) chainId = Some c'
       /\ chain_status c' = failed
       /\ currentStepIndex c' = currentStepIndex c0.
Proof.
  intros ex Hcur Hcalled Hanswer.
  apply executeNextStep_called in Hcalled
    as (c0 & step1 & how & s & s1 & Hm & Hstep & _ & Hrun & Haw & Hreg & Hset & Hout).
  fold ex in Hrun, Haw, Hreg, Hset, Hout.
  unfold getCurrentStep in Hcur. rewrite Hm, Hstep in Hcur. injection Hcur as ->.
  assert (how = AtThrow e /\ effects ex = []) as [-> Heff].
  { unfold executeCustomWorkflow in Hrun.
    destruct Hanswer as [Ha|(r & Ha & [[Hok ->]|(Hok & Hbody & ->)])];
      rewrite Ha in Hrun; [|rewrite Hok in Hrun|rewrite Hok, Hbody in Hrun];
      simpl in Hrun; by injection Hrun as <- _ <-. }
  rewrite Heff in Hout.
  destruct (started_facts um c0 step0 Hstep) as (H1 & _).
  inversion Hout; subst.
  rewrite Hset, Haw, Hreg. unfold getChain. rewrite lookup_insert_eq.
  repeat split; try done.
  eexists c0, _. repeat split; try done.
Qed.

(** X18. A call that is rejected before it reaches the workflow (unknown
    chain, no step left, or a TypeError in the mapping of the inputs)
    calls nothing and marks nothing: every chain keeps its status, its
    cursor, and the status and the outputs of each step. *)
Theorem early_rejection_marks_nothing (rev : revision) (fetch : network)
    (m : chains) (chainId : string) (um : option dict) :
  let ex := executeNextStep rev fetch m chainId um in
  called_with ex = None ->
  (exists e, returned ex = Rejected e)
  /\ effects ex = []
  /\ forall id,
       chain_status <$> registry ex !! id = chain_status <$> m !! id
       /\ currentStepIndex <$> registry ex !! id = currentStepIndex <$> m !! id
       /\ (fun c => (step_status <$> steps c, outputs <$> steps c)) <$> registry ex !! id
          = (fun c => (step_status <$> steps c, outputs <$> steps c)) <$> m !! id.
Proof.
  intros ex Hcalled.
  apply executeNextStep_not_called in Hcalled
    as (He & Heff & [Hreg|(c0 & step0 & Hm & Hstep & Hreg)]);
    fold ex in He, Heff, Hreg; (split; [done|]); (split; [done|]); intros id;
    rewrite Hreg; [done|].
  destruct (decide (chainId = id)) as [<-|Hne]; [|by rewrite lookup_insert_ne].
  rewrite lookup_insert_eq, Hm. simpl.
  destruct (step_at_Some _ _ _ Hstep) as [_ Hlook].
  repeat split. f_equal. f_equal.
  - apply list_eq. intros j. rewrite !list_lookup_fmap, list_lookup_alter.
    case_decide; [subst j|done]. rewrite Hlook. simpl. by destruct um.
  - apply list_eq. intros j. rewrite !list_lookup_fmap, list_lookup_alter.
    case_decide; [subst j|done]. rewrite Hlook. simpl. by destruct um.
Qed.

End Refusals.

Section Mapping.
Context `{P : Platform}.
Context (c : WorkflowChain) (currentStep previousStep : WorkflowChainStep).
Context (previous : dict).
Context (Hnonfirst : 0 < currentStepIndex c).
Context (Hprev : step_at c (currentStepIndex c - 1) = Some previousStep).
Context (Houts : outputs previousStep = Some previous).
Context (Hmethod : inputs currentStep !! "hasOwnProperty" = None).

Lemma lookup_spread2 (a b : dict) (k : string) :
  spread2 a b !! k = match b !! k with Some v => Some v | None => a !! k end.
Proof.
  unfold spread2. rewrite lookup_union.
  by destruct (b !! k), (a !! k).
Qed.

(** X19. The mapping of the revision stored as
    [service/workflow-chain.ts], for a step after the first whose
    predecessor has outputs: it never fails; when the step declares
    [second_input] and the previous [agent_output] is truthy, that output
    becomes [second_input] and no other output is taken; otherwise every
    previous output is taken, over the declared input of the same name.
    This holds at the keys that the user modifications leave alone. *)
Theorem plain_mapping :
  exists ins,
    stepInputs Plain c currentStep = inr ins
    /\ forall k, untouched (userModifications currentStep) k ->
         ins !! k =
           if hasOwnProperty (inputs currentStep) "second_input"
              && truthy_opt (previous !! "agent_output")
           then (if decide (k = "second_input") then previous !! "agent_output"
                 else inputs currentStep !! k)
           else (match previous !! k with
                 | Some v => Some v
                 | None => inputs currentStep !! k
                 end).
Proof.
  rewrite (stepInputs_chained c currentStep previousStep previous) by done.
  unfold chained_inputs.
  rewrite (method_visible currentStep Hmethod).
  destruct (hasOwnProperty _ _ && truthy_opt _) eqn:Hslot;
    eexists; (split; [done|]); intros k Hk;
    rewrite (with_modifications_untouched currentStep) by done.
  - apply andb_prop in Hslot as [_ Ht].
    destruct (previous !! "agent_output") as [a|]; [|done]. simpl.
    case_decide as Hks; [subst k; apply lookup_insert_eq|by apply lookup_insert_ne].
  - apply lookup_spread2.
Qed.

(** X20. In the annotated revision a step that declares [second_input]
    and no named slot takes nothing but that slot from the previous
    outputs: every other key that the user modifications leave alone
    keeps its declared value, or stays absent. *)
Theorem generic_slot_takes_nothing_else (ins : dict) (k : string) :
  is_Some (inputs currentStep !! "second_input") ->
  inputs currentStep !! "competitor_input" = None ->
  inputs currentStep !! "current_de_op_input" = None ->
  stepInputs Annotated c currentStep = inr ins ->
  k <> "second_input" ->
  untouched (userModifications currentStep) k ->
  ins !! k = inputs currentStep !! k.
Proof.
  intros Hsecond Hc Hd Hins Hk Hum. revert Hins.
  rewrite (stepInputs_chained c currentStep previousStep previous) by done.
  unfold chained_inputs.
  rewrite (method_visible currentStep Hmethod). unfold hasOwnProperty.
  rewrite Hc, Hd. rewrite !bool_decide_eq_false_2 by (by intros [??]).
  rewrite bool_decide_eq_true_2 by done. simpl. unfold generic_slot.
  repeat case_match; intros [= <-];
    rewrite (with_modifications_untouched currentStep) by done;
    by rewrite ?lookup_insert_ne.
Qed.

(** X21. In the annotated revision a step that declares none of
    [competitor_input], [current_de_op_input] and [second_input] takes
    every previous output, over the declared input of the same name; the
    mapping does not fail.  This holds at the keys that the user
    modifications leave alone. *)
Theorem undeclared_slots_take_every_output :
  inputs currentStep !! "second_input" = None ->
  inputs currentStep !! "competitor_input" = None ->
  inputs currentStep !! "current_de_op_input" = None ->
  exists ins,
    stepInputs Annotated c currentStep = inr ins
    /\ forall k, untouched (userModifications currentStep) k ->
         ins !! k = match previous !! k with
                    | Some v => Some v
                    | None => inputs currentStep !! k
                    end.
Proof.
  intros Hs Hc Hd.
  rewrite (stepInputs_chained c currentStep previousStep previous) by done.
  unfold chained_inputs.
  rewrite (method_visible currentStep Hmethod). unfold hasOwnProperty.
  rewrite Hs, Hc, Hd. rewrite !bool_decide_eq_false_2 by (by intros [??]). simpl.
  eexists. split; [done|]. intros k Hk.
  rewrite (with_modifications_untouched currentStep) by done.
  apply lookup_spread2.
Qed.

End Mapping.

(** * The test route *)

Section RouteFacts.
Context `{P : Platform}.
Context `{C : Config} `{V : Conversions}.

(** The five ways through the handler. *)
Lemma POST_cases (rev : revision) (fetch : network) (now : nat) (m m' : chains)
    (request : string) (reply : option answer) :
  POST rev fetch now m request = (m', reply) ->
  (m' = m /\ exists e, reply = respond 500 (Crashed e)
     /\ (JSON_parse request = None \/ JSON_parse request = Some JNull))
  \/ (m' = m /\ exists text, reply = respond 400 (Problem text)
        /\ (text = "Chain ID required" \/ text = "Invalid action"))
  \/ (m' = m /\ reply = respond 200 Diagnosis)
  \/ (exists prefix name defs,
        prefix ∈ prefixes /\ handler_chain request defs
        /\ (m', reply) = create m prefix now name defs)
  \/ (exists body id,
        JSON_parse request = Some body
        /\ is_action (mjoin (prop body "action")) "execute" = true
        /\ mjoin (prop body "chainId") = Some id
        /\ truthy id = true
        /\ (m', reply)
           = execute rev fetch m (Some id)
               (mjoin (prop body "userModifications"))).
Proof.
  unfold POST.
  destruct (JSON_parse request) as [body|] eqn:Hparse;
    [|intros [= <- <-]; left; eauto].
  destruct (prop body "action") as [action|] eqn:Haction;
    [|intros [= <- <-]; left; destruct body; try done; eauto].
  destruct (prop body "chainId") as [chainId|] eqn:Hid;
    [|intros [= <- <-]; left; destruct body; try done; eauto].
  destruct (prop body "userModifications") as [um|] eqn:Hum;
    [|intros [= <- <-]; left; destruct body; try done; eauto].
  destruct (prop body "inputs") as [inputs|] eqn:Hinputs;
    [|intros [= <- <-]; left; destruct body; try done; eauto].
  assert (forall p n rest,
            p ∈ prefixes ->
            forallb blank (company_research (requested_inputs body) :: rest) = true ->
            (m', reply)
            = create m p now n (company_research (requested_inputs body) :: rest) ->
            exists prefix name defs,
              prefix ∈ prefixes /\ handler_chain request defs
              /\ (m', reply) = create m prefix now name defs) as Hcreate.
  { intros p n rest Hp Hblank Hc.
    exists p, n, (company_research (requested_inputs body) :: rest).
    split; [done|]. split; [|done]. by exists body, rest. }
  unfold requested_inputs in Hcreate. rewrite Haction, Hinputs in Hcreate.
  simpl in Hcreate.
  destruct (is_action action "create") eqn:H1.
  { intros Hc. symmetry in Hc. do 3 right. left.
    apply (Hcreate "test-chain-" "Test Company Research"
             []); [unfold prefixes; set_solver|done|exact Hc]. }
  destruct (is_action action "execute") eqn:H2.
  { unfold execute at 1. destruct chainId as [id|]; [|intros [= <- <-]; eauto 10].
    destruct (truthy id) eqn:Ht; simpl; [|intros [= <- <-]; eauto 10].
    intros Hex. do 4 right. exists body, id.
    rewrite Haction, Hid, Hum. simpl. unfold execute. by rewrite Ht. }
  destruct (is_action action "create-two-step") eqn:H3.
  { intros Hc. symmetry in Hc. do 3 right. left.
    apply (Hcreate "two-step-chain-" "Two-Step Workflow Chain"
             [second_workflow "Second Analysis"]); [unfold prefixes; set_solver|done|exact Hc]. }
  simpl in Hcreate.
  destruct (is_action action "create-custom") eqn:H4.
  { intros Hc. symmetry in Hc. do 3 right. left.
    apply (Hcreate "custom-chain-" "Custom Workflow Chain"
             [second_workflow "Detailed Analysis"]); [unfold prefixes; set_solver|done|exact Hc]. }
  destruct (is_action action "create-three-step") eqn:H5.
  { intros Hc. symmetry in Hc. do 3 right. left.
    apply (Hcreate "three-step-chain-" "Three-Step Analysis Chain"
             [second_workflow "Detailed Analysis"; advanced_processing]); [unfold prefixes; set_solver|done|exact Hc]. }
  destruct (is_action action "diagnose") eqn:H6; intros [= <- <-]; eauto 10.
Qed.

Lemma execute_cases (rev : revision) (fetch : network) (m m' : chains)
    (id : json) (um : option json) (reply : option answer) :
  truthy id = true ->
  execute rev fetch m (Some id) um = (m', reply) ->
  (m' = m /\ exists e, reply = respond 500 (ExecutionFailed e)
     /\ forall chainId, id <> JStr chainId)
  \/ exists chainId,
       id = JStr chainId
       /\ let ex := executeNextStep rev fetch m chainId (requested_modifications um) in
          m' = registry ex
          /\ match returned ex with
             | Resolved result =>
                 reply = respond 200
                           (StepExecuted result (getChain m' chainId)
                              (isChainCompleted m' chainId))
             | Rejected e => reply = respond 500 (ExecutionFailed e)
             | Unsettled => reply = None
             end.
Proof.
  intros Ht. unfold execute. rewrite Ht. simpl.
  destruct id as [| | |chainId| |]; try (intros [= <- <-]; left; by eauto).
  intros Hex. right. exists chainId. split; [done|]. simpl.
  unfold isChainCompleted, getChain.
  by destruct (returned _); injection Hex as <- <-.
Qed.

Lemma prop_defined (body : json) (name : string) (x : option json) :
  prop body name = Some x ->
  forall other, prop body other = Some (mjoin (prop body other)).
Proof. by destruct body. Qed.

Lemma create_facts (m m' : chains) (prefix name : string) (now : nat)
    (defs : list StepDefinition) (reply : option answer) :
  (m', reply) = create m prefix now name defs ->
  let id := prefix +:+ decimal now in
  let chain := (createChain m id name defs).2 in
  m' = <[id := chain]> m
  /\ reply = respond 200 (ChainCreated id chain).
Proof. unfold create. simpl. by intros [= -> ->]. Qed.

Lemma prefixes_apart (p p' : string) (now now' : nat) :
  p ∈ prefixes -> p' ∈ prefixes ->
  p +:+ decimal now = p' +:+ decimal now' -> now = now'.
Proof.
  unfold prefixes. rewrite !list_elem_of_In. simpl.
  intros [<-|[<-|[<-|[<-|[]]]]] [<-|[<-|[<-|[<-|[]]]]] H;
    try (by apply append_cancel, decimal_inj in H);
    cbv [String.append] in H; discriminate H.
Qed.




(** X22. The answers of the handler and the manager: a chain is stored
    with a 200 that shows it; a step that ran is reported with a 200, a
    rejected one with a 500; and every other answer (the diagnosis, the
    400 for an execute without chain id or for an unknown action, the 500
    for a body that is not JSON or is [null]) leaves the manager as it
    was. *)
Theorem answers_and_the_manager (rev : revision) (fetch : network) (now : nat)
    (m m' : chains) (request : string) (a : answer) :
  POST rev fetch now m request = (m', Some a) ->
  match content a with
  | ChainCreated id chain => code a = 200%nat /\ m' = <[id := chain]> m
  | StepExecuted _ _ _ => code a = 200%nat
  | ExecutionFailed _ => code a = 500%nat
  | Diagnosis => code a = 200%nat /\ m' = m
  | Problem text =>
      code a = 400%nat /\ m' = m
      /\ (text = "Chain ID required" \/ text = "Invalid action")
  | Crashed e =>
      code a = 500%nat /\ m' = m
      /\ (JSON_parse request = None \/ JSON_parse request = Some JNull)
  end.
Proof.
  intros HP. apply POST_cases in HP
    as [(-> & e & Ha & Hp)|[(-> & text & Ha & Ht)|[(-> & Ha)
        |[(prefix & name & defs & _ & _ & Hc)|(body & id & _ & _ & _ & Ht & Hx)]]]].
  - by injection Ha as ->.
  - by injection Ha as ->.
  - by injection Ha as ->.
  - apply create_facts in Hc as [-> Ha]. by injection Ha as ->.
  - symmetry in Hx. apply execute_cases in Hx
      as [(-> & e & Ha & _)|(chainId & -> & Hreg & Hret)]; [|clear Ht|done].
    + by injection Ha as ->.
    + destruct (returned _); [done| |]; by injection Hret as ->.
Qed.

(** X23. A create request stores a chain that is ready to run: it is
    found under the id of the answer, which is one of the four prefixes
    followed by the instant of the request; no other chain is touched;
    the cursor is at the first step, every step is pending without
    outputs or modifications; [hasNextStep] holds; the current step is
    the one of the first workflow with its key; its inputs are those of
    the code for [create] and [create-two-step], and those of the request,
    if it has any, for [create-custom] and [create-three-step]; and the
    next call on the chain, without modifications, reaches the workflow
    with these inputs. *)
Theorem created_chain_is_ready (rev : revision) (fetch fetch' : network) (now : nat)
    (m m' : chains) (request : string) (a : answer) (id : string)
    (chain : WorkflowChain) :
  POST rev fetch now m request = (m', Some a) ->
  content a = ChainCreated id chain ->
  getChain m' id = Some chain
  /\ (forall id', id' <> id -> getChain m' id' = getChain m id')
  /\ (exists prefix, prefix ∈ prefixes /\ id = prefix +:+ decimal now)
  /\ chain_id chain = id
  /\ currentStepIndex chain = 0
  /\ chain_status chain = pending
  /\ Forall (fun st => step_status st = pending /\ outputs st = None
                       /\ userModifications st = None) (steps chain)
  /\ hasNextStep m' id = true
  /\ exists first body,
       getCurrentStep m' id = Some first
       /\ workflowId first = APP_ID
       /\ apiKey first = API_KEY
       /\ JSON_parse request = Some body
       /\ inputs first = requested_inputs body
       /\ called_with (executeNextStep rev fetch' m' id None)
          = Some (requested_inputs body).
Proof.
  intros HP Hcontent. apply POST_cases in HP
    as [(-> & e & Ha & Hp)|[(-> & text & Ha & Ht)|[(-> & Ha)
        |[(prefix & name & defs & Hprefix & Hdefs & Hc)
         |(body & id0 & _ & _ & _ & Ht & Hx)]]]].
  - injection Ha as ->. discriminate Hcontent.
  - injection Ha as ->. discriminate Hcontent.
  - injection Ha as ->. discriminate Hcontent.
  - apply create_facts in Hc as [-> Ha]. injection Ha as ->.
    simpl in Hcontent. injection Hcontent as <- <-.
    destruct Hdefs as (body & rest & Hparse & -> & Hblank).
    unfold getChain, hasNextStep, getCurrentStep.
    rewrite !lookup_insert_eq.
    split; [done|]. split; [intros id' Hne; by rewrite lookup_insert_ne|].
    split; [by exists prefix|]. do 3 (split; [done|]).
    split.
    { apply Forall_lookup. intros j st. cbn [createChain snd steps].
      rewrite list_lookup_imap.
      destruct (_ !! j) as [d|] eqn:Hd; [|done]. simpl. intros [= <-]. simpl.
      rewrite forallb_forall in Hblank. specialize (Hblank d).
      rewrite <- list_elem_of_In in Hblank.
      apply list_elem_of_lookup_2 in Hd. apply Hblank in Hd.
      unfold blank in Hd. apply andb_prop in Hd as [Ho Hu].
      by apply bool_decide_eq_true in Ho, Hu. }
    split; [done|].
    eexists _, body. do 5 (split; [done|]).
    erewrite first_step_call; [|apply lookup_insert_eq|done|done].
    simpl. by rewrite with_modifications_None.
  - symmetry in Hx. apply execute_cases in Hx
      as [(-> & e & Ha & _)|(chainId & -> & Hreg & Hret)]; [| |done].
    + injection Ha as ->. discriminate Hcontent.
    + destruct (returned _); [done| |]; injection Hret as ->; discriminate Hcontent.
Qed.



(** X26. Chains created at different instants never overwrite each
    other: the two ids differ, and both chains are found afterwards. *)
Theorem chains_of_different_instants_coexist (rev : revision)
    (fetch fetch' : network) (now now' : nat) (m m1 m2 : chains)
    (request request' : string) (a a' : answer) (id id' : string)
    (chain chain' : WorkflowChain) :
  POST rev fetch now m request = (m1, Some a) ->
  content a = ChainCreated id chain ->
  POST rev fetch' now' m1 request' = (m2, Some a') ->
  content a' = ChainCreated id' chain' ->
  now <> now' ->
  id <> id' /\ getChain m2 id = Some chain /\ getChain m2 id' = Some chain'.
Proof.
  assert (forall f t k k' q b i ch,
            POST rev f t k q = (k', Some b) -> content b = ChainCreated i ch ->
            k' = <[i := ch]> k
            /\ exists prefix, prefix ∈ prefixes /\ i = prefix +:+ decimal t)
    as Hcreated.
  { intros f t k k' q b i ch HP Hcontent. apply POST_cases in HP
      as [(-> & e & Ha & Hp)|[(-> & text & Ha & Ht)|[(-> & Ha)
          |[(prefix & name & defs & Hprefix & Hdefs & Hc)
           |(body & id0 & _ & _ & _ & Ht & Hx)]]]].
    - injection Ha as ->. discriminate Hcontent.
    - injection Ha as ->. discriminate Hcontent.
    - injection Ha as ->. discriminate Hcontent.
    - apply create_facts in Hc as [-> Ha]. injection Ha as ->.
      simpl in Hcontent. injection Hcontent as <- <-. eauto.
    - symmetry in Hx. apply execute_cases in Hx
        as [(-> & e & Ha & _)|(chainId & -> & Hreg & Hret)]; [| |done].
      + injection Ha as ->. discriminate Hcontent.
      + destruct (returned _); [done| |]; injection Hret as ->;
          discriminate Hcontent. }
  intros HP1 Hc1 HP2 Hc2 Hnow.
  destruct (Hcreated _ _ _ _ _ _ _ _ HP1 Hc1) as (-> & p & Hp & ->).
  destruct (Hcreated _ _ _ _ _ _ _ _ HP2 Hc2) as (-> & p' & Hp' & ->).
  assert (p +:+ decimal now <> p' +:+ decimal now') as Hne.
  { intros H. by apply prefixes_apart in H. }
  unfold getChain. split; [done|].
  rewrite lookup_insert_ne, !lookup_insert_eq by done. done.
Qed.

End RouteFacts.

Section Listing.
Context `{P : Platform}.

(** X27. After any sequence of calls, [getAllChains] lists each stored
    chain once: no two chains of the list have the same id, and a chain
    is in the list exactly when [getChain] returns it for its id. *)
Theorem getAllChains_lists_each_chain_once (rev : revision) (m : chains) :
  reachable rev m ->
  NoDup (chain_id <$> getAllChains m)
  /\ forall c, c ∈ getAllChains m <-> getChain m (chain_id c) = Some c.
Proof.
  intros Hr.
  assert (forall id c, m !! id = Some c -> chain_id c = id) as Hid.
  { intros id c Hc.
    destruct (reachable_blueprint rev m Hr id c Hc) as (name & defs & Hb).
    exact (f_equal (fun b => b.1.1) Hb). }
  unfold getAllChains, getChain. split.
  - replace (chain_id <$> (map_to_list m).*2) with (map_to_list m).*1;
      [apply NoDup_fst_map_to_list|].
    rewrite <- list_fmap_compose. apply list_fmap_ext.
    intros j [id c] Hj. simpl. symmetry. apply Hid.
    apply elem_of_map_to_list. by eapply list_elem_of_lookup_2.
  - intros c. rewrite list_elem_of_fmap. split.
    + intros ([id c'] & -> & Hin). simpl.
      apply elem_of_map_to_list in Hin. by rewrite (Hid id c' Hin).
    + intros Hc. exists (chain_id c, c). split; [done|].
      by apply elem_of_map_to_list.
Qed.

End Listing.

(** * The further theorems on the scenarios *)

Section MoreInstances.
Import Text Scenario Cases.

Lemma nothing_is_read_after_the_end_instance :
  executeCustomWorkflow silent
    (Responds (with_body (response_of []) finished Done)) tt
  = (AtFinished, tt, [CallWorkflowFinished (workflow_finished [])])
  /\ executeCustomWorkflow silent
       (Responds (with_body (response_of []) (finished ++ afterwards)
                    (ReadFails TypeError))) tt
     = (AtFinished, tt, [CallWorkflowFinished (workflow_finished [])]).
Proof.
  split; [reflexivity|].
  apply (nothing_is_read_after_the_end silent (response_of []) finished afterwards
           Done (ReadFails TypeError)).
  reflexivity.
Defined.

Lemma unterminated_line_is_dropped_instance :
  decode_chunks decoder_start ([bytes node_line] ++ [bytes unterminated])
  = decode_chunks decoder_start [bytes node_line] +:+ unterminated
  /\ no_line_feed unterminated = true
  /\ executeCustomWorkflow silent
       (Responds (with_body (response_of [])
                    ([bytes node_line] ++ [bytes unterminated]) Done)) tt
     = executeCustomWorkflow silent
         (Responds (with_body (response_of []) [bytes node_line] Done)) tt.
Proof.
  split; [reflexivity|]. split; [reflexivity|].
  apply (unterminated_line_is_dropped silent (response_of []) [bytes node_line]
           (bytes unterminated) unterminated Done tt); reflexivity.
Defined.

Lemma ignored_line_leaves_no_trace_instance :
  passed_over comment = true
  /\ executeCustomWorkflow silent
       (Responds (with_body (response_of [])
                    [bytes (node_line +:+ comment +:+ String newline last_line)]
                    Done)) tt
     = executeCustomWorkflow silent
         (Responds (with_body (response_of []) [bytes (node_line +:+ last_line)]
                      Done)) tt.
Proof.
  split; [reflexivity|].
  apply (ignored_line_leaves_no_trace silent (response_of [])
           [bytes (node_line +:+ comment +:+ String newline last_line)]
           [bytes (node_line +:+ last_line)] node_line comment last_line Done tt);
    try reflexivity.
  left. reflexivity.
Defined.

Lemma malformed_line_only_warns_instance :
  malformed broken
  /\ executeCustomWorkflow silent
       (Responds (with_body (response_of []) [bytes node_line] Done)) tt
     = (AtDone, tt, [CallNodeFinished (node_finished (only_agent "X"))])
  /\ executeCustomWorkflow silent
       (Responds (with_body (response_of []) [bytes (node_line +:+ last_line)]
                    Done)) tt
     = (AtFinished, tt,
        ([CallNodeFinished (node_finished (only_agent "X"))]
           ++ [CallWorkflowFinished (workflow_finished [])])%list)
  /\ executeCustomWorkflow silent
       (Responds (with_body (response_of [])
                    [bytes (node_line +:+ broken +:+ String newline last_line)]
                    Done)) tt
     = (AtFinished, tt,
        ([CallNodeFinished (node_finished (only_agent "X"))]
           ++ Warn broken SyntaxError
              :: [CallWorkflowFinished (workflow_finished [])])%list).
Proof.
  split; [split; reflexivity|]. split; [reflexivity|].
  destruct (malformed_line_only_warns silent (response_of [])
              [bytes (node_line +:+ broken +:+ String newline last_line)]
              [bytes (node_line +:+ last_line)] [bytes node_line] [bytes last_line]
              node_line broken last_line Done tt tt AtDone
              [CallNodeFinished (node_finished (only_agent "X"))]
              ltac:(reflexivity) ltac:(reflexivity) ltac:(reflexivity)
              ltac:(reflexivity) ltac:(reflexivity) ltac:(reflexivity)
              ltac:(reflexivity) ltac:(split; reflexivity) ltac:(reflexivity))
    as [(Hreturned & _)|(_ & Hrest)].
  - discriminate Hreturned.
  - apply Hrest. reflexivity.
Defined.

Lemma success_advances_by_one_instance :
  returned (executeNextStep Annotated succeeding one_step "chain" None)
  = Resolved empty_result
  /\ exists c0 step0 c' st',
       one_step !! "chain" = Some c0
       /\ step_at c0 (currentStepIndex c0) = Some step0
       /\ registry (executeNextStep Annotated succeeding one_step "chain" None)
            !! "chain" = Some c'
       /\ currentStepIndex c' = currentStepIndex c0 + 1
       /\ chain_status c' =
            (if currentStepIndex c0 + 1 <? Z.of_nat (length (steps c0))
             then pending else completed)
       /\ steps c' !! Z.to_nat (currentStepIndex c0) = Some st'
       /\ step_status st' = completed
       /\ outputs st' = Some (result_outputs empty_result)
       /\ userModifications st' = from_option Some (userModifications step0) None
       /\ stepId empty_result = step_id step0
       /\ success empty_result = true
       /\ forall j, j <> Z.to_nat (currentStepIndex c0) -> steps c' !! j = steps c0 !! j.
Proof.
  split; [reflexivity|].
  apply (success_advances_by_one Annotated succeeding one_step "chain" None
           empty_result).
  reflexivity.
Defined.

Lemma cursor_moves_only_on_success_instance :
  one_step !! "chain" = Some one_step_chain
  /\ exists c',
       registry (executeNextStep Annotated failing one_step "chain" None) !! "chain"
       = Some c'
       /\ ((exists r, returned (executeNextStep Annotated failing one_step "chain" None)
                      = Resolved r)
           /\ currentStepIndex c' = currentStepIndex one_step_chain + 1
           \/ (forall r, returned (executeNextStep Annotated failing one_step "chain" None)
                         <> Resolved r)
              /\ currentStepIndex c' = currentStepIndex one_step_chain
              /\ outputs <$> steps c' = outputs <$> steps one_step_chain).
Proof.
  split; [reflexivity|].
  apply (cursor_moves_only_on_success Annotated failing one_step "chain" None
           one_step_chain).
  reflexivity.
Defined.

Lemma plain_outputs_are_those_of_the_final_event_instance :
  returned (executeNextStep Plain merging one_step "chain" None) = Resolved final_result
  /\ exists pre d,
       effects (executeNextStep Plain merging one_step "chain" None)
       = (pre ++ [CallWorkflowFinished d])%list
       /\ truthy_opt (carried_error d) = false
       /\ result_outputs final_result = carried_outputs d.
Proof.
  split; [reflexivity|].
  apply (plain_outputs_are_those_of_the_final_event merging one_step "chain" None
           final_result).
  reflexivity.
Defined.

Lemma one_step_reachable : reachable Annotated one_step.
Proof. apply reachable_createChain, reachable_new. Defined.

Lemma one_step_done_reachable : reachable Annotated one_step_done.
Proof. apply reachable_executeNextStep, one_step_reachable. Defined.

Lemma hasNextStep_foretells_the_call_instance :
  hasNextStep one_step_done "chain" = false
  /\ returned (executeNextStep Annotated succeeding one_step_done "chain" None)
     = Rejected (Error (JStr "No more steps in chain chain"))
  /\ hasNextStep one_step "chain" = true
  /\ is_Some (called_with (executeNextStep Annotated succeeding one_step "chain" None)).
Proof.
  pose proof (hasNextStep_foretells_the_call Annotated succeeding one_step_done
                "chain" None one_step_done_reachable) as [Hnone _].
  split; [reflexivity|]. split; [exact (proj1 (Hnone eq_refl))|].
  split; [reflexivity|]. by eexists.
Defined.

Lemma queries_agree_instance :
  reachable Annotated one_step_done
  /\ (hasNextStep one_step_done "chain" = true
      <-> is_Some (getCurrentStep one_step_done "chain"))
  /\ (isChainCompleted one_step_done "chain" = true ->
      hasNextStep one_step_done "chain" = false)
  /\ (forall c, getChain one_step_done "chain" = Some c -> steps c <> [] ->
        hasNextStep one_step_done "chain" = false ->
        isChainCompleted one_step_done "chain" = true).
Proof.
  split; [exact one_step_done_reachable|].
  apply (queries_agree Annotated one_step_done "chain" one_step_done_reachable).
Defined.

Lemma step_ids_name_their_place_instance :
  one_step !! "chain" = Some one_step_chain
  /\ chain_id one_step_chain = "chain"
  /\ (forall j st, steps one_step_chain !! j = Some st ->
        step_id st = "chain" +:+ "-step-" +:+ decimal j)
  /\ NoDup (step_id <$> steps one_step_chain).
Proof.
  split; [reflexivity|].
  apply (step_ids_name_their_place Annotated one_step "chain" one_step_chain
           one_step_reachable).
  reflexivity.
Defined.

Lemma resetChain_restores_the_created_chain_instance :
  forallb blank [research] = true
  /\ later Annotated "chain" (createChain ∅ "chain" "Chain" [research]).1
       (registry (executeNextStep Annotated succeeding
                    (createChain ∅ "chain" "Chain" [research]).1 "chain" None))
  /\ getChain
       (resetChain
          (registry (executeNextStep Annotated succeeding
                       (createChain ∅ "chain" "Chain" [research]).1 "chain" None))
          "chain") "chain"
     = Some (createChain ∅ "chain" "Chain" [research]).2.
Proof.
  assert (later Annotated "chain" (createChain ∅ "chain" "Chain" [research]).1
            (registry (executeNextStep Annotated succeeding
                         (createChain ∅ "chain" "Chain" [research]).1 "chain" None)))
    as Hlater by apply later_executeNextStep, later_now.
  split; [reflexivity|]. split; [exact Hlater|].
  apply (resetChain_restores_the_created_chain Annotated ∅ _ "chain" "Chain"
           [research] eq_refl Hlater).
Defined.

Lemma retry_sends_the_same_inputs_instance :
  called_with (executeNextStep Annotated failing one_step "chain" (Some modification))
  = Some modified_inputs
  /\ returned (executeNextStep Annotated failing one_step "chain" (Some modification))
     = Rejected (Error (JStr "boom"))
  /\ called_with
       (executeNextStep Annotated succeeding
          (registry (executeNextStep Annotated failing one_step "chain"
                       (Some modification)))
          "chain" None)
     = Some modified_inputs.
Proof.
  assert (returned (executeNextStep Annotated failing one_step "chain"
                      (Some modification))
          = Rejected (Error (JStr "boom"))) as Hret by reflexivity.
  split; [reflexivity|]. split; [exact Hret|].
  apply (retry_sends_the_same_inputs Annotated failing succeeding one_step "chain"
           (Some modification) modified_inputs); [reflexivity|].
  intros r Hr. rewrite Hret in Hr. discriminate Hr.
Defined.

Lemma first_call_sends_the_defined_inputs_instance :
  [research] !! 0%nat = Some research
  /\ called_with
       (executeNextStep Annotated succeeding (createChain ∅ "chain" "Chain" [research]).1
          "chain" (Some modification))
     = Some (with_modifications (def_inputs research)
               (from_option Some (def_userModifications research) (Some modification))).
Proof.
  split; [reflexivity|].
  apply (first_call_sends_the_defined_inputs Annotated succeeding ∅ "chain" "Chain"
           [research] research (Some modification)).
  reflexivity.
Defined.

Lemma refused_request_rejects_the_call_instance :
  getCurrentStep one_step "chain" = Some its_step
  /\ called_with (executeNextStep Annotated not_found one_step "chain" None)
     = Some research_inputs
  /\ returned (executeNextStep Annotated not_found one_step "chain" None)
     = Rejected (Error (JStr "Workflow API error: 404 Not Found"))
  /\ awaited (executeNextStep Annotated not_found one_step "chain" None)
     = Some (AtThrow (Error (JStr "Workflow API error: 404 Not Found")))
  /\ effects (executeNextStep Annotated not_found one_step "chain" None) = []
  /\ exists c0 c',
       getChain one_step "chain" = Some c0
       /\ getChain (registry (executeNextStep Annotated not_found one_step "chain" None))
            "chain" = Some c'
       /\ chain_status c' = failed
       /\ currentStepIndex c' = currentStepIndex c0.
Proof.
  split; [reflexivity|]. split; [reflexivity|].
  apply (refused_request_rejects_the_call Annotated not_found one_step "chain" None
           its_step research_inputs
           (Error (JStr "Workflow API error: 404 Not Found")));
    [reflexivity|reflexivity|].
  right. eexists. split; [reflexivity|]. left. split; reflexivity.
Defined.

Lemma early_rejection_marks_nothing_instance :
  called_with (executeNextStep Annotated succeeding one_step "other" None) = None
  /\ (exists e, returned (executeNextStep Annotated succeeding one_step "other" None)
                = Rejected e)
  /\ effects (executeNextStep Annotated succeeding one_step "other" None) = []
  /\ forall id,
       chain_status
         <$> registry (executeNextStep Annotated succeeding one_step "other" None) !! id
       = chain_status <$> one_step !! id
       /\ currentStepIndex
            <$> registry (executeNextStep Annotated succeeding one_step "other" None) !! id
          = currentStepIndex <$> one_step !! id
       /\ (fun c => (step_status <$> steps c, outputs <$> steps c))
            <$> registry (executeNextStep Annotated succeeding one_step "other" None) !! id
          = (fun c => (step_status <$> steps c, outputs <$> steps c)) <$> one_step !! id.
Proof.
  split; [reflexivity|].
  apply (early_rejection_marks_nothing Annotated succeeding one_step "other" None).
  reflexivity.
Defined.

Lemma plain_mapping_instance :
  0 < currentStepIndex (chain_after generic_analysis (only_agent "X"))
  /\ step_at (chain_after generic_analysis (only_agent "X"))
       (currentStepIndex (chain_after generic_analysis (only_agent "X")) - 1)
     = Some (first_step generic_analysis (only_agent "X"))
  /\ outputs (first_step generic_analysis (only_agent "X"))
     = Some (fields_dict (only_agent "X"))
  /\ inputs (second_step generic_analysis (only_agent "X")) !! "hasOwnProperty" = None
  /\ exists ins,
       stepInputs Plain (chain_after generic_analysis (only_agent "X"))
         (second_step generic_analysis (only_agent "X")) = inr ins
       /\ forall k,
            untouched (userModifications (second_step generic_analysis (only_agent "X")))
              k ->
            ins !! k =
              if hasOwnProperty (inputs (second_step generic_analysis (only_agent "X")))
                   "second_input"
                 && truthy_opt (fields_dict (only_agent "X") !! "agent_output")
              then (if decide (k = "second_input")
                    then fields_dict (only_agent "X") !! "agent_output"
                    else inputs (second_step generic_analysis (only_agent "X")) !! k)
              else (match fields_dict (only_agent "X") !! k with
                    | Some v => Some v
                    | None => inputs (second_step generic_analysis (only_agent "X")) !! k
                    end).
Proof.
  repeat (split; [reflexivity|]).
  apply (plain_mapping
           (chain_after generic_analysis (only_agent "X"))
           (second_step generic_analysis (only_agent "X"))
           (first_step generic_analysis (only_agent "X"))
           (fields_dict (only_agent "X"))
           ltac:(reflexivity) ltac:(reflexivity) ltac:(reflexivity)
           ltac:(reflexivity)).
Defined.

Lemma generic_slot_takes_nothing_else_instance :
  stepInputs Annotated (chain_after generic_analysis (only_agent "X"))
    (second_step generic_analysis (only_agent "X"))
  = inr {[ "second_input" := JStr "X" ]}
  /\ ({[ "second_input" := JStr "X" ]} : dict) !! "agent_output"
     = inputs (second_step generic_analysis (only_agent "X")) !! "agent_output".
Proof.
  split; [reflexivity|].
  apply (generic_slot_takes_nothing_else
           (chain_after generic_analysis (only_agent "X"))
           (second_step generic_analysis (only_agent "X"))
           (first_step generic_analysis (only_agent "X"))
           (fields_dict (only_agent "X"))
           ltac:(reflexivity) ltac:(reflexivity) ltac:(reflexivity)
           ltac:(reflexivity)
           {[ "second_input" := JStr "X" ]} "agent_output"
           ltac:(eexists; reflexivity) ltac:(reflexivity) ltac:(reflexivity)
           ltac:(reflexivity) ltac:(discriminate)
           ltac:(intros u Hu; discriminate Hu)).
Defined.

Lemma undeclared_slots_take_every_output_instance :
  0 < currentStepIndex (chain_after summary (only_agent "X"))
  /\ inputs (second_step summary (only_agent "X")) !! "second_input" = None
  /\ inputs (second_step summary (only_agent "X")) !! "competitor_input" = None
  /\ inputs (second_step summary (only_agent "X")) !! "current_de_op_input" = None
  /\ exists ins,
       stepInputs Annotated (chain_after summary (only_agent "X"))
         (second_step summary (only_agent "X")) = inr ins
       /\ forall k,
            untouched (userModifications (second_step summary (only_agent "X"))) k ->
            ins !! k = match fields_dict (only_agent "X") !! k with
                       | Some v => Some v
                       | None => inputs (second_step summary (only_agent "X")) !! k
                       end.
Proof.
  repeat (split; [reflexivity|]).
  apply (undeclared_slots_take_every_output
           (chain_after summary (only_agent "X"))
           (second_step summary (only_agent "X"))
           (first_step summary (only_agent "X"))
           (fields_dict (only_agent "X"))
           ltac:(reflexivity) ltac:(reflexivity) ltac:(reflexivity)
           ltac:(reflexivity) ltac:(reflexivity) ltac:(reflexivity)
           ltac:(reflexivity)).
Defined.


Lemma answers_and_the_manager_instance :
  POST Annotated succeeding 42 ∅ create_request = (with_test_chain, Some created_answer)
  /\ code created_answer = 200%nat
  /\ with_test_chain = <["test-chain-42" := test_chain]> ∅.
Proof.
  split; [reflexivity|].
  apply (answers_and_the_manager Annotated succeeding 42 ∅ with_test_chain
           create_request created_answer).
  reflexivity.
Defined.

Lemma created_chain_is_ready_instance :
  POST Annotated succeeding 42 ∅ create_request = (with_test_chain, Some created_answer)
  /\ getChain with_test_chain "test-chain-42" = Some test_chain
  /\ (forall id', id' <> "test-chain-42" ->
        getChain with_test_chain id' = getChain ∅ id')
  /\ (exists prefix, prefix ∈ prefixes /\ "test-chain-42" = prefix +:+ decimal 42)
  /\ chain_id test_chain = "test-chain-42"
  /\ currentStepIndex test_chain = 0
  /\ chain_status test_chain = pending
  /\ Forall (fun st => step_status st = pending /\ outputs st = None
                       /\ userModifications st = None) (steps test_chain)
  /\ hasNextStep with_test_chain "test-chain-42" = true
  /\ exists first body,
       getCurrentStep with_test_chain "test-chain-42" = Some first
       /\ workflowId first = APP_ID
       /\ apiKey first = API_KEY
       /\ JSON_parse create_request = Some body
       /\ inputs first = requested_inputs body
       /\ called_with (executeNextStep Annotated failing with_test_chain
                         "test-chain-42" None)
          = Some (requested_inputs body).
Proof.
  split; [reflexivity|].
  apply (created_chain_is_ready Annotated succeeding failing 42 ∅ with_test_chain
           create_request created_answer "test-chain-42" test_chain);
    reflexivity.
Defined.


Lemma chains_of_different_instants_coexist_instance :
  POST Annotated succeeding 42 ∅ create_request = (with_test_chain, Some created_answer)
  /\ POST Annotated succeeding 43 with_test_chain two_step_request
     = (<["two-step-chain-43" := two_step_chain]> with_test_chain, Some second_answer)
  /\ "test-chain-42" <> "two-step-chain-43"
  /\ getChain (<["two-step-chain-43" := two_step_chain]> with_test_chain)
       "test-chain-42" = Some test_chain
  /\ getChain (<["two-step-chain-43" := two_step_chain]> with_test_chain)
       "two-step-chain-43" = Some two_step_chain.
Proof.
  split; [reflexivity|]. split; [reflexivity|].
  apply (chains_of_different_instants_coexist Annotated succeeding succeeding 42 43
           ∅ with_test_chain (<["two-step-chain-43" := two_step_chain]> with_test_chain)
           create_request two_step_request created_answer second_answer
           "test-chain-42" "two-step-chain-43" test_chain two_step_chain);
    try reflexivity.
  discriminate.
Defined.

Lemma deleted_chain_stays_unknown_instance :
  later Annotated "chain" (deleteChain Annotated one_step "chain").1
    (registry (executeNextStep Annotated succeeding
                 (deleteChain Annotated one_step "chain").1 "chain" None))
  /\ getChain
       (registry (executeNextStep Annotated succeeding
                    (deleteChain Annotated one_step "chain").1 "chain" None))
       "chain" = None
  /\ getCurrentStep
       (registry (executeNextStep Annotated succeeding
                    (deleteChain Annotated one_step "chain").1 "chain" None))
       "chain" = None
  /\ isChainCompleted
       (registry (executeNextStep Annotated succeeding
                    (deleteChain Annotated one_step "chain").1 "chain" None))
       "chain" = false
  /\ hasNextStep
       (registry (executeNextStep Annotated succeeding
                    (deleteChain Annotated one_step "chain").1 "chain" None))
       "chain" = false
  /\ resetChain
       (registry (executeNextStep Annotated succeeding
                    (deleteChain Annotated one_step "chain").1 "chain" None))
       "chain"
     = registry (executeNextStep Annotated succeeding
                   (deleteChain Annotated one_step "chain").1 "chain" None)
  /\ returned
       (executeNextStep Annotated failing
          (registry (executeNextStep Annotated succeeding
                       (deleteChain Annotated one_step "chain").1 "chain" None))
          "chain" None)
     = Rejected (Error (JStr ("Chain " +:+ "chain" +:+ " not found")))
  /\ registry
       (executeNextStep Annotated failing
          (registry (executeNextStep Annotated succeeding
                       (deleteChain Annotated one_step "chain").1 "chain" None))
          "chain" None)
     = registry (executeNextStep Annotated succeeding
                   (deleteChain Annotated one_step "chain").1 "chain" None)
  /\ deleteChain Annotated
       (registry (executeNextStep Annotated succeeding
                    (deleteChain Annotated one_step "chain").1 "chain" None))
       "chain"
     = (registry (executeNextStep Annotated succeeding
                    (deleteChain Annotated one_step "chain").1 "chain" None),
        Some false).
Proof.
  assert (later Annotated "chain" (deleteChain Annotated one_step "chain").1
            (registry (executeNextStep Annotated succeeding
                         (deleteChain Annotated one_step "chain").1 "chain" None)))
    as Hlater by apply later_executeNextStep, later_now.
  split; [exact Hlater|].
  apply (deleted_chain_stays_unknown Annotated failing one_step _ "chain" None
           Hlater).
Defined.


Lemma getAllChains_lists_each_chain_once_instance :
  reachable Annotated one_step
  /\ NoDup (chain_id <$> getAllChains one_step)
  /\ forall c, c ∈ getAllChains one_step <-> getChain one_step (chain_id c) = Some c.
Proof.
  assert (reachable Annotated one_step) as Hr
    by apply reachable_createChain, reachable_new.
  split; [exact Hr|].
  apply (getAllChains_lists_each_chain_once Annotated one_step Hr).
Defined.

Lemma only_the_transport_throws_instance :
  executeCustomWorkflow silent
    (Responds (with_body (response_of []) [bytes node_line]
                 (ReadFails (Failure "connection reset")))) tt
  = (AtThrow (Failure "connection reset"), tt,
     [CallNodeFinished (node_finished (only_agent "X"))])
  /\ (Responds (with_body (response_of []) [bytes node_line]
                  (ReadFails (Failure "connection reset")))
      = FetchFails (Failure "connection reset")
      \/ exists r,
           Responds (with_body (response_of []) [bytes node_line]
                       (ReadFails (Failure "connection reset")))
           = Responds r
           /\ (ok r = false
               /\ Failure "connection reset"
                  = Error (JStr ("Workflow API error: " +:+ decimal (status r)
                                   +:+ " " +:+ statusText r))
               \/ ok r = true /\ body r = None
                  /\ Failure "connection reset"
                     = Error (JStr "No response body received from workflow API")
               \/ ok r = true
                  /\ exists chunks,
                       body r = Some (chunks, ReadFails (Failure "connection reset")))).
Proof.
  split; [reflexivity|].
  apply (only_the_transport_throws silent
           (Responds (with_body (response_of []) [bytes node_line]
                        (ReadFails (Failure "connection reset"))))
           tt tt (Failure "connection reset")
           [CallNodeFinished (node_finished (only_agent "X"))]).
  reflexivity.
Defined.

End MoreInstances.
